(** * PyHula installation patcher: a shallow embedding of [pyhula_patcher.py]

    The development follows the source file top-down:
    - [Text]: the [str] operations the patcher uses ([in], [split],
      [join], [strip], [startswith], [replace]) on lists of code points;
    - [Scan]: the line loop shared by the two method-body patches;
    - [Rewrite]: the three text rewrites (MAVLink header, UDP binding,
      UserApi connect);
    - [Patcher]: the [PyHulaPatcher] object, the file system it works on,
      and its methods as programs of a state-and-exception monad;
    - [Script], [PatchedTest], [InstallTest]: the two test scripts that
      come with the patcher, as programs over the console.

    What the embedding takes for granted:
    - a file is known by the text that reading it returns, so every
      regular file of the model holds UTF-8: a read that would raise a
      [UnicodeDecodeError] has no state here; a text that the
      patcher writes is the text that the next read returns (the texts it
      writes come from a read and from its own literals, and have no
      carriage return that the newline translation could change);
    - a write happens whole or not at all, and the console takes every
      line;
    - of the operating system's refusals only those to create or write a
      path are kept, as a set of locked paths; a file below a path is
      assumed to have that path as a directory;
    - [import pyhula] and the reload of the module are answers given by
      the world: the import returns or raises an [ImportError], and what
      the interpreter writes beside the package when it imports it, its
      cache of byte code, is not among the files of the model;
    - the walk of [rglob] is taken when the loop starts, in the order in
      which the world lists the entries. *)

From Stdlib Require Import NArith Ascii String.
From stdpp Require Import gmap strings list fin_maps pretty.

Local Open Scope N_scope.
Local Open Scope nat_scope.

(** A Python [str] is a sequence of Unicode code points. *)
Abbreviation text := (list N).

(** An ASCII literal as a [str]; the code point of an ASCII character is
    its byte. *)
Definition lit (s : string) : text :=
  map N_of_ascii (list_ascii_of_string s).

Module Text.

(** The white space of [str.strip] and [str.lstrip] without argument, by
    code point: the table of CPython for [str]. *)
Definition is_space (c : N) : bool :=
  ((9 <=? c) && (c <=? 13) || (28 <=? c) && (c <=? 32) ||
   (c =? 133) || (c =? 160) || (c =? 5760) ||
   (8192 <=? c) && (c <=? 8202) || (c =? 8232) || (c =? 8233) ||
   (c =? 8239) || (c =? 8287) || (c =? 12288))%N.

Fixpoint lstrip (s : text) : text :=
  match s with
  | [] => []
  | c :: s' => if is_space c then lstrip s' else s
  end.

Definition rstrip (s : text) : text := reverse (lstrip (reverse s)).

Definition strip (s : text) : text := rstrip (lstrip s).

(** [s.startswith(p)] *)
Fixpoint startswith (p s : text) : bool :=
  match p, s with
  | [], _ => true
  | _ :: _, [] => false
  | a :: p', b :: s' => (a =? b)%N && startswith p' s'
  end.

(** [p in s] *)
Fixpoint contains (p s : text) : bool :=
  startswith p s ||
  match s with
  | [] => false
  | _ :: s' => contains p s'
  end.

(** [s.split(sep)] for a one-character separator: never the empty list. *)
Fixpoint split (sep : N) (s : text) : list text :=
  match s with
  | [] => [[]]
  | c :: s' =>
      if (c =? sep)%N then [] :: split sep s'
      else match split sep s' with
           | [] => [[c]]
           | h :: t => (c :: h) :: t
           end
  end.

(** [sep.join(ls)] *)
Fixpoint join (sep : text) (ls : list text) : text :=
  match ls with
  | [] => []
  | [l] => l
  | l :: ls' => l ++ sep ++ join sep ls'
  end.

(** [s.replace(old, new)]: the occurrences of [old] are taken from the left
    and do not overlap.  [skip] counts the characters of a match that are
    still to be dropped. *)
Fixpoint replace_from (old new : text) (skip : nat) (s : text) : text :=
  match s with
  | [] => []
  | c :: s' =>
      match skip with
      | S k => replace_from old new k s'
      | O =>
          if startswith old s
          then new ++ replace_from old new (length old - 1) s'
          else c :: replace_from old new 0 s'
      end
  end.

Definition replace (old new s : text) : text :=
  match old with
  | [] => new ++ flat_map (λ c, c :: new) s
  | _ :: _ => replace_from old new 0 s
  end.

(** Number of positions of [s] at which [p] starts. *)
Fixpoint occurrences (p s : text) : nat :=
  (if startswith p s then 1 else 0) +
  match s with
  | [] => 0
  | _ :: s' => occurrences p s'
  end.

(** [len(line) - len(line.lstrip())] *)
Definition indent (line : text) : nat :=
  length line - length (lstrip line).

(** Truth value of [line.strip()]. *)
Definition nonblank (line : text) : bool :=
  match strip line with [] => false | _ :: _ => true end.

Definition newline : N := 10%N.
Definition dquote : text := [34%N].
Definition spaces (n : nat) : text := replicate n 32%N.

End Text.

Import Text.

(** ** The line loop of the method-body patches

    [patch_mavlink_header] and [patch_userapi_connection] run the same
    [for line in lines] loop over [new_lines], a flag and [indent_level];
    they differ in the test that recognises the opening line, in the lines
    they put in its place and in the test that ends the old method. *)

Record ScanState := mkScan {
  new_lines : list text;
  in_method : bool;
  indent_level : nat
}.

Section Scan.
(** [opens line]: the signature test on a line.
    [emit d]: the replacement lines for an opening line of indentation [d].
    [ends d line]: the test that closes a method opened at indentation [d]. *)
Variable opens : text → bool.
Variable emit : nat → list text.
Variable ends : nat → text → bool.

(** The body of the loop (lines 116-133 and 257-275). *)
Definition scan_step (st : ScanState) (line : text) : ScanState :=
  if opens line then
    mkScan (new_lines st ++ emit (indent line)) true (indent line)
  else if in_method st then
    if ends (indent_level st) line
    then mkScan (new_lines st ++ [line]) false (indent_level st)
    else st
  else mkScan (new_lines st ++ [line]) (in_method st) (indent_level st).

Definition scan_from (st : ScanState) (lines : list text) : ScanState :=
  fold_left scan_step lines st.

(** [new_lines = []], the flag [False], [indent_level = 0]. *)
Definition scan_init : ScanState := mkScan [] false 0.

Definition scan (lines : list text) : list text :=
  new_lines (scan_from scan_init lines).
End Scan.

(** ** The three rewrites

    Each patch method reads a text and decides among three things: the
    marker is there, the pattern is not there, or a new text is to be
    written.  [rewrite] is that decision as a function of the text. *)

Inductive Rewrite :=
  | Already               (* the marker is in the text *)
  | NotFound              (* the pattern is not in the text *)
  | Patched (t : text).   (* the text to write back *)

(** [patch_mavlink_header], lines 75-145. *)
Module Mavlink.

Definition marker : text := lit "# PYHULA_PATCH_APPLIED".

Definition signature : text := lit "def pack(self, force_mavlink1=False):".

Definition original_pack_pattern : text :=
  join [newline] [
    lit "    def pack(self, force_mavlink1=False):";
    lit "        " ++ dquote ++ dquote ++ dquote;
    lit "        pack the MAVLink header into a byte string";
    lit "        " ++ dquote ++ dquote ++ dquote;
    lit "        " ].

Definition fixed_pack_code : text :=
  join [newline] [
    lit "    def pack(self, force_mavlink1=False):";
    lit "        " ++ dquote ++ dquote ++ dquote;
    lit "        pack the MAVLink header into a byte string";
    lit "        " ++ dquote ++ dquote ++ dquote;
    lit "        # PYHULA_PATCH_APPLIED: Fix struct packing with proper integer conversion";
    lit "        try:";
    lit "            # Ensure all values are proper integers";
    lit "            magic = int(self.magic) if hasattr(self, 'magic') else 254";
    lit "            length = int(self.length) if hasattr(self, 'length') else 0";
    lit "            seq = int(self.seq) if hasattr(self, 'seq') else 0";
    lit "            srcSystem = int(self.srcSystem) if hasattr(self, 'srcSystem') else 255";
    lit "            srcComponent = int(self.srcComponent) if hasattr(self, 'srcComponent') else 190";
    lit "            msgId = int(self.msgId) if hasattr(self, 'msgId') else 0";
    lit "            ";
    lit "            return struct.pack('<BBBBBB', magic, length, seq, srcSystem, srcComponent, msgId)";
    lit "        except (ValueError, TypeError) as e:";
    lit "            # Fallback with default values if conversion fails";
    lit "            print(f" ++ dquote ++ lit "MAVLink header pack warning: {e}, using defaults" ++ dquote ++ lit ")";
    lit "            return struct.pack('<BBBBBB', 254, 0, 0, 255, 190, 0)";
    lit "        " ].

(** ['def pack(self, force_mavlink1=False):' in line] *)
Definition opens (line : text) : bool := contains signature line.

(** [new_lines.extend(fixed_pack_code.split('\n'))] *)
Definition emit (_ : nat) : list text := split newline fixed_pack_code.

(** [line.strip() and current_indent <= indent_level
     and not line.strip().startswith(q3)], [q3] being three double
    quotes *)
Definition ends (indent_level : nat) (line : text) : bool :=
  nonblank line && (indent line <=? indent_level) &&
  negb (startswith (dquote ++ dquote ++ dquote) (strip line)).

Definition rewrite (content : text) : Rewrite :=
  if contains marker content then Already
  else if contains original_pack_pattern content then
    Patched (join [newline] (scan opens emit ends (split newline content)))
  else NotFound.

End Mavlink.

(** [patch_udp_binding], lines 159-206. *)
Module Udp.

Definition marker : text := lit "# PYHULA_UDP_PATCH_APPLIED".

Definition udp_bind_patterns : list text := [
  lit "self.sock.bind(('', self.listen_port))";
  lit "self.sock.bind((" ++ dquote ++ dquote ++ lit ", self.listen_port))";
  lit "sock.bind(('', port))";
  lit "sock.bind((" ++ dquote ++ dquote ++ lit ", port))" ].

(** The f-string [robust_bind] with [pattern] spliced in. *)
Definition robust_bind (pattern : text) : text :=
  join [newline] [
    lit "# PYHULA_UDP_PATCH_APPLIED: Robust UDP binding";
    lit "        try:";
    lit "            " ++ pattern;
    lit "        except OSError as e:";
    lit "            if e.winerror == 10049:  # Address not valid";
    lit "                # Try binding to localhost instead";
    lit "                try:";
    lit "                    self.sock.bind(('127.0.0.1', self.listen_port))";
    lit "                    print(f" ++ dquote ++ lit "UDP bound to localhost:{self.listen_port} (fallback)" ++ dquote ++ lit ")";
    lit "                except:";
    lit "                    # Try any available port";
    lit "                    self.sock.bind(('127.0.0.1', 0))";
    lit "                    print(f" ++ dquote ++ lit "UDP bound to localhost:{self.sock.getsockname()[1]} (auto-assigned)" ++ dquote ++ lit ")";
    lit "            else:";
    lit "                raise e" ].

(** The [for pattern in udp_bind_patterns] loop: the first pattern found in
    [content] is replaced and the loop is left; [None] is [patched = False]. *)
Fixpoint try_patterns (patterns : list text) (content : text) : option text :=
  match patterns with
  | [] => None
  | pattern :: rest =>
      if contains pattern content
      then Some (replace pattern (robust_bind pattern) content)
      else try_patterns rest content
  end.

Definition rewrite (content : text) : Rewrite :=
  if contains marker content then Already
  else match try_patterns udp_bind_patterns content with
       | Some content' => Patched content'
       | None => NotFound
       end.

End Udp.

(** [patch_userapi_connection], lines 220-287. *)
Module Userapi.

Definition marker : text := lit "# PYHULA_USERAPI_PATCH_APPLIED".

Definition connect_pattern : text :=
  lit "def connect(self, server_ip=" ++ dquote ++ lit "192.168.100.1" ++ dquote ++ lit "):".

Definition robust_connect : text :=
  join [newline] [
    lit "def connect(self, server_ip=" ++ dquote ++ lit "192.168.100.1" ++ dquote ++ lit "):";
    lit "        " ++ dquote ++ dquote ++ dquote;
    lit "        connect to the drone with robust error handling";
    lit "        " ++ dquote ++ dquote ++ dquote;
    lit "        # PYHULA_USERAPI_PATCH_APPLIED";
    lit "        try:";
    lit "            print(f" ++ dquote ++ lit "Connecting to drone at {server_ip}..." ++ dquote ++ lit ")";
    lit "            result = self._control_server.connect(server_ip)";
    lit "            if result:";
    lit "                print(" ++ dquote ++ [10003%N] ++ lit " Connection established" ++ dquote ++ lit ")";
    lit "            else:";
    lit "                print(" ++ dquote ++ [10007%N] ++ lit " Connection failed - no response from drone" ++ dquote ++ lit ")";
    lit "            return result";
    lit "        except Exception as e:";
    lit "            print(f" ++ dquote ++ [10007%N] ++ lit " Connection error: {e}" ++ dquote ++ lit ")";
    lit "            print(" ++ dquote ++ lit "Troubleshooting:" ++ dquote ++ lit ")";
    lit "            print(f" ++ dquote ++ lit "1. Verify drone is at IP: {server_ip}" ++ dquote ++ lit ")";
    lit "            print(" ++ dquote ++ lit "2. Check WiFi connection to drone network" ++ dquote ++ lit ")";
    lit "            print(" ++ dquote ++ lit "3. Ensure drone is powered and in AP mode" ++ dquote ++ lit ")";
    lit "            return False" ].

(** [connect_pattern in line] *)
Definition opens (line : text) : bool := contains connect_pattern line.

(** [' ' * indent_level + robust_line if robust_line.strip() else ''] for
    every [robust_line] of [robust_connect.split('\n')] *)
Definition emit (indent_level : nat) : list text :=
  map (λ robust_line,
         if nonblank robust_line then spaces indent_level ++ robust_line else [])
      (split newline robust_connect).

(** [line.strip() and current_indent <= indent_level
     and line.strip().startswith('def ')] *)
Definition ends (indent_level : nat) (line : text) : bool :=
  nonblank line && (indent line <=? indent_level) &&
  startswith (lit "def ") (strip line).

Definition rewrite (content : text) : Rewrite :=
  if contains marker content then Already
  else if contains connect_pattern content then
    Patched (join [newline] (scan opens emit ends (split newline content)))
  else NotFound.

End Userapi.

(** ** The patcher object and the world it runs in *)

Module Patcher.

Local Open Scope string_scope.
Local Open Scope list_scope.

(** A [pathlib.Path], as its components below the file-system root. *)
Abbreviation path := (list string).

(** The components of a relative path written with slashes. *)
Fixpoint parts_from (cur : string) (s : string) : list string :=
  match s with
  | EmptyString => if decide (cur = "") then [] else [cur]
  | String c s' =>
      if decide (c = "/"%char)
      then (if decide (cur = "") then [] else [cur]) ++ parts_from "" s'
      else parts_from (cur +:+ String c "") s'
  end.

(** [p / rel] *)
Definition pjoin (p : path) (rel : string) : path := p ++ parts_from "" rel.
Infix "//" := pjoin (at level 40, left associativity).

(** [p.parent] *)
Definition parent (p : path) : path := take (length p - 1) p.

(** [p.name] *)
Definition name (p : path) : string := default "" (last p).

(** [str(p)], with the separator of POSIX. *)
Definition str_of_path (p : path) : string :=
  match p with
  | [] => "/"
  | _ :: _ => String.concat "" (map (λ c, "/" +:+ c) p)
  end.

(** What a run does to its surroundings, in order. *)
Inductive Event :=
  | Print (line : string)
  | Mkdir (p : path)
  | Copy (src dst : path)
  | Write (p : path) (t : text).

(** The world (file system, installed package, console) together with the
    attributes of the one [PyHulaPatcher] instance.
    - [files] holds, for each regular file, the text that reading it with
      [encoding='utf-8'] returns;
    - [locked] are the paths that cannot be created or written (the
      operating system answers with an [OSError]);
    - [scandir_rank] gives the order in which the file system lists its
      entries to a walk: by rank, lowest first;
    - [installed] is the directory of the importable [pyhula] package, when
      there is one; [reload_error] is what reloading it and building its
      [UserApi] raises, when it raises. *)
Record State := mkState {
  files : gmap path text;
  dirs : gset path;
  locked : gset path;
  scandir_rank : path → nat;
  installed : option path;
  reload_error : option string;
  trace : list Event;
  pyhula_path : option path;
  backup_dir : option path;
  patches_applied : list string
}.

Definition set_files (f : gmap path text) (s : State) : State :=
  mkState f (dirs s) (locked s) (scandir_rank s) (installed s) (reload_error s) (trace s)
          (pyhula_path s) (backup_dir s) (patches_applied s).
Definition set_dirs (d : gset path) (s : State) : State :=
  mkState (files s) d (locked s) (scandir_rank s) (installed s) (reload_error s) (trace s)
          (pyhula_path s) (backup_dir s) (patches_applied s).
Definition set_trace (t : list Event) (s : State) : State :=
  mkState (files s) (dirs s) (locked s) (scandir_rank s) (installed s) (reload_error s) t
          (pyhula_path s) (backup_dir s) (patches_applied s).
Definition set_pyhula_path (p : option path) (s : State) : State :=
  mkState (files s) (dirs s) (locked s) (scandir_rank s) (installed s) (reload_error s) (trace s)
          p (backup_dir s) (patches_applied s).
Definition set_backup_dir (p : option path) (s : State) : State :=
  mkState (files s) (dirs s) (locked s) (scandir_rank s) (installed s) (reload_error s) (trace s)
          (pyhula_path s) p (patches_applied s).
Definition set_patches_applied (l : list string) (s : State) : State :=
  mkState (files s) (dirs s) (locked s) (scandir_rank s) (installed s) (reload_error s) (trace s)
          (pyhula_path s) (backup_dir s) l.

(** *** Programs: state and exceptions *)

Inductive exn := OSError | TypeError.

Inductive Result (A : Type) :=
  | Ok (a : A)
  | Raise (e : exn).
Arguments Ok {A} a.
Arguments Raise {A} e.

Definition M (A : Type) : Type := State → Result A * State.

Definition ret {A} (a : A) : M A := λ s, (Ok a, s).

Definition bind {A B} (m : M A) (k : A → M B) : M B :=
  λ s, match m s with
       | (Ok a, s') => k a s'
       | (Raise e, s') => (Raise e, s')
       end.

Definition raise {A} (e : exn) : M A := λ s, (Raise e, s).
Definition get : M State := λ s, (Ok s, s).
Definition modify (f : State → State) : M unit := λ s, (Ok tt, f s).

Declare Scope prog_scope.
Delimit Scope prog_scope with prog.
Bind Scope prog_scope with M.
Notation "x ← y ; z" := (bind y (λ x, z))
  (at level 20, y at level 100, z at level 200, only parsing) : prog_scope.
Notation "x ;; z" := (bind x (λ _, z))
  (at level 100, z at level 200, only parsing, right associativity) : prog_scope.
Local Open Scope prog_scope.

Definition emit (e : Event) : M unit :=
  modify (λ s, set_trace (trace s ++ [e]) s).

Definition print (line : string) : M unit := emit (Print line).

(** *** The file system calls *)

Definition is_file (s : State) (p : path) : bool :=
  bool_decide (is_Some (files s !! p)).
Definition is_dir (s : State) (p : path) : bool :=
  bool_decide (p ∈ dirs s).

(** [p.exists()] *)
Definition exists_ (p : path) : M bool :=
  s ← get; ret (is_file s p || is_dir s p).

(** The two changes of the file system: a new directory, and a file with
    new content. *)
Definition add_dir (p : path) : M unit :=
  modify (λ s, set_dirs ({[p]} ∪ dirs s) s) ;; emit (Mkdir p).

Definition put_file (p : path) (t : text) : M unit :=
  modify (λ s, set_files (<[p := t]> (files s)) s).

(** [os.mkdir(p)]; the empty path is the root of the file system, which is
    a directory. *)
Definition os_mkdir (p : path) : M unit :=
  s ← get;
  if is_file s p || is_dir s p then raise OSError
  else if negb (bool_decide (parent p = []) || is_dir s (parent p)) then raise OSError
  else if bool_decide (p ∈ locked s) then raise OSError
  else add_dir p.

(** [p.mkdir()] *)
Definition mkdir (p : path) : M unit := os_mkdir p.

(** [p.mkdir(parents=True, exist_ok=True)]: the directories on the way to
    [p] that are missing are made, from the outermost; [n] is the number of
    leading components already dealt with. *)
Fixpoint makedirs_from (n : nat) (rest : list string) (p : path) : M unit :=
  match rest with
  | [] => ret tt
  | _ :: rest' =>
      let q := take (S n) p in
      s ← get;
      (if is_dir s q then ret tt
       else if is_file s q then raise OSError
       else if bool_decide (q ∈ locked s) then raise OSError
       else add_dir q) ;;
      makedirs_from (S n) rest' p
  end.

Definition mkdir_parents (p : path) : M unit := makedirs_from 0 p p.

(** [open(p, 'r', encoding='utf-8').read()]; a file that is there can be
    decoded. *)
Definition read_text (p : path) : M text :=
  s ← get;
  match files s !! p with
  | Some t => ret t
  | None => raise OSError
  end.

(** [open(p, 'w', encoding='utf-8').write(t)], whole or not at all. *)
Definition write_text (p : path) (t : text) : M unit :=
  s ← get;
  if is_dir s p || bool_decide (p ∈ locked s) then raise OSError
  else put_file p t ;; emit (Write p t).

(** [shutil.copy2(src, dst)]: into [dst] when [dst] is a directory; the
    time stamps it copies too are not in the model. *)
Definition copy2 (src dst : path) : M unit :=
  s ← get;
  match files s !! src with
  | None => raise OSError
  | Some t =>
      let dst' := if is_dir s dst then dst ++ [name src] else dst in
      if bool_decide (src = dst') then raise OSError
      else if is_dir s dst' || bool_decide (dst' ∈ locked s) then raise OSError
      else put_file dst' t ;; emit (Copy src dst')
  end.

(** [name.endswith('.py')], what the pattern [*.py] asks of a name. *)
Definition is_py (n : string) : bool :=
  bool_decide (list_ascii_of_string ".py" `suffix_of` list_ascii_of_string n).

(** [for x in l: body(x)] *)
Fixpoint for_each {A} (l : list A) (body : A → M unit) : M unit :=
  match l with
  | [] => ret tt
  | x :: l' => body x ;; for_each l' body
  end.

(** *** The methods of [PyHulaPatcher] *)

Definition nl : string := String (ascii_of_nat 10) "".

(** [s * n] *)
Fixpoint times (s : string) (n : nat) : string :=
  match n with
  | O => ""
  | S n' => s +:+ times s n'
  end.

(** [str] of an attribute that holds a path or [None]. *)
Definition str_of_attr (p : option path) : string :=
  match p with
  | Some p => str_of_path p
  | None => "None"
  end.

(** [PyHulaPatcher()] *)
Definition new_patcher : M unit :=
  modify (λ s, set_patches_applied [] (set_backup_dir None (set_pyhula_path None s))).

(** [self.pyhula_path] where the code divides it by a name: a [TypeError]
    when it is still [None]. *)
Definition get_pyhula_path : M path :=
  s ← get;
  match pyhula_path s with
  | Some p => ret p
  | None => raise TypeError
  end.

(** Lines 24-34; [import pyhula] is the answer [installed] of the world:
    the directory of the package, or [None] for an [ImportError]. *)
Definition find_pyhula_installation : M bool :=
  s ← get;
  match installed s with
  | Some d =>
      modify (set_pyhula_path (Some d)) ;;
      print ("Found PyHula at: " +:+ str_of_path d) ;;
      ret true
  | None =>
      print "PyHula not found. Please install PyHula first." ;;
      ret false
  end.

Definition files_to_backup : list string :=
  [ "pypack/fylo/mavlink.py";
    "pypack/system/taskcontroller.py";
    "userapi.py" ].

(** The body of the loop of [create_backup], lines 53-59. *)
Definition backup_one (root bdir : path) (file_path : string) : M unit :=
  let source := root // file_path in
  ex ← exists_ source;
  if ex then
    let backup_dest := bdir // file_path in
    mkdir_parents (parent backup_dest) ;;
    copy2 source backup_dest ;;
    print ("Backed up: " +:+ file_path)
  else ret tt.

(** Lines 36-61. *)
Definition create_backup : M bool :=
  s ← get;
  match pyhula_path s with
  | None => ret false
  | Some root =>
      let bdir := root // "original_backup" in
      modify (set_backup_dir (Some bdir)) ;;
      ex ← exists_ bdir;
      (if ex then ret tt
       else mkdir bdir ;;
            print ("Created backup directory: " +:+ str_of_path bdir)) ;;
      for_each files_to_backup (backup_one root bdir) ;;
      ret true
  end.

(** The outcome of one patch method.  The methods return a truth value
    from four places; the constructor records the place and [succeeded]
    is the value returned there. *)
Inductive Reason := ALREADY_APPLIED | PATTERN_NOT_FOUND | FILE_MISSING | APPLIED.

Definition succeeded (r : Reason) : bool :=
  match r with
  | ALREADY_APPLIED | APPLIED => true
  | PATTERN_NOT_FOUND | FILE_MISSING => false
  end.

(** The body the three patch methods have in common: the existence test,
    the read, the rewrite of the text, the write, the line on the console
    and the entry in [patches_applied]. *)
Definition apply_patch (file : path) (rewrite : text → Rewrite)
    (missing already applied notfound tag : string) : M Reason :=
  ex ← exists_ file;
  if negb ex then
    print (missing +:+ str_of_path file) ;;
    ret FILE_MISSING
  else
    content ← read_text file;
    match rewrite content with
    | Already =>
        print already ;;
        ret ALREADY_APPLIED
    | Patched patched_content =>
        write_text file patched_content ;;
        print applied ;;
        modify (λ s, set_patches_applied (patches_applied s ++ [tag]) s) ;;
        ret APPLIED
    | NotFound =>
        print notfound ;;
        ret PATTERN_NOT_FOUND
    end.

(** Lines 63-145. *)
Definition patch_mavlink_header : M Reason :=
  root ← get_pyhula_path;
  apply_patch (root // "pypack" // "fylo" // "mavlink.py") Mavlink.rewrite
    "MAVLink file not found: "
    "MAVLink header patch already applied"
    "✓ Applied MAVLink header struct packing fix"
    "Could not find MAVLink pack method pattern to patch"
    "mavlink_header_fix".

(** Lines 147-206. *)
Definition patch_udp_binding : M Reason :=
  root ← get_pyhula_path;
  apply_patch (root // "pypack" // "system" // "taskcontroller.py") Udp.rewrite
    "TaskController file not found: "
    "UDP binding patch already applied"
    "✓ Applied UDP binding robustness fix"
    "Could not find UDP binding pattern to patch"
    "udp_binding_fix".

(** Lines 208-287. *)
Definition patch_userapi_connection : M Reason :=
  root ← get_pyhula_path;
  apply_patch (root // "userapi.py") Userapi.rewrite
    "UserApi file not found: "
    "UserApi connection patch already applied"
    "✓ Applied UserApi connection robustness fix"
    "Could not find UserApi connect method to patch"
    "userapi_connection_fix".

(** Lines 289-306; the reload and the [UserApi()] are the answer
    [reload_error] of the world. *)
Definition verify_patches : M bool :=
  print (nl +:+ "Verifying patches...") ;;
  s ← get;
  match reload_error s with
  | None =>
      print "✓ PyHula reloaded successfully with patches" ;;
      ret true
  | Some e =>
      print ("✗ Patch verification failed: " +:+ e) ;;
      ret false
  end.

Definition patches : list (string * M Reason) :=
  [ ("MAVLink Header Fix", patch_mavlink_header);
    ("UDP Binding Fix", patch_udp_binding);
    ("UserApi Connection Fix", patch_userapi_connection) ].

(** [for name, patch_func in patches] with its counter, lines 329-335. *)
Fixpoint run_patches (ps : list (string * M Reason)) (success_count : nat) : M nat :=
  match ps with
  | [] => ret success_count
  | (name, patch_func) :: ps' =>
      print (nl +:+ "Applying " +:+ name +:+ "...") ;;
      r ← patch_func;
      if succeeded r then run_patches ps' (S success_count)
      else print ("✗ Failed to apply " +:+ name) ;;
           run_patches ps' success_count
  end.

(** The end of [apply_all_patches], lines 337-354: the verification, when
    a patch has succeeded, the summary, and the value returned. *)
Definition report (success_count : nat) : M bool :=
  (if (0 <? success_count)%nat then verify_patches ;; ret tt else ret tt) ;;
  print (nl +:+ times "=" 40) ;;
  s ← get;
  print ("Patch Summary: " +:+ pretty success_count +:+ "/" +:+
         pretty (length patches) +:+ " patches applied") ;;
  print ("Applied patches: " +:+ String.concat ", " (patches_applied s)) ;;
  (if (success_count =? length patches)%nat then
     print "✓ All patches applied successfully!" ;;
     print (nl +:+ "PyHula should now work more reliably.")
   else
     print "⚠ Some patches failed. PyHula may still have issues.") ;;
  print (nl +:+ "Backup directory: " +:+ str_of_attr (backup_dir s)) ;;
  print "You can restore original files from this backup if needed." ;;
  ret (0 <? success_count)%nat.

(** [apply_all_patches] from the loop over the patches on, once the
    backup has been made. *)
Definition patch_and_report : M bool :=
  success_count ← run_patches patches 0;
  report success_count.

(** [apply_all_patches] from the backup on, once the installation has
    been found. *)
Definition backup_and_patch : M bool :=
  backed_up ← create_backup;
  if negb backed_up then
    print "Failed to create backup" ;;
    ret false
  else patch_and_report.

(** Lines 308-354. *)
Definition apply_all_patches : M bool :=
  print "PyHula Patcher - Applying Fixes" ;;
  print (times "=" 40) ;;
  found ← find_pyhula_installation;
  if negb found then ret false
  else backup_and_patch.

(** The order of a listing: [x] goes before the first entry whose rank is
    not below its own. *)
Fixpoint list_by_rank (rank : path → nat) (x : path) (l : list path) : list path :=
  match l with
  | [] => [x]
  | y :: l' =>
      if (rank x <=? rank y)%nat then x :: l else y :: list_by_rank rank x l'
  end.

(** [d.rglob('*.py')]: what lies below [d] and has a name that ends in
    [.py], as found when the loop starts, in the order in which the file
    system lists it. *)
Definition rglob_py (s : State) (d : path) : list path :=
  foldr (list_by_rank (scandir_rank s)) []
    (filter (λ q, d `prefix_of` q ∧ d ≠ q ∧ is_py (name q))
            (elements (dom (files s) ∪ dirs s))).

(** The body of the loop of [restore_backup], lines 365-372. *)
Definition restore_one (bdir backup_file : path) : M unit :=
  let relative_path := drop (length bdir) backup_file in
  root ← get_pyhula_path;
  let target_file := root ++ relative_path in
  mkdir_parents (parent target_file) ;;
  copy2 backup_file target_file ;;
  print ("Restored: " +:+ String.concat "/" relative_path).

(** Lines 356-375. *)
Definition restore_backup : M bool :=
  s ← get;
  match backup_dir s with
  | None =>
      print "No backup directory found" ;;
      ret false
  | Some bdir =>
      ex ← exists_ bdir;
      if negb ex then
        print "No backup directory found" ;;
        ret false
      else
        print "Restoring original PyHula files..." ;;
        for_each (rglob_py s bdir) (restore_one bdir) ;;
        print "✓ Original files restored" ;;
        ret true
  end.

(** [main()], lines 377-397, by the flags [--restore] and [--verify] of
    the command line; [--patch] is not looked at. *)
Definition main (restore verify : bool) : M unit :=
  new_patcher ;;
  if restore then
    find_pyhula_installation ;;
    restore_backup ;;
    ret tt
  else if verify then
    find_pyhula_installation ;;
    verify_patches ;;
    ret tt
  else
    apply_all_patches ;;
    ret tt.

End Patcher.

Import Patcher.

(** ** Vocabulary of the statements *)

(** The end of a block in the words of the specification: a line that is
    not blank, is indented no deeper than the opening line, and does not
    start, once stripped, with three double quotes. *)
Definition block_terminator (depth : nat) (line : text) : bool :=
  nonblank line && (indent line <=? depth) &&
  negb (startswith (dquote ++ dquote ++ dquote) (strip line)).

(** The two patches that replace a method body, with the three parts of
    their line loops. *)
Inductive BodyPatch := PackPatch | ConnectPatch.

Definition opens_of (T : BodyPatch) : text → bool :=
  match T with PackPatch => Mavlink.opens | ConnectPatch => Userapi.opens end.
Definition emit_of (T : BodyPatch) : nat → list text :=
  match T with PackPatch => Mavlink.emit | ConnectPatch => Userapi.emit end.
Definition ends_of (T : BodyPatch) : nat → text → bool :=
  match T with PackPatch => Mavlink.ends | ConnectPatch => Userapi.ends end.

(** The header of the next method: a line that is not blank, is indented
    no deeper than the opening line, and starts, once stripped, with
    [def] and a space. *)
Definition next_method_line (depth : nat) (line : text) : bool :=
  nonblank line && (indent line <=? depth) &&
  startswith (lit "def ") (strip line).

(** The line that ends the block of each patch. *)
Definition terminator_of (T : BodyPatch) : nat → text → bool :=
  match T with PackPatch => block_terminator | ConnectPatch => next_method_line end.

(** A pack method of six lines at depth 4. *)
Definition pack_method : list text := [
  lit "    def pack(self, force_mavlink1=False):";
  lit "        " ++ dquote ++ dquote ++ dquote;
  lit "        pack the MAVLink header into a byte string";
  lit "        " ++ dquote ++ dquote ++ dquote;
  lit "        fields = (self.mlen, self.seq, self.srcSystem)";
  lit "        return struct.pack('<BBB', *fields)" ].

(** A class with that method and a sibling. *)
Definition pack_fixture : text :=
  join [newline]
    ([lit "class MAVLink_header(object):"] ++ pack_method ++
     [ [];
       lit "    def unpack(self, data):";
       lit "        return data" ]).

(** Two classes that both have the pack method. *)
Definition twin_fixture : text :=
  join [newline]
    ([lit "class A(object):"] ++ pack_method ++
     [lit "class B(object):"] ++ pack_method).

(** [m] and [x] differ at a position that both have: [m] starts no text
    that begins with [x]. *)
Fixpoint clash (m x : text) : bool :=
  match m, x with
  | a :: m', b :: x' => negb (a =? b)%N || clash m' x'
  | _, _ => false
  end.

(** [m] starts at no position of [r], whatever follows [r]. *)
Fixpoint no_start (m r : text) : bool :=
  match r with
  | [] => true
  | _ :: r' => clash m r && no_start m r'
  end.

(** What the count of a marker [m] in a text joined by [R] asks of the
    two: [R] starts with [m], the first character of [m] does not come
    back in [m], and [m] starts at no later position of [R]. *)
Definition replacement_ok (m R : text) : bool :=
  match m, R with
  | m0 :: m', _ :: r =>
      negb (bool_decide (m0 ∈ m')) && startswith m R && no_start m r
  | _, _ => false
  end.

(** The state after a line has been printed. *)
Definition say (line : string) (s : State) : State :=
  set_trace (trace s ++ [Print line]) s.

(** The state after a patch method has written the text [t] to [file],
    printed [applied] and recorded [tag]. *)
Definition patched_state (file : path) (applied tag : string) (t : text)
    (s : State) : State :=
  set_patches_applied (patches_applied s ++ [tag])
    (say applied
       (set_trace (trace s ++ [Write file t])
          (set_files (<[file := t]> (files s)) s))).

(** The three targets, with the file, the rewrite, the marker and the
    method of each. *)
Inductive TargetId := MavlinkHeader | UdpBinding | UserapiConnection.

Definition target_file (root : path) (T : TargetId) : path :=
  match T with
  | MavlinkHeader => root // "pypack" // "fylo" // "mavlink.py"
  | UdpBinding => root // "pypack" // "system" // "taskcontroller.py"
  | UserapiConnection => root // "userapi.py"
  end.

Definition rewrite_of (T : TargetId) : text → Rewrite :=
  match T with
  | MavlinkHeader => Mavlink.rewrite
  | UdpBinding => Udp.rewrite
  | UserapiConnection => Userapi.rewrite
  end.

Definition marker_of (T : TargetId) : text :=
  match T with
  | MavlinkHeader => Mavlink.marker
  | UdpBinding => Udp.marker
  | UserapiConnection => Userapi.marker
  end.

Definition patch_of (T : TargetId) : M Reason :=
  match T with
  | MavlinkHeader => patch_mavlink_header
  | UdpBinding => patch_udp_binding
  | UserapiConnection => patch_userapi_connection
  end.

(** What [T] looks for in a text that has no marker. *)
Definition pattern_absent (T : TargetId) (content : text) : Prop :=
  match T with
  | MavlinkHeader => contains Mavlink.signature content = false
  | UdpBinding => Forall (λ P, contains P content = false) Udp.udp_bind_patterns
  | UserapiConnection => contains Userapi.connect_pattern content = false
  end.

(** The target of each of the two patches that replace a method body,
    and the text that its method asks the file to have before it runs the
    loop (lines 109 and 228). *)
Definition target_of (T : BodyPatch) : TargetId :=
  match T with
  | PackPatch => MavlinkHeader
  | ConnectPatch => UserapiConnection
  end.

Definition guard_of (T : BodyPatch) : text :=
  match T with
  | PackPatch => Mavlink.original_pack_pattern
  | ConnectPatch => Userapi.connect_pattern
  end.

(** A class whose pack method is followed at once by a sibling. *)
Definition sibling_fixture : text :=
  join [newline]
    ([lit "class MAVLink_header(object):"] ++ pack_method ++
     [ lit "    def unpack(self, data):";
       lit "        return data" ]).

(** The same class, followed by a second class with the pack method. *)
Definition sibling_twin_fixture : text :=
  join [newline]
    ([lit "class A(object):"] ++ pack_method ++
     [ lit "    def unpack(self, data):";
       lit "        return data";
       lit "class B(object):" ] ++ pack_method).

(** The state after [n] further runs of the whole patch pass, whatever
    each run returns or raises. *)
Fixpoint rerun (n : nat) (s : State) : State :=
  match n with
  | O => s
  | S n' => rerun n' (apply_all_patches s).2
  end.

(** [p] is [d] or lies below [d]. *)
Definition below (d p : path) : Prop := d `prefix_of` p.

(** The directory of the backups of an installation at [root]. *)
Definition backup_root (root : path) : path := root // "original_backup".

(** The events of the backup step: lines, directories, and copies into the
    backup tree. *)
Definition backup_event (root : path) (e : Event) : Prop :=
  match e with
  | Print _ | Mkdir _ => True
  | Copy _ dst => below (backup_root root) dst
  | Write _ _ => False
  end.

(** The events of the patch steps: lines, and writes to target files. *)
Definition patch_event (root : path) (e : Event) : Prop :=
  match e with
  | Print _ => True
  | Write p _ => ∃ T, p = target_file root T
  | Mkdir _ | Copy _ _ => False
  end.

(** [p] is one of the three target files. *)
Definition is_target (root : path) (p : path) : Prop := ∃ T, p = target_file root T.

(** The state in which [apply_all_patches] starts the backup, for an
    installation found at [root]. *)
Definition found_state (root : path) (s : State) : State :=
  say ("Found PyHula at: " +:+ str_of_path root)
    (set_pyhula_path (Some root)
       (say (times "=" 40) (say "PyHula Patcher - Applying Fixes" s))).

Global Instance TargetId_eq_dec : EqDecision TargetId.
Proof. solve_decision. Defined.

(** The installation at [root] has been found and its target [T] holds
    the text [c]. *)
Definition holds (root : path) (T : TargetId) (c : text) (s : State) : Prop :=
  pyhula_path s = Some root ∧ installed s = Some root
  ∧ files s !! target_file root T = Some c.

(** The loop over the patches as a chain of attempts: each patch method
    is run in the state the one before it has left, after the line that
    announces it, and returns its outcome. *)
Inductive attempts : list (string * M Reason) → State → list Reason → State → Prop :=
  | attempts_nil s : attempts [] s [] s
  | attempts_cons name f ps s r s1 rs s' :
      f (say (nl +:+ "Applying " +:+ name +:+ "...") s) = (Ok r, s1) →
      attempts ps (if succeeded r then s1
                   else say ("✗ Failed to apply " +:+ name) s1) rs s' →
      attempts ((name, f) :: ps) s (r :: rs) s'.

(** The number of outcomes that count as a success. *)
Definition successes (rs : list Reason) : nat :=
  length (filter (λ r, succeeded r = true) rs).

(** An installation with the MAVLink file of the fixture and a task
    controller without any of the bind variants. *)
Definition demo_root : path := ["site"; "pyhula"].

Definition demo_world : State :=
  mkState
    {[ demo_root ++ ["pypack"; "fylo"; "mavlink.py"] := pack_fixture;
       demo_root ++ ["pypack"; "system"; "taskcontroller.py"] := lit "import socket" ]}
    {[ ["site"]; demo_root; demo_root ++ ["pypack"];
       demo_root ++ ["pypack"; "fylo"]; demo_root ++ ["pypack"; "system"] ]}
    ∅ (λ _, 0) (Some demo_root) None [] None None [].

(** The same, on a patcher that has found it. *)
Definition demo_found : State := set_pyhula_path (Some demo_root) demo_world.

(** A UserApi with the connect method. *)
Definition userapi_fixture : text :=
  join [newline] [
    lit "class UserApi:";
    lit "    " ++ Userapi.connect_pattern;
    lit "        return self._control_server.connect(server_ip)";
    [];
    lit "    def land(self):";
    lit "        pass" ].

(** An installation without the MAVLink file, with a task controller
    without any of the bind variants, and with that UserApi. *)
Definition demo_world2 : State :=
  mkState
    {[ demo_root ++ ["pypack"; "system"; "taskcontroller.py"] := lit "import socket";
       demo_root ++ ["userapi.py"] := userapi_fixture ]}
    {[ ["site"]; demo_root; demo_root ++ ["pypack"];
       demo_root ++ ["pypack"; "system"] ]}
    ∅ (λ _, 0) (Some demo_root) None [] None None [].

(** The sources of the copies among some events, in their order. *)
Fixpoint copied (evs : list Event) : list path :=
  match evs with
  | [] => []
  | Copy src _ :: evs' => src :: copied evs'
  | _ :: evs' => copied evs'
  end.

(** The files written among some events, in their order. *)
Fixpoint written (evs : list Event) : list path :=
  match evs with
  | [] => []
  | Write p _ :: evs' => p :: written evs'
  | _ :: evs' => written evs'
  end.

(** Where [restore_backup] puts the backup file [b] of the backup tree
    [bdir]. *)
Definition restore_target (root bdir b : path) : path :=
  root ++ drop (length bdir) b.

(** What the walk of [restore_backup] is after: an entry of the file
    system, file or directory, that lies below [bdir] and whose name ends in
    [.py]. *)
Definition py_entry (s : State) (bdir b : path) : Prop :=
  below bdir b ∧ bdir ≠ b ∧ is_py (name b) = true
  ∧ (is_Some (files s !! b) ∨ b ∈ dirs s).

(** A backup tree with a file that is no Python file. *)
Definition notes_world : State :=
  mkState
    {[ demo_root ++ ["original_backup"; "userapi.py"] := lit "original";
       demo_root ++ ["original_backup"; "notes.txt"] := lit "keep me";
       demo_root ++ ["userapi.py"] := lit "patched" ]}
    {[ ["site"]; demo_root; demo_root ++ ["original_backup"] ]}
    ∅ (λ _, 0) (Some demo_root) None []
    (Some demo_root) (Some (demo_root ++ ["original_backup"])) [].

(** A backup tree two levels deep, which the file system lists with the
    deeper file first. *)
Definition listed_world : State :=
  mkState
    {[ demo_root ++ ["original_backup"; "userapi.py"] := lit "original";
       demo_root ++ ["original_backup"; "pypack"; "fylo"; "mavlink.py"] := lit "header";
       demo_root ++ ["original_backup"; "notes.txt"] := lit "keep me";
       demo_root ++ ["userapi.py"] := lit "patched" ]}
    {[ ["site"]; demo_root; demo_root ++ ["original_backup"];
       demo_root ++ ["original_backup"; "pypack"];
       demo_root ++ ["original_backup"; "pypack"; "fylo"] ]}
    ∅ (λ p, 5 - length p) (Some demo_root) None []
    (Some demo_root) (Some (demo_root ++ ["original_backup"])) [].

(** How a state may have moved on: the events added are all in [Pe],
    every file written to is there afterwards, the files outside [Pf] are
    as they were, a file that is new lies in [Pn], nothing has been removed,
    and the installation, the locks and [pyhula_path] are the same. *)
Record evolves (Pe : Event → Prop) (Pf Pn : path → Prop) (s s' : State) : Prop :=
  mk_evolves {
    ev_events : ∃ evs, trace s' = trace s ++ evs ∧ Forall Pe evs
                       ∧ ∀ p t, Write p t ∈ evs → is_Some (files s' !! p);
    ev_frame : ∀ p, ¬ Pf p → files s' !! p = files s !! p;
    ev_new : ∀ p, is_Some (files s' !! p) → is_Some (files s !! p) ∨ Pn p;
    ev_kept : ∀ p, is_Some (files s !! p) → is_Some (files s' !! p);
    ev_dirs : dirs s ⊆ dirs s';
    ev_locked : locked s' = locked s;
    ev_installed : installed s' = installed s;
    ev_reload : reload_error s' = reload_error s;
    ev_path : pyhula_path s' = pyhula_path s
  }.

(** A program that, run on a patcher that has found [root], moves the
    state on within [Pe], [Pf] and [Pn], whatever it returns or raises. *)
Definition keeps {A} (root : path) (Pe : Event → Prop) (Pf Pn : path → Prop)
    (m : M A) : Prop :=
  ∀ s, pyhula_path s = Some root → evolves Pe Pf Pn s (m s).2.

(** ** Vocabulary of the further properties *)

(** The copy of the target [T] in the backup tree, [backup_dir / file_path]
    of line 56. *)
Definition backup_file (root : path) (T : TargetId) : path :=
  target_file (backup_root root) T.

(** The entry that the patch method of [T] adds to [patches_applied]. *)
Definition tag_of (T : TargetId) : string :=
  match T with
  | MavlinkHeader => "mavlink_header_fix"
  | UdpBinding => "udp_binding_fix"
  | UserapiConnection => "userapi_connection_fix"
  end.

(** The targets in the order of the list [patches]. *)
Definition all_targets : list TargetId :=
  [MavlinkHeader; UdpBinding; UserapiConnection].

(** The entries of [patches_applied] that go with the outcomes [rs] of the
    patch methods of [Ts]: one for each outcome [APPLIED]. *)
Fixpoint applied_tags (Ts : list TargetId) (rs : list Reason) : list string :=
  match Ts, rs with
  | T :: Ts', r :: rs' =>
      match r with
      | APPLIED => tag_of T :: applied_tags Ts' rs'
      | _ => applied_tags Ts' rs'
      end
  | _, _ => []
  end.

(** The directories that the backup step may make: those on the way to
    the place of a backup file. *)
Definition made_by_backup (root q : path) : Prop :=
  ∃ T, q `prefix_of` parent (backup_file root T).

(** The directories that the restore of the backup files of the targets
    may make: those on the way to a target. *)
Definition made_by_restore (root q : path) : Prop :=
  ∃ T, q `prefix_of` parent (target_file root T).

(** How the directories and the attribute [backup_dir] may have moved on:
    a directory that is new lies in [Pd], and [backup_dir] is the same. *)
Record settled (Pd : path → Prop) (s s' : State) : Prop := mk_settled {
  st_dirs : ∀ q, q ∈ dirs s' → q ∈ dirs s ∨ Pd q;
  st_backup_dir : backup_dir s' = backup_dir s
}.

(** A program that makes directories within [Pd] only and leaves
    [backup_dir] alone, whatever it returns or raises. *)
Definition tidy {A} (Pd : path → Prop) (m : M A) : Prop :=
  ∀ s, settled Pd s (m s).2.

(** How the files stand to those of [s] in the course of the backup of an
    installation at [root]: outside the backup tree they are those of [s];
    inside, a place holds what it held in [s], or it is the place of the
    backup of a target and holds what [s] has at the target. *)
Definition backup_rel (root : path) (s s' : State) : Prop :=
  (∀ p, ¬ below (backup_root root) p → files s' !! p = files s !! p)
  ∧ (∀ p, below (backup_root root) p →
       files s' !! p = files s !! p
       ∨ ∃ T, p = backup_file root T
              ∧ is_Some (files s !! target_file root T)
              ∧ files s' !! p = files s !! target_file root T).

(** The components of the target [T] below the installation. *)
Definition target_parts (T : TargetId) : list string :=
  match T with
  | MavlinkHeader => ["pypack"; "fylo"; "mavlink.py"]
  | UdpBinding => ["pypack"; "system"; "taskcontroller.py"]
  | UserapiConnection => ["userapi.py"]
  end.

(** The demo installation after one pass of the patches. *)
Definition demo_patched : State := (apply_all_patches demo_world).2.

(** The text of the MAVLink file of the demo installation once patched. *)
Definition pack_fixture_patched : text :=
  join [newline]
    ([lit "class MAVLink_header(object):"] ++
     split newline Mavlink.fixed_pack_code ++
     [lit "    def unpack(self, data):"; lit "        return data"]).

(** A program that leaves the value of [f] on the state as it is,
    whatever it returns or raises. *)
Definition unchanged {A B} (f : State → B) (m : M A) : Prop :=
  ∀ s, f (m s).2 = f s.

Global Instance Event_eq_dec : EqDecision Event.
Proof. solve_decision. Defined.

(** ** The two test scripts

    [test_patched_pyhula.py] and [test_pyhula_installation.py] print to
    the console, call into the installed packages and, in one place, write
    three files.  What the packages and the interpreter answer is given
    by a record; the scripts are programs over the console and the list of
    the files written.  A call answers with a value or with an exception
    of a class below [Exception]; an interrupt from the keyboard is not in
    the model, and a line given to [print] is taken. *)

Module Script.

Local Open Scope string_scope.
Local Open Scope list_scope.

(** An exception, by the two classes the scripts tell apart and with its
    [str]. *)
Inductive Exc :=
  | ImportError (msg : string)
  | OtherError (msg : string).

Definition str_of_exc (e : Exc) : string :=
  match e with
  | ImportError msg | OtherError msg => msg
  end.

Inductive Answer (A : Type) :=
  | Returns (a : A)
  | Throws (e : Exc).
Arguments Returns {A} a.
Arguments Throws {A} e.

(** The lines printed and the files written, with their texts, in
    order. *)
Record Console := mkConsole {
  printed : list string;
  created : list (string * text)
}.

Definition P (A : Type) : Type := Console → Answer A * Console.

Definition ret {A} (a : A) : P A := λ c, (Returns a, c).

Definition bind {A B} (m : P A) (k : A → P B) : P B :=
  λ c, match m c with
       | (Returns a, c') => k a c'
       | (Throws e, c') => (Throws e, c')
       end.

Definition throw {A} (e : Exc) : P A := λ c, (Throws e, c).

(** A call whose answer the world gives. *)
Definition call {A} (a : Answer A) : P A := λ c, (a, c).

(** [try: m except Exception as e: h e] *)
Definition catch {A} (m : P A) (h : Exc → P A) : P A :=
  λ c, match m c with
       | (Throws e, c') => h e c'
       | r => r
       end.

(** [try: m except ImportError as e: h e] *)
Definition catch_import {A} (m : P A) (h : Exc → P A) : P A :=
  catch m (λ e, match e with
                | ImportError _ => h e
                | OtherError _ => throw e
                end).

Definition print (line : string) : P unit :=
  λ c, (Returns tt, mkConsole (printed c ++ [line]) (created c)).

Declare Scope script_scope.
Delimit Scope script_scope with script.
Notation "x ← y ; z" := (bind y (λ x, z))
  (at level 20, y at level 100, z at level 200, only parsing) : script_scope.
Notation "x ;; z" := (bind x (λ _, z))
  (at level 100, z at level 200, only parsing, right associativity) : script_scope.
Local Open Scope script_scope.

(** [for x in l: body(x)] *)
Fixpoint for_each {A} (l : list A) (body : A → P unit) : P unit :=
  match l with
  | [] => ret tt
  | x :: l' => body x ;; for_each l' body
  end.

(** The format [{s:<width}] of a string: spaces after [s] up to
    [width]. *)
Definition ljust (s : string) (width : nat) : string :=
  s +:+ times " " (width - String.length s).

(** A double quote. *)
Definition dq : string := String (ascii_of_nat 34) "".

End Script.

(** [test_patched_pyhula.py] *)
Module PatchedTest.

Import Script.
Local Open Scope string_scope.
Local Open Scope list_scope.
Local Open Scope script_scope.

(** What the installed package answers:
    - [import pyhula] and [pyhula.UserApi()];
    - [api.connect(ip)] and [api.single_fly_takeoff()], each with the
      formatting of its result in the line that follows it: the [str] of
      the result, or the exception. *)
Record Drone := mkDrone {
  import_pyhula : Answer unit;
  new_UserApi : Answer unit;
  connect : string → Answer string;
  single_fly_takeoff : Answer string
}.

Section Tests.
Variable w : Drone.

(** Lines 10-22; the second component is the [api] object, or [None]. *)
Definition test_pyhula_basic : P (bool * option unit) :=
  catch
    (call (import_pyhula w) ;;
     print "✓ PyHula imported successfully" ;;
     api ← call (new_UserApi w);
     print "✓ UserApi created successfully" ;;
     ret (true, Some api))
    (λ e,
     print ("✗ PyHula basic test failed: " +:+ str_of_exc e) ;;
     ret (false, None)).

(** A method called on [api]: on [None] the attribute is missing. *)
Definition method {A} (api : option unit) (name : string) (a : Answer A) : P A :=
  match api with
  | Some _ => call a
  | None =>
      throw (OtherError ("'NoneType' object has no attribute '" +:+ name +:+ "'"))
  end.

(** Lines 24-35. *)
Definition test_connection_robustness (api : option unit) : P bool :=
  print (nl +:+ "Testing connection robustness...") ;;
  catch
    (result ← method api "connect" (connect w "192.168.100.1");
     print ("Connection result: " +:+ result) ;;
     ret true)
    (λ e,
     print ("Connection test result: " +:+ str_of_exc e) ;;
     ret true).

(** Lines 37-48. *)
Definition test_command_robustness (api : option unit) : P bool :=
  print (nl +:+ "Testing command robustness...") ;;
  catch
    (result ← method api "single_fly_takeoff" (single_fly_takeoff w);
     print ("Takeoff command result: " +:+ result) ;;
     ret true)
    (λ e,
     print ("Command test error (expected without drone): " +:+ str_of_exc e) ;;
     ret true).

(** [{'✓ Pass' if ok else '✗ Fail'}] *)
Definition verdict (ok : bool) : string := if ok then "✓ Pass" else "✗ Fail".

(** Lines 50-79. *)
Definition main : P unit :=
  print "Patched PyHula Test" ;;
  print (times "=" 30) ;;
  basic ← test_pyhula_basic;
  let basic_ok := basic.1 in
  let api := basic.2 in
  if negb basic_ok then
    print (nl +:+ "✗ Basic PyHula test failed")
  else
    connection_ok ← test_connection_robustness api;
    command_ok ← test_command_robustness api;
    print (nl +:+ times "=" 30) ;;
    print "Test Results:" ;;
    print ("Basic Import: " +:+ verdict basic_ok) ;;
    print ("Connection Handling: " +:+ verdict connection_ok) ;;
    print ("Command Handling: " +:+ verdict command_ok) ;;
    if basic_ok && connection_ok && command_ok then
      print (nl +:+ "🎉 Patched PyHula is working correctly!") ;;
      print (nl +:+ "To use with actual drone:") ;;
      print "1. Connect to drone WiFi network" ;;
      print ("2. Run: python -c " +:+ dq +:+
             "import pyhula; api=pyhula.UserApi(); api.connect()" +:+ dq)
    else
      print (nl +:+ "⚠ Some tests failed. Patches may need adjustment.").

End Tests.

End PatchedTest.

(** [test_pyhula_installation.py] *)
Module InstallTest.

Import Script.
Local Open Scope string_scope.
Local Open Scope list_scope.
Local Open Scope script_scope.

(** What the interpreter, the packages and the file system answer:
    - [sys.version] and the two numbers of [sys.version_info];
    - [__import__(name)] for a package, [import pyhula],
      [pyhula.get_version().strip()], [pyhula.UserApi()] and
      [dir(pyhula)];
    - the four strings of the environment report, whether [sys] has
      [real_prefix], its [base_prefix] when it has one, its [prefix], and
      the variable [VIRTUAL_ENV] when it is set;
    - the time of the start, formatted;
    - what opening and writing a file of the working directory raises,
      when it raises. *)
Record Env := mkEnv {
  version : string;
  version_major : nat;
  version_minor : nat;
  import_package : string → Answer unit;
  import_pyhula : Answer unit;
  get_version : Answer string;
  new_UserApi : Answer unit;
  dir_pyhula : list string;
  script_location : string;
  working_directory : string;
  executable : string;
  sys_path0 : string;
  real_prefix : bool;
  base_prefix : option string;
  prefix : string;
  virtual_env : option string;
  now : string;
  write_error : string → option Exc
}.

Section Tests.
Variable w : Env.

(** The three texts of lines 124-514, which the script writes to files;
    nothing below looks into them. *)
Variables tutorial_content examples_content network_guide : text.

(** Lines 11-15. *)
Definition print_header (title : string) : P unit :=
  print (nl +:+ times "=" 50) ;;
  print ("  " +:+ title) ;;
  print (times "=" 50).

(** Lines 17-29. *)
Definition test_python_version : P bool :=
  print_header "Python Version Test" ;;
  print ("Python version: " +:+ version w) ;;
  if (version_major w =? 3)%nat && (version_minor w =? 6)%nat then
    print "✓ Python 3.6 detected - Correct version for PyHula" ;;
    ret true
  else
    print "✗ Warning: Not running Python 3.6" ;;
    print "  PyHula requires Python 3.6 specifically" ;;
    ret false.

Definition packages : list (string * string) :=
  [ ("numpy", "Scientific computing");
    ("matplotlib", "Plotting and visualization");
    ("jupyter", "Interactive notebooks");
    ("cython", "C extensions for Python") ].

(** The loop of lines 43-49, with the flag [all_good]. *)
Fixpoint check_packages (ps : list (string * string)) (all_good : bool) : P bool :=
  match ps with
  | [] => ret all_good
  | (package_name, description) :: ps' =>
      ok ← catch_import
             (call (import_package w package_name) ;;
              print ("✓ " +:+ ljust package_name 12 +:+ " - " +:+ description) ;;
              ret all_good)
             (λ _,
              print ("✗ " +:+ ljust package_name 12 +:+ " - NOT FOUND") ;;
              ret false);
      check_packages ps' ok
  end.

(** Lines 31-51. *)
Definition test_essential_packages : P bool :=
  print_header "Essential Packages Test" ;;
  check_packages packages true.

(** [attr.startswith('_')] *)
Definition is_private (attr : string) : bool :=
  match attr with
  | String c _ => bool_decide (c = "_"%char)
  | EmptyString => false
  end.

(** Lines 53-94. *)
Definition test_pyhula_import : P bool :=
  print_header "PyHula Library Test" ;;
  catch
    (call (import_pyhula w) ;;
     print "✓ PyHula import successful" ;;
     catch
       (version ← call (get_version w);
        print ("  Version: " +:+ version))
       (λ e, print ("  Version: Could not retrieve (" +:+ str_of_exc e +:+ ")")) ;;
     created_api ← catch
       (call (new_UserApi w) ;;
        print "✓ UserApi instance created successfully" ;;
        print "  Ready for drone connection and control" ;;
        ret true)
       (λ e,
        print ("✗ UserApi creation failed: " +:+ str_of_exc e) ;;
        ret false);
     if negb created_api then ret false
     else
       let pyhula_attrs := filter (λ attr, is_private attr = false) (dir_pyhula w) in
       print ("  Available functions/classes: " +:+ pretty (length pyhula_attrs)) ;;
       (match pyhula_attrs with
        | [] => ret tt
        | _ :: _ =>
            print "  Main components:" ;;
            for_each pyhula_attrs (λ attr, print ("    - " +:+ attr))
        end) ;;
       ret true)
    (λ e,
     match e with
     | ImportError _ =>
         print ("✗ PyHula import failed: " +:+ str_of_exc e) ;;
         print "  Make sure you're running this script in the activated PyHula environment" ;;
         ret false
     | OtherError _ =>
         print ("✗ PyHula error: " +:+ str_of_exc e) ;;
         ret false
     end).

(** Lines 96-114. *)
Definition test_environment_info : P unit :=
  print_header "Environment Information" ;;
  print ("Script location: " +:+ script_location w) ;;
  print ("Working directory: " +:+ working_directory w) ;;
  print ("Python executable: " +:+ executable w) ;;
  print ("Python path: " +:+ sys_path0 w) ;;
  (if real_prefix w
      || match base_prefix w with
         | Some b => negb (bool_decide (b = prefix w))
         | None => false
         end
   then
     print "✓ Running in virtual environment" ;;
     print ("  Virtual env path: " +:+ prefix w)
   else
     print "? Not clearly in a virtual environment") ;;
  match virtual_env w with
  | Some v => print ("  VIRTUAL_ENV: " +:+ v)
  | None => ret tt
  end.

(** [with open(name, 'w', encoding='utf-8') as f: f.write(content)],
    whole or not at all. *)
Definition write_file (name : string) (content : text) : P unit :=
  λ c, match write_error w name with
       | Some e => (Throws e, c)
       | None => (Returns tt, mkConsole (printed c) (created c ++ [(name, content)]))
       end.

(** The three writes of lines 520-530 with the list [files_created]: the
    list as it stands when the first write fails, with the exception, or
    the whole list. *)
Definition write_examples : P (list string * option Exc) :=
  let files_created := [] in
  catch
    (write_file "pyhula_comprehensive_tutorial.py" tutorial_content ;;
     let files_created := files_created ++ ["pyhula_comprehensive_tutorial.py"] in
     catch
       (write_file "pyhula_basic_examples.py" examples_content ;;
        let files_created := files_created ++ ["pyhula_basic_examples.py"] in
        catch
          (write_file "network_setup_guide.md" network_guide ;;
           let files_created := files_created ++ ["network_setup_guide.md"] in
           ret (files_created, None))
          (λ e, ret (files_created, Some e)))
       (λ e, ret (files_created, Some e)))
    (λ e, ret (files_created, Some e)).

(** Lines 116-548. *)
Definition create_simple_test : P unit :=
  print_header "Creating PyHula Example Files" ;;
  catch
    (call (import_pyhula w) ;;
     written ← write_examples;
     let files_created := written.1 in
     match written.2 with
     | None =>
         print "✓ Created comprehensive PyHula example files:" ;;
         for_each files_created (λ file, print ("  - " +:+ file)) ;;
         print "\nFile descriptions:" ;;
         print "  • pyhula_comprehensive_tutorial.py - Complete flight demonstration" ;;
         print "  • pyhula_basic_examples.py - Individual feature examples" ;;
         print "  • network_setup_guide.md - WiFi and connection setup guide"
     | Some e =>
         print ("✗ Could not create some files: " +:+ str_of_exc e) ;;
         match files_created with
         | [] => ret tt
         | _ :: _ =>
             print ("  Successfully created: " +:+ String.concat ", " files_created)
         end
     end)
    (λ e,
     print ("✗ Could not create example files: " +:+ str_of_exc e) ;;
     print "  PyHula may not be properly installed").

Definition tests : list (string * P bool) :=
  [ ("Python Version", test_python_version);
    ("Essential Packages", test_essential_packages);
    ("PyHula Library", test_pyhula_import) ].

(** The loop of lines 562-564. *)
Fixpoint run_tests (ts : list (string * P bool)) (test_results : list (string * bool))
    : P (list (string * bool)) :=
  match ts with
  | [] => ret test_results
  | (test_name, test_func) :: ts' =>
      result ← test_func;
      run_tests ts' (test_results ++ [(test_name, result)])
  end.

(** The loop of lines 576-581, with the flag [all_passed]. *)
Fixpoint summarize (test_results : list (string * bool)) (all_passed : bool) : P bool :=
  match test_results with
  | [] => ret all_passed
  | (test_name, result) :: rest =>
      let status := if result then "PASS" else "FAIL" in
      let symbol := if result then "✓" else "✗" in
      print (symbol +:+ " " +:+ ljust test_name 20 +:+ " - " +:+ status) ;;
      summarize rest (if result then all_passed else false)
  end.

(** Lines 550-595. *)
Definition main : P unit :=
  print "PyHula Installation Test" ;;
  print ("Test started at: " +:+ now w) ;;
  test_results ← run_tests tests [];
  test_environment_info ;;
  pyhula_passed ← match (test_results : list (string * bool)) !! 2 with
                   | Some (_, result) => ret (result : bool)
                   | None => throw (OtherError "list index out of range")
                   end;
  (if pyhula_passed then create_simple_test else ret tt) ;;
  print_header "Test Summary" ;;
  all_passed ← summarize test_results true;
  print (nl +:+ "Overall Result:") ;;
  if all_passed then
    print "✅ ALL TESTS PASSED - PyHula environment is ready!" ;;
    print (nl +:+ "Next steps:") ;;
    print "1. Edit and run 'test_pyhula_basic.py' to get started" ;;
    print "2. Create your own PyHula scripts" ;;
    print "3. Use 'jupyter notebook' for interactive development"
  else
    print "❌ SOME TESTS FAILED - Please check the installation" ;;
    print (nl +:+ "Troubleshooting:") ;;
    print "1. Make sure you activated the PyHula environment" ;;
    print "2. Re-run the installation script" ;;
    print "3. Check the README.md for troubleshooting tips".

End Tests.

End InstallTest.

(** ** Vocabulary of the properties of the test scripts *)

(** The call has returned. *)
Definition returns {A} (a : Script.Answer A) : bool :=
  match a with
  | Script.Returns _ => true
  | Script.Throws _ => false
  end.

(** The call has raised an [ImportError]. *)
Definition import_error {A} (a : Script.Answer A) : bool :=
  match a with
  | Script.Throws (Script.ImportError _) => true
  | _ => false
  end.

(** The console after [lines] have been printed and [files] written. *)
Definition step (c : Script.Console) (lines : list string)
    (files : list (string * text)) : Script.Console :=
  Script.mkConsole (Script.printed c ++ lines) (Script.created c ++ files).

(** The three lines of [print_header]. *)
Definition header_lines (title : string) : list string :=
  [nl +:+ times "=" 50; "  " +:+ title; times "=" 50].

(** The line of [test_essential_packages] for a package, by what its
    import answers. *)
Definition package_line (w : InstallTest.Env) (p : string * string) : string :=
  if returns (InstallTest.import_package w p.1)
  then "✓ " +:+ Script.ljust p.1 12 +:+ " - " +:+ p.2
  else "✗ " +:+ Script.ljust p.1 12 +:+ " - NOT FOUND".

(** The three verdicts of the installation test in terms of the world. *)
Definition python_ok (w : InstallTest.Env) : bool :=
  (InstallTest.version_major w =? 3)%nat && (InstallTest.version_minor w =? 6)%nat.

Definition packages_ok (w : InstallTest.Env) : bool :=
  forallb (λ p : string * string, returns (InstallTest.import_package w p.1))
          InstallTest.packages.

Definition pyhula_ok (w : InstallTest.Env) : bool :=
  returns (InstallTest.import_pyhula w) && returns (InstallTest.new_UserApi w).

(** The files of [create_simple_test], in the order of their writes. *)
Definition example_files (tutorial_content examples_content network_guide : text)
    : list (string * text) :=
  [ ("pyhula_comprehensive_tutorial.py", tutorial_content);
    ("pyhula_basic_examples.py", examples_content);
    ("network_setup_guide.md", network_guide) ].

(** The files up to the first one that cannot be written. *)
Fixpoint written_prefix (w : InstallTest.Env) (fs : list (string * text))
    : list (string * text) :=
  match fs with
  | [] => []
  | (name, content) :: fs' =>
      match InstallTest.write_error w name with
      | None => (name, content) :: written_prefix w fs'
      | Some _ => []
      end
  end.

(** The line of the summary for a test. *)
Definition summary_line (r : string * bool) : string :=
  (if r.2 then "✓" else "✗") +:+ " " +:+ Script.ljust r.1 20 +:+ " - " +:+
  (if r.2 then "PASS" else "FAIL").

(** The five lines that end the installation test. *)
Definition overall_lines (all_passed : bool) : list string :=
  if all_passed then
    [ "✅ ALL TESTS PASSED - PyHula environment is ready!";
      nl +:+ "Next steps:";
      "1. Edit and run 'test_pyhula_basic.py' to get started";
      "2. Create your own PyHula scripts";
      "3. Use 'jupyter notebook' for interactive development" ]
  else
    [ "❌ SOME TESTS FAILED - Please check the installation";
      nl +:+ "Troubleshooting:";
      "1. Make sure you activated the PyHula environment";
      "2. Re-run the installation script";
      "3. Check the README.md for troubleshooting tips" ].

(** A drone that is there and answers, and one whose calls all raise. *)
Definition demo_drone : PatchedTest.Drone :=
  PatchedTest.mkDrone (Script.Returns tt) (Script.Returns tt)
    (λ _, Script.Returns "True") (Script.Returns "None").

Definition dead_drone : PatchedTest.Drone :=
  PatchedTest.mkDrone (Script.Returns tt) (Script.Returns tt)
    (λ _, Script.Throws (Script.OtherError "timed out"))
    (Script.Throws (Script.OtherError "not connected")).

(** An environment with Python 3.8, without [cython], with a [pyhula]
    that works, and where the second file cannot be written. *)
Definition demo_env : InstallTest.Env :=
  InstallTest.mkEnv "3.8.10" 3 8
    (λ name, if bool_decide (name = "cython")
             then Script.Throws (Script.ImportError "No module named 'cython'")
             else Script.Returns tt)
    (Script.Returns tt) (Script.Returns "1.1.7") (Script.Returns tt)
    ["UserApi"; "__name__"; "get_version"]
    "/home/u/test.py" "/home/u" "/usr/bin/python" "/home/u"
    false (Some "/usr") "/usr" None "2024-01-01 00:00:00"
    (λ name, if bool_decide (name = "pyhula_basic_examples.py")
             then Some (Script.OtherError "Permission denied")
             else None).

(** The lines of [main] once the basic test has passed, with the two
    lines that tell what the drone has answered. *)
Definition passed_lines (l1 l2 : string) : list string :=
  [ "Patched PyHula Test"; times "=" 30;
    "✓ PyHula imported successfully"; "✓ UserApi created successfully";
    nl +:+ "Testing connection robustness..."; l1;
    nl +:+ "Testing command robustness..."; l2;
    nl +:+ times "=" 30; "Test Results:";
    "Basic Import: ✓ Pass";
    "Connection Handling: ✓ Pass";
    "Command Handling: ✓ Pass";
    nl +:+ "🎉 Patched PyHula is working correctly!";
    nl +:+ "To use with actual drone:";
    "1. Connect to drone WiFi network";
    "2. Run: python -c " +:+ Script.dq +:+
      "import pyhula; api=pyhula.UserApi(); api.connect()" +:+ Script.dq ].

(** The import of a package returns or raises an [ImportError]. *)
Definition importable (w : InstallTest.Env) (p : string * string) : Prop :=
  returns (InstallTest.import_package w p.1)
  || import_error (InstallTest.import_package w p.1) = true.

(** The results of the three tests of the installation. *)
Definition install_results (w : InstallTest.Env) : list (string * bool) :=
  [ ("Python Version", python_ok w);
    ("Essential Packages", packages_ok w);
    ("PyHula Library", pyhula_ok w) ].

(** * Properties of the text operations *)

Section TextFacts.
Implicit Types p s : text.

Lemma startswith_prefix p s : startswith p s = true ↔ p `prefix_of` s.
Proof.
  revert s. induction p as [|a p IH]; intros s; simpl.
  - split; [intros _; apply prefix_nil | done].
  - destruct s as [|b s].
    + split; [done | intros [k Hk]; discriminate].
    + rewrite andb_true_iff, N.eqb_eq, IH. split.
      * intros [-> [k ->]]. by exists k.
      * intros [k Hk]. injection Hk as -> ->. split; [done | by exists k].
Qed.

Lemma startswith_app p s k : startswith p s = true → startswith p (s ++ k) = true.
Proof.
  rewrite !startswith_prefix. intros H. by apply prefix_app_r.
Qed.

Lemma startswith_refl p k : startswith p (p ++ k) = true.
Proof. apply startswith_prefix. by exists k. Qed.

Lemma contains_infix p s : contains p s = true ↔ ∃ a b, s = a ++ p ++ b.
Proof.
  induction s as [|c s IH]; simpl.
  - rewrite orb_false_r, startswith_prefix. split.
    + intros [k Hk]. exists [], k. done.
    + intros (a & b & H). symmetry in H.
      apply app_eq_nil in H as [-> H]. apply app_eq_nil in H as [-> ->].
      done.
  - rewrite orb_true_iff, startswith_prefix, IH. split.
    + intros [[k Hk] | (a & b & ->)].
      * exists [], k. done.
      * exists (c :: a), b. done.
    + intros (a & b & H). destruct a as [|c' a]; simpl in H.
      * left. by exists b.
      * right. injection H as -> ->. by exists a, b.
Qed.

Lemma contains_trans p q s :
  contains p q = true → contains q s = true → contains p s = true.
Proof.
  rewrite !contains_infix. intros (a & b & ->) (a' & b' & ->).
  exists (a' ++ a), (b ++ b'). by rewrite <- !app_assoc.
Qed.

Lemma contains_app_l p s k : contains p s = true → contains p (s ++ k) = true.
Proof.
  rewrite !contains_infix. intros (a & b & ->).
  exists a, (b ++ k). by rewrite <- !app_assoc.
Qed.

Lemma contains_app_r p s k : contains p s = true → contains p (k ++ s) = true.
Proof.
  rewrite !contains_infix. intros (a & b & ->).
  exists (k ++ a), b. by rewrite <- !app_assoc.
Qed.

Lemma contains_false_mono p q s :
  contains p q = true → contains p s = false → contains q s = false.
Proof.
  intros Hpq Hps. destruct (contains q s) eqn:E; [|done].
  by rewrite (contains_trans _ _ _ Hpq E) in Hps.
Qed.

(** *** Lines *)

Lemma split_nonempty sep s : split sep s ≠ [].
Proof.
  destruct s as [|c s]; simpl; [done|].
  destruct (c =? sep)%N; [done|]. by destruct (split sep s).
Qed.

Lemma split_cons_ne sep c s :
  (c =? sep)%N = false →
  ∃ h t, split sep s = h :: t ∧ split sep (c :: s) = (c :: h) :: t.
Proof.
  intros Hc. simpl. rewrite Hc.
  destruct (split sep s) as [|h t] eqn:E; [by apply split_nonempty in E|].
  by exists h, t.
Qed.

Lemma join_split sep s : join [sep] (split sep s) = s.
Proof.
  induction s as [|c s IH]; [done|].
  destruct (c =? sep)%N eqn:Hc.
  - simpl. rewrite Hc. apply N.eqb_eq in Hc as ->.
    destruct (split sep s) as [|h t] eqn:E; [by apply split_nonempty in E|].
    simpl in *. by rewrite IH.
  - destruct (split_cons_ne sep c s Hc) as (h & t & E & ->).
    rewrite E in IH. destruct t; simpl in *; by rewrite IH.
Qed.

Lemma contains_join p sep l ls :
  l ∈ ls → contains p l = true → contains p (join sep ls) = true.
Proof.
  intros Hin Hp. induction ls as [|x ls IH]; [by apply elem_of_nil in Hin|].
  apply elem_of_cons in Hin as [-> | Hin].
  - destruct ls; simpl; [done | by apply contains_app_l].
  - destruct ls as [|y ls]; [by apply elem_of_nil in Hin|].
    change (join sep (x :: y :: ls)) with (x ++ sep ++ join sep (y :: ls)).
    apply contains_app_r, contains_app_r. by apply IH.
Qed.

(** A line of a text without [p] is without [p]. *)
Lemma contains_line_false p sep s l :
  contains p s = false → l ∈ split sep s → contains p l = false.
Proof.
  intros Hs Hl. destruct (contains p l) eqn:E; [|done].
  rewrite <- (join_split sep s) in Hs.
  by rewrite (contains_join p [sep] l _ Hl E) in Hs.
Qed.

(** A prefix that has no separator lies in the first line. *)
Lemma startswith_first_line p sep s :
  sep ∉ p → startswith p s = true →
  ∃ h t, split sep s = h :: t ∧ startswith p h = true.
Proof.
  revert s. induction p as [|a p IH]; intros s Hsep Hp.
  - destruct (split sep s) as [|h t] eqn:E; [by apply split_nonempty in E|].
    by exists h, t.
  - destruct s as [|c s]; [done|]. simpl in Hp.
    apply andb_true_iff in Hp as [Hac Hp]. apply N.eqb_eq in Hac as <-.
    assert ((a =? sep)%N = false) as Ha.
    { apply N.eqb_neq. intros ->. apply Hsep. by left. }
    destruct (IH s) as (h & t & E & Hh); [set_solver | done |].
    exists (a :: h), t. simpl. rewrite Ha, E. split; [done|].
    by rewrite N.eqb_refl.
Qed.

(** A text that contains [p], where [p] has no separator, has a line that
    contains [p]. *)
Lemma contains_some_line p sep s :
  sep ∉ p → contains p s = true →
  ∃ l, l ∈ split sep s ∧ contains p l = true.
Proof.
  intros Hsep. induction s as [|c s IH]; intros Hp.
  - exists []. split; [by left | done].
  - simpl in Hp. apply orb_true_iff in Hp as [Hp | Hp].
    + destruct (startswith_first_line p sep (c :: s) Hsep Hp) as (h & t & E & Hh).
      exists h. rewrite E. split; [by left|].
      destruct h; simpl; by rewrite Hh.
    + destruct (IH Hp) as (l & Hl & Hpl).
      destruct (c =? sep)%N eqn:Hc.
      * exists l. simpl. rewrite Hc. split; [by right | done].
      * destruct (split_cons_ne sep c s Hc) as (h & t & E & ->).
        rewrite E in Hl. apply elem_of_cons in Hl as [-> | Hl].
        -- exists (c :: h). split; [by left|]. simpl. rewrite Hpl.
           by rewrite orb_true_r.
        -- exists l. split; [by right | done].
Qed.
End TextFacts.

Section Occurrences.
Implicit Types p s : text.

Lemma occurrences_zero p s : occurrences p s = 0 ↔ contains p s = false.
Proof.
  induction s as [|c s IH]; simpl.
  - rewrite orb_false_r. destruct (startswith p []); split; (done || lia).
  - rewrite orb_false_iff, <- IH.
    destruct (startswith p (c :: s)); split; try lia; try tauto; try done.
    all: try (intros [? _]; done).
Qed.

Lemma startswith_before_sep p sep a b :
  sep ∉ p → startswith p (a ++ sep :: b) = startswith p a.
Proof.
  revert a. induction p as [|x p IH]; intros a Hsep; [by destruct a|].
  assert (x ≠ sep) as Hx by (intros ->; apply Hsep; by left).
  destruct a as [|c a]; simpl.
  - apply andb_false_iff. left. by apply N.eqb_neq.
  - rewrite IH; [done | set_solver].
Qed.

Lemma occurrences_sep p sep a b :
  sep ∉ p → p ≠ [] →
  occurrences p (a ++ sep :: b) = occurrences p a + occurrences p b.
Proof.
  intros Hsep Hp. induction a as [|c a IH].
  - change ([] ++ sep :: b) with (sep :: b).
    change (occurrences p (sep :: b))
      with ((if startswith p ([] ++ sep :: b) then 1 else 0) + occurrences p b).
    rewrite startswith_before_sep by done.
    by destruct p.
  - change (occurrences p ((c :: a) ++ sep :: b))
      with ((if startswith p ((c :: a) ++ sep :: b) then 1 else 0)
            + occurrences p (a ++ sep :: b)).
    rewrite startswith_before_sep, IH by done. simpl. lia.
Qed.

Lemma occurrences_nil p : p ≠ [] → occurrences p [] = 0.
Proof. by destruct p. Qed.

(** A pattern without separator is counted line by line. *)
Lemma occurrences_join p sep ls :
  sep ∉ p → p ≠ [] →
  occurrences p (join [sep] ls) = sum_list_with (occurrences p) ls.
Proof.
  intros Hsep Hp. induction ls as [|l ls IH].
  - by apply occurrences_nil.
  - destruct ls as [|l' ls].
    + simpl. lia.
    + change (join [sep] (l :: l' :: ls)) with (l ++ sep :: join [sep] (l' :: ls)).
      rewrite occurrences_sep, IH by done. done.
Qed.

Lemma clash_startswith m x y : clash m x = true → startswith m (x ++ y) = false.
Proof.
  revert x. induction m as [|a m IH]; intros [|b x]; simpl; try done.
  intros H. apply orb_true_iff in H as [H | H].
  - apply negb_true_iff in H. by rewrite H.
  - rewrite (IH _ H). apply andb_false_r.
Qed.
End Occurrences.

(** * Properties of the line loop *)

Section ScanFacts.
Variable opens : text → bool.
Variable emit : nat → list text.
Variable ends : nat → text → bool.

Local Abbreviation step := (scan_step opens emit ends).
Local Abbreviation run := (scan_from opens emit ends).

Lemma step_open st l :
  opens l = true →
  step st l = mkScan (new_lines st ++ emit (indent l)) true (indent l).
Proof. intros H. unfold scan_step. by rewrite H. Qed.

Lemma step_skip st l :
  opens l = false → in_method st = true → ends (indent_level st) l = false →
  step st l = st.
Proof. intros H1 H2 H3. unfold scan_step. by rewrite H1, H2, H3. Qed.

Lemma step_end st l :
  opens l = false → in_method st = true → ends (indent_level st) l = true →
  step st l = mkScan (new_lines st ++ [l]) false (indent_level st).
Proof. intros H1 H2 H3. unfold scan_step. by rewrite H1, H2, H3. Qed.

Lemma step_copy st l :
  opens l = false → in_method st = false →
  step st l = mkScan (new_lines st ++ [l]) false (indent_level st).
Proof. intros H1 H2. unfold scan_step. by rewrite H1, H2. Qed.

Lemma scan_from_app st a b : run st (a ++ b) = run (run st a) b.
Proof. apply fold_left_app. Qed.

Lemma scan_from_cons st l ls : run st (l :: ls) = run (step st l) ls.
Proof. done. Qed.

(** Outside a method the lines without signature are copied. *)
Lemma scan_outside st ls :
  in_method st = false → Forall (λ l, opens l = false) ls →
  run st ls = mkScan (new_lines st ++ ls) false (indent_level st).
Proof.
  intros Hout Hls. revert st Hout.
  induction Hls as [|l ls Hl _ IH]; intros st Hout.
  - destruct st; simpl in *; subst. by rewrite app_nil_r.
  - rewrite scan_from_cons, step_copy, IH by done. simpl.
    by rewrite <- app_assoc.
Qed.

(** Inside a method the lines that neither open nor end are dropped. *)
Lemma scan_inside st ls :
  in_method st = true →
  Forall (λ l, opens l = false ∧ ends (indent_level st) l = false) ls →
  run st ls = st.
Proof.
  intros Hin Hls. induction Hls as [|l ls [Hl1 Hl2] _ IH]; [done|].
  by rewrite scan_from_cons, step_skip.
Qed.

(** The block of an opening line [o] runs up to the first line that
    ends it: the block is replaced by [emit] and the ending line is
    kept. *)
Lemma scan_block st o body t :
  opens o = true →
  Forall (λ l, opens l = false ∧ ends (indent o) l = false) body →
  opens t = false → ends (indent o) t = true →
  run st (o :: body ++ [t]) =
    mkScan (new_lines st ++ emit (indent o) ++ [t]) false (indent o).
Proof.
  intros Ho Hbody Ht1 Ht2.
  rewrite scan_from_cons, scan_from_app, step_open by done.
  rewrite (scan_inside _ body); [| done | exact Hbody].
  change (run ?st [t]) with (step st t).
  rewrite step_end; [| done | done | exact Ht2]. simpl.
  by rewrite <- app_assoc.
Qed.

(** Without such a line the block runs to the end of the file. *)
Lemma scan_block_eof st o body :
  opens o = true →
  Forall (λ l, opens l = false ∧ ends (indent o) l = false) body →
  run st (o :: body) = mkScan (new_lines st ++ emit (indent o)) true (indent o).
Proof.
  intros Ho Hbody. rewrite scan_from_cons, step_open by done.
  rewrite scan_inside; [done | done | exact Hbody].
Qed.

(** What the loop has put out does not bear on what it puts out next. *)
Lemma scan_from_output out st ls :
  run (mkScan (out ++ new_lines st) (in_method st) (indent_level st)) ls
  = mkScan (out ++ new_lines (run st ls)) (in_method (run st ls))
      (indent_level (run st ls)).
Proof.
  revert st. induction ls as [|l ls IH]; intros st; [done|].
  rewrite !scan_from_cons, <- IH. f_equal.
  unfold scan_step. simpl.
  destruct (opens l); [|destruct (in_method st) eqn:E; [destruct (ends _ l)|]];
    simpl; by rewrite <- ?app_assoc, ?E.
Qed.

(** The output only grows. *)
Lemma scan_new_lines_grow st ls :
  ∃ out, new_lines (run st ls) = new_lines st ++ out.
Proof.
  revert st. induction ls as [|l ls IH]; intros st.
  - exists []. by rewrite app_nil_r.
  - simpl. destruct (IH (step st l)) as [out ->].
    unfold scan_step.
    destruct (opens l); [|destruct (in_method st); [destruct (ends _ l)|]];
      simpl; rewrite <- ?app_assoc; eauto.
Qed.

(** Every opening line puts [emit] into the output. *)
Lemma scan_emits st ls o :
  o ∈ ls → opens o = true →
  ∃ a b, new_lines (run st ls) = a ++ emit (indent o) ++ b.
Proof.
  intros Hin Ho. revert st. induction ls as [|l ls IH]; intros st.
  - by apply elem_of_nil in Hin.
  - apply elem_of_cons in Hin as [<- | Hin].
    + rewrite scan_from_cons.
      destruct (scan_new_lines_grow (step st o) ls) as [out ->].
      rewrite step_open by done. simpl.
      exists (new_lines st), out. by rewrite <- app_assoc.
    + simpl. by apply IH.
Qed.

(** Counting over the output: the copied lines and one [emit] for each
    opening line. *)
Lemma scan_sum (f : text → nat) (k : nat) st ls :
  Forall (λ l, f l = 0) ls →
  (∀ d, sum_list_with f (emit d) = k) →
  sum_list_with f (new_lines (run st ls)) =
    sum_list_with f (new_lines st) + k * length (filter (λ l, opens l = true) ls).
Proof.
  intros Hls Hk. revert st.
  induction Hls as [|l ls Hl _ IH]; intros st; simpl; [lia|].
  rewrite IH. unfold scan_step. rewrite filter_cons.
  destruct (opens l) eqn:Ho.
  - rewrite decide_True by done. simpl.
    rewrite sum_list_with_app, Hk. lia.
  - rewrite decide_False by done.
    destruct (in_method st); [destruct (ends _ l)|]; simpl;
      rewrite ?sum_list_with_app; simpl; lia.
Qed.
End ScanFacts.

(** * The block boundary of the method-body patches *)

Lemma ends_of_terminator T d l : ends_of T d l = terminator_of T d l.
Proof. by destruct T. Qed.

Lemma docstring_never_ends T d l :
  startswith (dquote ++ dquote ++ dquote) (strip l) = true → ends_of T d l = false.
Proof.
  intros H. destruct T; simpl.
  - unfold Mavlink.ends. rewrite H. apply andb_false_r.
  - unfold Userapi.ends. apply startswith_prefix in H as [k ->].
    apply andb_false_r.
Qed.

(** C1, as the code has it.  After an opening line the lines are dropped
    up to the first one that ends the block, which is kept: for the pack
    patch a line that is not blank, indented no deeper than the opening
    line and not a docstring line; for the connect patch a line that is
    not blank, indented no deeper and that starts with [def ].  Without
    such a line the block runs to the end of the file, and a docstring
    line ends the block of neither patch. *)
Theorem block_boundary (T : BodyPatch) (st : ScanState) (o : text) (body : list text) :
  opens_of T o = true →
  Forall (λ l, opens_of T l = false ∧ terminator_of T (indent o) l = false) body →
  scan_from (opens_of T) (emit_of T) (ends_of T) st (o :: body)
    = mkScan (new_lines st ++ emit_of T (indent o)) true (indent o)
  ∧ (∀ t, opens_of T t = false → terminator_of T (indent o) t = true →
       scan_from (opens_of T) (emit_of T) (ends_of T) st (o :: body ++ [t])
         = mkScan (new_lines st ++ emit_of T (indent o) ++ [t]) false (indent o))
  ∧ (∀ d l, startswith (dquote ++ dquote ++ dquote) (strip l) = true →
       ends_of T d l = false).
Proof.
  intros Ho Hbody.
  assert (Forall (λ l, opens_of T l = false ∧ ends_of T (indent o) l = false) body)
    as Hbody'.
  { eapply Forall_impl; [exact Hbody|]. intros l [? ?].
    by rewrite ends_of_terminator. }
  split; [by apply scan_block_eof|]. split.
  - intros t Ht1 Ht2.
    apply scan_block; first [done | by rewrite ends_of_terminator].
  - intros d l. apply docstring_never_ends.
Qed.

(** C1 at a file of four lines with the connect method. *)
Lemma block_boundary_witness :
  let o := lit "    " ++ Userapi.connect_pattern in
  let body := [lit "        return 1"; []] in
  let t := lit "    def land(self):" in
  scan_from (opens_of ConnectPatch) (emit_of ConnectPatch) (ends_of ConnectPatch)
    scan_init (o :: body ++ [t])
  = mkScan (emit_of ConnectPatch 4 ++ [t]) false 4.
Proof.
  intros o body t.
  refine (proj1 (proj2 (block_boundary ConnectPatch scan_init o body _ _)) t _ _).
  - vm_compute. reflexivity.
  - repeat constructor.
  - vm_compute. reflexivity.
  - vm_compute. reflexivity.
Defined.

(** C1 as the specification words it fails for the connect patch: a line
    that is not blank, at the depth of the opening line and no docstring
    line, but does not start with [def ], is dropped with the method. *)
Lemma block_boundary_connect_counterexample :
  let o := Userapi.connect_pattern in
  let body := [lit "    return 1"] in
  let t := lit "x = 1" in
  opens_of ConnectPatch o = true
  ∧ Forall (λ l, opens_of ConnectPatch l = false
                 ∧ block_terminator (indent o) l = false) body
  ∧ opens_of ConnectPatch t = false
  ∧ block_terminator (indent o) t = true
  ∧ scan_from (opens_of ConnectPatch) (emit_of ConnectPatch) (ends_of ConnectPatch)
      scan_init (o :: body ++ [t])
    = mkScan (emit_of ConnectPatch 0) true 0
  ∧ scan_from (opens_of ConnectPatch) (emit_of ConnectPatch) (ends_of ConnectPatch)
      scan_init (o :: body ++ [t])
    ≠ mkScan (emit_of ConnectPatch (indent o) ++ [t]) false (indent o).
Proof.
  intros o body t. repeat split.
  - repeat constructor.
  - vm_compute. intros H. discriminate H.
Qed.

Lemma method_header_ends T d l :
  indent l ≤ d → startswith (lit "def ") (strip l) = true → ends_of T d l = true.
Proof.
  intros Hd H.
  assert ((indent l <=? d) = true) as Hle by (by apply Nat.leb_le).
  pose proof H as H'. apply startswith_prefix in H' as [k Hk].
  destruct T; simpl.
  - unfold Mavlink.ends, nonblank. rewrite Hle, Hk. done.
  - unfold Userapi.ends, nonblank. rewrite Hle, H, Hk. done.
Qed.

Lemma method_line_not_end T d l :
  nonblank l = false ∨ d < indent l → ends_of T d l = false.
Proof.
  intros [H | H].
  - destruct T; simpl; [unfold Mavlink.ends | unfold Userapi.ends];
      by rewrite H.
  - assert ((indent l <=? d) = false) as Hle by (apply Nat.leb_gt; lia).
    destruct T; simpl; [unfold Mavlink.ends | unfold Userapi.ends];
      rewrite Hle; by rewrite andb_false_r.
Qed.

(** C4, as the code has it.  In a file that its patch takes up (no
    marker, and the text the method asks for), a method opened at depth 4
    whose lines are blank or indented deeper, followed at once by the header
    of a sibling method at depth 4, none of these lines carrying the
    signature again and none before them: the loop replaces the opening
    line and every line of the method and keeps the header of the sibling,
    and the text that is written has the lines before the method, the new
    method, the header of the sibling and what the loop makes of the lines
    that follow; these are kept as they are when none of them carries the
    signature. *)
Theorem sibling_method_boundary
    (T : BodyPatch) (content : text) (pre : list text) (o : text)
    (body : list text) (sib : text) (rest : list text) :
  contains (marker_of (target_of T)) content = false →
  contains (guard_of T) content = true →
  split newline content = pre ++ o :: body ++ sib :: rest →
  Forall (λ l, opens_of T l = false) pre →
  opens_of T o = true → indent o = 4 →
  Forall (λ l, opens_of T l = false ∧ (nonblank l = false ∨ 4 < indent l)) body →
  opens_of T sib = false → indent sib = 4 →
  startswith (lit "def ") (strip sib) = true →
  scan_from (opens_of T) (emit_of T) (ends_of T) scan_init (pre ++ o :: body ++ [sib])
    = mkScan (pre ++ emit_of T 4 ++ [sib]) false 4
  ∧ ∃ tail,
      rewrite_of (target_of T) content
        = Patched (join [newline] (pre ++ emit_of T 4 ++ sib :: tail))
      ∧ tail = new_lines (scan_from (opens_of T) (emit_of T) (ends_of T)
                            (mkScan [] false 4) rest)
      ∧ (Forall (λ l, opens_of T l = false) rest → tail = rest).
Proof.
  intros Hm Hg Hlines Hpre Ho Hd Hbody Hs Hsd Hdef.
  assert (scan_from (opens_of T) (emit_of T) (ends_of T) scan_init
            (pre ++ o :: body ++ [sib])
          = mkScan (pre ++ emit_of T 4 ++ [sib]) false 4) as Hblock.
  { rewrite scan_from_app, (scan_outside _ _ _ _ pre) by done.
    change (new_lines scan_init ++ pre) with pre.
    rewrite <- Hd. apply scan_block; try done.
    - eapply Forall_impl; [exact Hbody|]. intros l [? Hl]. split; [done|].
      apply method_line_not_end. by rewrite Hd.
    - apply method_header_ends; [lia | done]. }
  split; [done|]. eexists. split; [|split; [reflexivity|]].
  - assert (rewrite_of (target_of T) content
            = Patched (join [newline]
                         (scan (opens_of T) (emit_of T) (ends_of T)
                            (split newline content)))) as ->.
    { destruct T; simpl in *.
      - unfold Mavlink.rewrite. by rewrite Hm, Hg.
      - unfold Userapi.rewrite. by rewrite Hm, Hg. }
    do 2 f_equal. unfold scan. rewrite Hlines.
    replace (pre ++ o :: body ++ sib :: rest)
      with ((pre ++ o :: body ++ [sib]) ++ rest)
      by (rewrite <- !app_assoc; simpl; by rewrite <- app_assoc).
    rewrite scan_from_app, Hblock.
    pose proof (scan_from_output (opens_of T) (emit_of T) (ends_of T)
                  (pre ++ emit_of T 4 ++ [sib]) (mkScan [] false 4) rest) as H.
    simpl in H. rewrite app_nil_r in H. rewrite H. simpl.
    by rewrite <- !app_assoc.
  - intros Hrest. by rewrite scan_outside.
Qed.

(** C4 at a class with the pack method and one sibling: the patch writes
    the class line, the fixed method, and the sibling as it was. *)
Lemma sibling_method_boundary_witness :
  let pre := [lit "class MAVLink_header(object):"] in
  let sib := lit "    def unpack(self, data):" in
  let rest := [lit "        return data"] in
  Mavlink.rewrite sibling_fixture
  = Patched (join [newline] (pre ++ Mavlink.emit 4 ++ sib :: rest)).
Proof.
  intros pre sib rest.
  destruct (proj2 (sibling_method_boundary PackPatch sibling_fixture pre
                     (lit "    def pack(self, force_mavlink1=False):")
                     (tail pack_method) sib rest
                     ltac:(vm_compute; reflexivity)
                     ltac:(vm_compute; reflexivity)
                     ltac:(vm_compute; reflexivity)
                     ltac:(repeat constructor)
                     ltac:(vm_compute; reflexivity)
                     ltac:(vm_compute; reflexivity)
                     ltac:(repeat constructor; right; vm_compute; lia)
                     ltac:(vm_compute; reflexivity)
                     ltac:(vm_compute; reflexivity)
                     ltac:(vm_compute; reflexivity)))
    as (tail & Hrun & _ & Hrest).
  rewrite (Hrest ltac:(repeat constructor)) in Hrun. exact Hrun.
Defined.

(** C4 as the specification words it fails: the lines after the sibling
    are not all kept when one of them carries the signature again.  Here a
    second class has the pack method too; the patch takes the file up, and
    the method of the second class is replaced like the first. *)
Lemma sibling_method_counterexample :
  let pre := [lit "class A(object):"] in
  let o := lit "    def pack(self, force_mavlink1=False):" in
  let body := tail pack_method in
  let sib := lit "    def unpack(self, data):" in
  let rest := [lit "        return data"; lit "class B(object):"] ++ pack_method in
  split newline sibling_twin_fixture = pre ++ o :: body ++ sib :: rest
  ∧ opens_of PackPatch o = true ∧ indent o = 4
  ∧ Forall (λ l, opens_of PackPatch l = false ∧ (nonblank l = false ∨ 4 < indent l)) body
  ∧ opens_of PackPatch sib = false ∧ indent sib = 4
  ∧ startswith (lit "def ") (strip sib) = true
  ∧ Mavlink.rewrite sibling_twin_fixture
    = Patched (join [newline]
                 (pre ++ Mavlink.emit 4 ++
                  sib :: [lit "        return data"; lit "class B(object):"]
                  ++ Mavlink.emit 4))
  ∧ Mavlink.rewrite sibling_twin_fixture
    ≠ Patched (join [newline] (pre ++ Mavlink.emit 4 ++ sib :: rest)).
Proof.
  intros pre o body sib rest.
  split; [vm_compute; reflexivity|].
  split; [vm_compute; reflexivity|]. split; [vm_compute; reflexivity|].
  split; [refine (bool_decide_unpack _ _); vm_compute; exact I|].
  split; [vm_compute; reflexivity|]. split; [vm_compute; reflexivity|].
  split; [vm_compute; reflexivity|]. split; [vm_compute; reflexivity|].
  vm_compute. intros H. discriminate H.
Qed.

(** * The MAVLink header patch, end to end *)

Lemma filter_none {A} (f : A → bool) (l : list A) :
  Forall (λ x, f x = false) l → filter (λ x, f x = true) l = [].
Proof.
  induction 1 as [|x l Hx _ IH]; [done|].
  rewrite filter_cons, IH. case_decide; [congruence | done].
Qed.

Section SingleOpening.
Variable opens : text → bool.
Variable emit : nat → list text.
Variable ends : nat → text → bool.

(** A file in which one line carries the signature: the lines before it
    are kept, the block is replaced, and what follows the block is kept. *)
Lemma scan_single pre o body rest :
  Forall (λ l, opens l = false) pre →
  opens o = true →
  Forall (λ l, opens l = false ∧ ends (indent o) l = false) body →
  Forall (λ l, opens l = false) rest →
  match rest with [] => True | t :: _ => ends (indent o) t = true end →
  scan opens emit ends (pre ++ o :: body ++ rest) = pre ++ emit (indent o) ++ rest.
Proof.
  intros Hpre Ho Hbody Hrest Hend. unfold scan.
  rewrite scan_from_app, (scan_outside _ _ _ _ pre) by done.
  change (new_lines scan_init ++ pre) with pre.
  destruct rest as [|t rest].
  - rewrite app_nil_r, scan_block_eof by done. simpl. by rewrite app_nil_r.
  - apply Forall_cons in Hrest as [Ht Hrest].
    replace (o :: body ++ t :: rest) with ((o :: body ++ [t]) ++ rest)
      by (simpl; by rewrite <- app_assoc).
    rewrite scan_from_app, scan_block by done.
    rewrite scan_outside by done. simpl.
    by rewrite <- !app_assoc.
Qed.
End SingleOpening.

Lemma mavlink_marker_no_newline : newline ∉ Mavlink.marker.
Proof. refine (bool_decide_unpack _ _). vm_compute. exact I. Qed.

Lemma mavlink_signature_no_newline : newline ∉ Mavlink.signature.
Proof. refine (bool_decide_unpack _ _). vm_compute. exact I. Qed.

Lemma mavlink_marker_in_fix d :
  sum_list_with (occurrences Mavlink.marker) (Mavlink.emit d) = 1.
Proof. vm_compute. reflexivity. Qed.

Lemma mavlink_signature_in_pattern :
  contains Mavlink.signature Mavlink.original_pack_pattern = true.
Proof. vm_compute. reflexivity. Qed.

(** The marker in the text the pack patch writes: once for each line that
    carries the signature. *)
Lemma mavlink_marker_count content :
  contains Mavlink.marker content = false →
  occurrences Mavlink.marker
    (join [newline] (scan Mavlink.opens Mavlink.emit Mavlink.ends (split newline content)))
  = length (filter (λ l, Mavlink.opens l = true) (split newline content)).
Proof.
  intros Hm.
  rewrite occurrences_join by (apply mavlink_marker_no_newline || done).
  unfold scan. rewrite (scan_sum _ _ _ _ 1).
  - simpl. lia.
  - apply Forall_forall. intros l Hl. apply occurrences_zero.
    by apply (contains_line_false _ newline content).
  - apply mavlink_marker_in_fix.
Qed.

(** A text with the pattern has a line with the signature. *)
Lemma mavlink_pattern_opens content :
  contains Mavlink.original_pack_pattern content = true →
  ∃ l, l ∈ split newline content ∧ Mavlink.opens l = true.
Proof.
  intros H. apply contains_some_line; [apply mavlink_signature_no_newline|].
  eapply contains_trans; [apply mavlink_signature_in_pattern | done].
Qed.

(** C3, as the code has it.  On a file without the marker that has the
    pack pattern, and in which one line carries the signature, the patch
    writes the lines before the method, the fixed method in place of the
    opening line and of the lines of its block, and the lines after the
    block; the marker is in that text exactly once, and the patch finds it
    there when it is run again. *)
Theorem pack_patch_end_to_end
    (content : text) (pre : list text) (o : text) (body rest : list text) :
  contains Mavlink.marker content = false →
  contains Mavlink.original_pack_pattern content = true →
  split newline content = pre ++ o :: body ++ rest →
  Forall (λ l, Mavlink.opens l = false) pre →
  Mavlink.opens o = true →
  Forall (λ l, Mavlink.opens l = false ∧ Mavlink.ends (indent o) l = false) body →
  Forall (λ l, Mavlink.opens l = false) rest →
  match rest with [] => True | t :: _ => Mavlink.ends (indent o) t = true end →
  ∃ patched,
    Mavlink.rewrite content = Patched patched
    ∧ patched = join [newline] (pre ++ split newline Mavlink.fixed_pack_code ++ rest)
    ∧ occurrences Mavlink.marker patched = 1
    ∧ Mavlink.rewrite patched = Already.
Proof.
  intros Hm Hp Hlines Hpre Ho Hbody Hrest Hend.
  set (patched := join [newline] (scan Mavlink.opens Mavlink.emit Mavlink.ends
                                     (split newline content))).
  exists patched.
  assert (occurrences Mavlink.marker patched = 1) as Hone.
  { unfold patched. rewrite mavlink_marker_count by done. rewrite Hlines.
    rewrite filter_app, filter_cons, filter_app, !length_app.
    rewrite decide_True by done. simpl.
    rewrite (filter_none _ pre), (filter_none _ rest), (filter_none _ body);
      [done | | done | done].
    eapply Forall_impl; [exact Hbody|]. by intros l [Hl _]. }
  split; [|split; [|split]].
  - unfold Mavlink.rewrite. by rewrite Hm, Hp.
  - unfold patched. rewrite Hlines. by rewrite scan_single.
  - done.
  - unfold Mavlink.rewrite.
    destruct (contains Mavlink.marker patched) eqn:E; [done|].
    apply occurrences_zero in E. rewrite E in Hone. discriminate.
Qed.

(** C3 at the fixture: the six lines of the method give way to the fixed
    method, the class line and the sibling stay. *)
Lemma pack_patch_end_to_end_witness :
  ∃ patched,
    Mavlink.rewrite pack_fixture = Patched patched
    ∧ patched = join [newline]
        ([lit "class MAVLink_header(object):"] ++
         split newline Mavlink.fixed_pack_code ++
         [lit "    def unpack(self, data):"; lit "        return data"])
    ∧ occurrences Mavlink.marker patched = 1
    ∧ Mavlink.rewrite patched = Already.
Proof.
  refine (pack_patch_end_to_end pack_fixture
            [lit "class MAVLink_header(object):"]
            (lit "    def pack(self, force_mavlink1=False):")
            (tail pack_method ++ [[]])
            [lit "    def unpack(self, data):"; lit "        return data"]
            _ _ _ _ _ _ _ _).
  - vm_compute. reflexivity.
  - vm_compute. reflexivity.
  - vm_compute. reflexivity.
  - repeat constructor.
  - vm_compute. reflexivity.
  - refine (bool_decide_unpack _ _). vm_compute. exact I.
  - repeat constructor.
  - vm_compute. reflexivity.
Defined.

(** C3 as the specification words it fails.  The fixed method begins with
    the header and the docstring of the old one, so four of the six lines
    of the fixture are in the text that is written; and a file in which two
    lines carry the signature gets the marker twice. *)
Lemma pack_patch_counterexample :
  contains Mavlink.original_pack_pattern pack_fixture = true
  ∧ (∃ patched,
       Mavlink.rewrite pack_fixture = Patched patched
       ∧ Forall (λ l, l ∈ split newline patched) (take 4 pack_method))
  ∧ contains Mavlink.original_pack_pattern twin_fixture = true
  ∧ (∃ patched,
       Mavlink.rewrite twin_fixture = Patched patched
       ∧ occurrences Mavlink.marker patched = 2).
Proof.
  split; [vm_compute; reflexivity|]. split.
  - eexists. split; [vm_compute; reflexivity|].
    refine (bool_decide_unpack _ _). vm_compute. exact I.
  - split; [vm_compute; reflexivity|].
    eexists. split; vm_compute; reflexivity.
Qed.

(** * [replace] and the UDP binding patch *)

Lemma replace_from_skip old new k s :
  replace_from old new k s = replace_from old new 0 (drop k s).
Proof.
  revert k. induction s as [|c s IH]; intros [|k]; try done.
  simpl. apply IH.
Qed.

Lemma replace_from_match old new k :
  old ≠ [] →
  replace_from old new 0 (old ++ k) = new ++ replace_from old new 0 k.
Proof.
  destruct old as [|a old']; [done|]. intros _.
  change ((a :: old') ++ k) with (a :: (old' ++ k)).
  cbn [replace_from].
  change (a :: (old' ++ k)) with ((a :: old') ++ k).
  rewrite startswith_refl. f_equal.
  rewrite replace_from_skip. simpl. rewrite Nat.sub_0_r.
  by rewrite drop_app_length.
Qed.

Section Replace.
Variables old new : text.
Hypothesis old_nonempty : old ≠ [].

Lemma replace_from_miss c s :
  startswith old (c :: s) = false →
  replace_from old new 0 (c :: s) = c :: replace_from old new 0 s.
Proof. intros H. cbn [replace_from]. by rewrite H. Qed.

Lemma join_cons_app sep (g : text) gs : ∃ r, join sep (g :: gs) = g ++ r.
Proof.
  destruct gs as [|g' gs].
  - exists []. simpl. by rewrite app_nil_r.
  - by exists (sep ++ join sep (g' :: gs)).
Qed.

(** [s.replace(old, new)] cuts [s] at the occurrences of [old], which it
    takes from the left, and joins the pieces with [new]; no piece
    contains [old]. *)
Lemma replace_segments s :
  ∃ segs, segs ≠ []
    ∧ s = join old segs
    ∧ replace old new s = join new segs
    ∧ Forall (λ g, contains old g = false) segs.
Proof.
  assert (replace old new s = replace_from old new 0 s) as ->.
  { unfold replace. by destruct old. }
  assert (contains old [] = false) as Hnil by (by destruct old).
  remember (length s) as n eqn:Hn. revert s Hn.
  induction n as [n IH] using lt_wf_ind. intros s Hn.
  destruct s as [|c s].
  { exists [[]]. repeat split; try done. by constructor. }
  destruct (startswith old (c :: s)) eqn:Hsw.
  - pose proof Hsw as Hpre. apply startswith_prefix in Hpre as [k Hk].
    destruct (IH (length k)) with (s := k) as (segs & Hne & Hj & Hr & Hall).
    { subst n. rewrite Hk, length_app. destruct old; [done | simpl; lia]. }
    { done. }
    exists ([] :: segs). rewrite Hk, replace_from_match by done.
    destruct segs as [|g gs]; [done|].
    repeat split; try done.
    + change (join old ([] :: g :: gs)) with (old ++ join old (g :: gs)).
      by rewrite <- Hj.
    + change (join new ([] :: g :: gs)) with (new ++ join new (g :: gs)).
      by rewrite <- Hr.
    + by constructor.
  - destruct (IH (length s)) with (s := s) as (segs & Hne & Hj & Hr & Hall).
    { subst n. simpl. lia. }
    { done. }
    destruct segs as [|g gs]; [done|].
    exists ((c :: g) :: gs). rewrite replace_from_miss by done.
    apply Forall_cons in Hall as [Hg Hgs].
    repeat split; try done.
    + rewrite Hj. by destruct gs.
    + rewrite Hr. by destruct gs.
    + constructor; [|done]. simpl. rewrite Hg, orb_false_r.
      destruct (join_cons_app old g gs) as [r Hr'].
      destruct (startswith old (c :: g)) eqn:E; [|done].
      apply (startswith_app _ _ r) in E. simpl in E.
      rewrite <- Hr', <- Hj in E. simpl in Hsw. by rewrite Hsw in E.
Qed.
End Replace.

Section MarkerCount.
(** A marker [m0 :: m'] whose first character does not come back in it,
    a replacement [m0 :: r] that starts with the marker and in which the
    marker starts nowhere else. *)
Variables (m0 : N) (m' r : text).
Hypothesis first_unique : m0 ∉ m'.
Hypothesis starts : startswith (m0 :: m') (m0 :: r) = true.
Hypothesis nowhere_else : no_start (m0 :: m') r = true.

Local Abbreviation m := (m0 :: m').

Lemma occurrences_before_first g y :
  occurrences m (g ++ m0 :: y) = occurrences m g + occurrences m (m0 :: y).
Proof.
  induction g as [|c g IH]; [done|].
  change (occurrences m ((c :: g) ++ m0 :: y))
    with ((if startswith m (c :: g ++ m0 :: y) then 1 else 0)
          + occurrences m (g ++ m0 :: y)).
  change (occurrences m (c :: g))
    with ((if startswith m (c :: g) then 1 else 0) + occurrences m g).
  rewrite IH.
  replace (startswith m (c :: g ++ m0 :: y)) with (startswith m (c :: g));
    [lia|].
  simpl. by rewrite startswith_before_sep.
Qed.

Lemma occurrences_no_start x y :
  no_start m x = true → occurrences m (x ++ y) = occurrences m y.
Proof.
  induction x as [|c x IH]; [done|]. intros H.
  cbn [no_start] in H. apply andb_true_iff in H as [Hc Hx].
  change (occurrences m ((c :: x) ++ y))
    with ((if startswith m ((c :: x) ++ y) then 1 else 0)
          + occurrences m (x ++ y)).
  by rewrite clash_startswith, IH.
Qed.

Lemma occurrences_replacement y :
  occurrences m ((m0 :: r) ++ y) = S (occurrences m y).
Proof.
  change (occurrences m ((m0 :: r) ++ y))
    with ((if startswith m ((m0 :: r) ++ y) then 1 else 0)
          + occurrences m (r ++ y)).
  by rewrite startswith_app, occurrences_no_start.
Qed.

(** Pieces without the marker, joined by the replacement: the marker is
    there once for each joint. *)
Lemma occurrences_join_replacement segs :
  Forall (λ g, contains m g = false) segs →
  occurrences m (join (m0 :: r) segs) = length segs - 1.
Proof.
  induction 1 as [|g gs Hg _ IH]; [done|].
  apply occurrences_zero in Hg.
  destruct gs as [|g' gs]; [simpl; lia|].
  change (join (m0 :: r) (g :: g' :: gs))
    with (g ++ m0 :: (r ++ join (m0 :: r) (g' :: gs))).
  rewrite occurrences_before_first, Hg.
  change (m0 :: (r ++ join (m0 :: r) (g' :: gs)))
    with ((m0 :: r) ++ join (m0 :: r) (g' :: gs)).
  rewrite occurrences_replacement, IH. simpl. lia.
Qed.
End MarkerCount.

Section Unbordered.
(** A pattern [p0 :: p'] that starts at none of its own later positions:
    its occurrences in a text cannot overlap. *)
Variables (p0 : N) (p' : text).
Hypothesis unbordered : no_start (p0 :: p') p' = true.

Local Abbreviation P := (p0 :: p').

Lemma clash_sym a b : clash a b = clash b a.
Proof.
  revert b. induction a as [|x a IH]; intros [|y b]; simpl; try done.
  by rewrite IH, N.eqb_sym.
Qed.

Lemma no_start_drop m r j :
  no_start m r = true → j < length r → clash m (drop j r) = true.
Proof.
  revert j. induction r as [|c r IH]; intros j H Hj; [simpl in Hj; lia|].
  cbn [no_start] in H. apply andb_true_iff in H as [Hc Hr].
  destruct j as [|j]; [done|]. simpl. apply IH; [done | simpl in Hj; lia].
Qed.

(** A match that begins in [u] runs into what follows [u] only with a
    later part of the pattern. *)
Lemma startswith_app_split m u v :
  startswith m (u ++ v) = true →
  startswith m u = true
  ∨ (length u < length m ∧ startswith (drop (length u) m) v = true).
Proof.
  revert u. induction m as [|a m IH]; intros u H; [by left|].
  destruct u as [|c u].
  - right. split; [simpl; lia | done].
  - simpl in H. apply andb_true_iff in H as [Hac H].
    destruct (IH u H) as [Hu | [Hlen Hv]].
    + left. simpl. by rewrite Hac, Hu.
    + right. split; [simpl; lia | done].
Qed.

Lemma no_overlap_into u y :
  u ≠ [] → startswith P u = false → startswith P (u ++ P ++ y) = false.
Proof.
  intros Hne Hu. destruct (startswith P (u ++ P ++ y)) eqn:E; [|done].
  apply startswith_app_split in E as [E | [Hlen E]]; [by rewrite E in Hu|].
  destruct u as [|c u]; [done|]. simpl in Hlen.
  assert (clash P (drop (length u) p') = true) as Hc
    by (apply no_start_drop; [done | lia]).
  rewrite clash_sym in Hc.
  change (drop (length (c :: u)) P) with (drop (length u) p') in E.
  by rewrite (clash_startswith _ _ _ Hc) in E.
Qed.

Lemma occurrences_before_pattern g y :
  contains P g = false →
  occurrences P (g ++ P ++ y) = occurrences P (P ++ y).
Proof.
  induction g as [|c g IH]; [done|]. intros H.
  simpl in H. apply orb_false_iff in H as [Hc Hg].
  change (occurrences P ((c :: g) ++ P ++ y))
    with ((if startswith P ((c :: g) ++ P ++ y) then 1 else 0)
          + occurrences P (g ++ P ++ y)).
  by rewrite no_overlap_into, IH.
Qed.

Lemma occurrences_pattern y : occurrences P (P ++ y) = S (occurrences P y).
Proof.
  change (occurrences P (P ++ y))
    with ((if startswith P (P ++ y) then 1 else 0) + occurrences P (p' ++ y)).
  by rewrite startswith_refl, occurrences_no_start.
Qed.

(** Pieces without the pattern, joined by the pattern: it occurs once for
    each joint. *)
Lemma occurrences_join_pattern segs :
  Forall (λ g, contains P g = false) segs →
  occurrences P (join P segs) = length segs - 1.
Proof.
  induction 1 as [|g gs Hg _ IH]; [done|].
  destruct gs as [|g' gs].
  - simpl. apply occurrences_zero in Hg. lia.
  - change (join P (g :: g' :: gs)) with (g ++ P ++ join P (g' :: gs)).
    rewrite occurrences_before_pattern, occurrences_pattern, IH by done.
    simpl. lia.
Qed.
End Unbordered.

Lemma occurrences_join_ok m R segs :
  replacement_ok m R = true →
  Forall (λ g, contains m g = false) segs →
  occurrences m (join R segs) = length segs - 1.
Proof.
  destruct m as [|m0 m'], R as [|r0 r]; try done.
  intros H Hsegs. cbn [replacement_ok] in H.
  apply andb_true_iff in H as [H H3]. apply andb_true_iff in H as [H1 H2].
  apply negb_true_iff, bool_decide_eq_false in H1.
  assert (r0 = m0) as ->.
  { simpl in H2. apply andb_true_iff in H2 as [H2 _]. by apply N.eqb_eq in H2. }
  by apply occurrences_join_replacement.
Qed.

Lemma try_patterns_first pre P post content :
  Forall (λ Q, contains Q content = false) pre →
  contains P content = true →
  Udp.try_patterns (pre ++ P :: post) content
    = Some (replace P (Udp.robust_bind P) content).
Proof.
  intros Hpre HP. induction Hpre as [|Q pre HQ _ IH]; simpl.
  - by rewrite HP.
  - by rewrite HQ.
Qed.

Lemma try_patterns_none ps content :
  Forall (λ Q, contains Q content = false) ps →
  Udp.try_patterns ps content = None.
Proof. induction 1 as [|Q ps HQ _ IH]; simpl; [done | by rewrite HQ]. Qed.

Lemma try_patterns_some ps content t :
  Udp.try_patterns ps content = Some t →
  ∃ pre P post, ps = pre ++ P :: post
    ∧ Forall (λ Q, contains Q content = false) pre
    ∧ contains P content = true.
Proof.
  induction ps as [|Q ps IH]; [done|]. simpl.
  destruct (contains Q content) eqn:HQ.
  - intros _. exists [], Q, ps. by repeat split.
  - intros H. destruct (IH H) as (pre & P & post & -> & Hpre & HP).
    exists (Q :: pre), P, post. repeat split; [|done]. by constructor.
Qed.

Lemma udp_patterns_ok :
  Forall (λ P, replacement_ok Udp.marker (Udp.robust_bind P) = true
               ∧ ∃ p0 p', P = p0 :: p' ∧ no_start P p' = true)
         Udp.udp_bind_patterns.
Proof.
  repeat constructor; try (vm_compute; reflexivity);
    (eexists _, _; split; [reflexivity | vm_compute; reflexivity]).
Qed.

(** The UDP rewrite on a text in which a variant of the list occurs. *)
Lemma udp_rewrite_segments (content : text) (pre : list text) (P : text) (post : list text) :
  contains Udp.marker content = false →
  Udp.udp_bind_patterns = pre ++ P :: post →
  Forall (λ Q, contains Q content = false) pre →
  contains P content = true →
  ∃ segs,
    2 ≤ length segs
    ∧ content = join P segs
    ∧ Forall (λ g, contains P g = false) segs
    ∧ Udp.rewrite content = Patched (join (Udp.robust_bind P) segs)
    ∧ occurrences P content = length segs - 1
    ∧ occurrences Udp.marker (join (Udp.robust_bind P) segs) = length segs - 1.
Proof.
  intros Hm Hlist Hpre HP.
  assert (replacement_ok Udp.marker (Udp.robust_bind P) = true
          ∧ ∃ p0 p', P = p0 :: p' ∧ no_start P p' = true)
    as (Hok & p0 & p' & HPeq & Hunb).
  { pose proof udp_patterns_ok as Hall. rewrite Hlist in Hall.
    apply Forall_app in Hall as [_ Hall]. by apply Forall_cons in Hall as [? _]. }
  assert (P ≠ []) as HPne by (by rewrite HPeq).
  destruct (replace_segments P (Udp.robust_bind P) HPne content)
    as (segs & Hne & Hj & Hr & Hall).
  exists segs. repeat split; try done.
  - destruct segs as [|g [|g' gs]]; [done | | simpl; lia].
    simpl in Hj. subst g. apply Forall_cons in Hall as [Hg _].
    by rewrite Hg in HP.
  - unfold Udp.rewrite. rewrite Hm, Hlist.
    by rewrite try_patterns_first, Hr.
  - rewrite Hj at 1. rewrite HPeq in *. by apply occurrences_join_pattern.
  - apply occurrences_join_ok; [done|].
    apply Forall_forall. intros g Hg.
    destruct (contains Udp.marker g) eqn:E; [|done].
    by rewrite Hj, (contains_join _ _ g segs Hg E) in Hm.
Qed.

(** C10.  The first variant of the list that is in the text is the one
    that is replaced: the text is cut at all its occurrences and the
    pieces, none of which contains the variant, are joined again by the
    retry block of that variant; whatever else the pieces hold, later
    variants too, stays as it was.  The marker is in the result once for
    each occurrence of the variant in the text. *)
Theorem udp_first_variant (content : text) (pre : list text) (P : text) (post : list text) :
  contains Udp.marker content = false →
  Udp.udp_bind_patterns = pre ++ P :: post →
  Forall (λ Q, contains Q content = false) pre →
  contains P content = true →
  ∃ segs,
    2 ≤ length segs
    ∧ content = join P segs
    ∧ Forall (λ g, contains P g = false) segs
    ∧ Udp.rewrite content = Patched (join (Udp.robust_bind P) segs)
    ∧ occurrences P content = length segs - 1
    ∧ occurrences Udp.marker (join (Udp.robust_bind P) segs) = length segs - 1.
Proof. apply udp_rewrite_segments. Qed.

(** C10 at a text with the third and the fourth variant: the third is
    replaced at its two places, the fourth stays. *)
Lemma udp_first_variant_witness :
  let P := lit "sock.bind(('', port))" in
  let Q := lit "sock.bind((" ++ dquote ++ dquote ++ lit ", port))" in
  let content := lit "a = 1; " ++ P ++ lit "; " ++ Q ++ lit "; " ++ P in
  ∃ segs,
    2 ≤ length segs
    ∧ content = join P segs
    ∧ Forall (λ g, contains P g = false) segs
    ∧ Udp.rewrite content = Patched (join (Udp.robust_bind P) segs)
    ∧ occurrences P content = length segs - 1
    ∧ occurrences Udp.marker (join (Udp.robust_bind P) segs) = length segs - 1.
Proof.
  intros P Q content.
  refine (udp_first_variant content (take 2 Udp.udp_bind_patterns) P
            (drop 3 Udp.udp_bind_patterns) _ _ _ _).
  - vm_compute. reflexivity.
  - vm_compute. reflexivity.
  - repeat constructor.
  - vm_compute. reflexivity.
Defined.

(** * The patch methods on the file system *)

Section ApplyPatch.
Variables (file : path) (rewrite : text → Rewrite).
Variables (missing already applied notfound tag : string).

Local Abbreviation run := (apply_patch file rewrite missing already applied notfound tag).

Lemma apply_patch_missing s :
  files s !! file = None → file ∉ dirs s →
  run s = (Ok FILE_MISSING, say (missing +:+ str_of_path file) s).
Proof.
  intros Hf Hd. unfold apply_patch, bind, exists_, get, ret, is_file, is_dir.
  simpl. rewrite Hf. rewrite bool_decide_false by (by intros [? ?]).
  rewrite bool_decide_false by done. done.
Qed.

Lemma apply_patch_already s content :
  files s !! file = Some content → rewrite content = Already →
  run s = (Ok ALREADY_APPLIED, say already s).
Proof.
  intros Hf Hr. unfold apply_patch, bind, exists_, get, ret, read_text, is_file.
  simpl. rewrite Hf. rewrite bool_decide_true by done. simpl.
  unfold bind, get. rewrite Hf. simpl. by rewrite Hr.
Qed.

Lemma apply_patch_notfound s content :
  files s !! file = Some content → rewrite content = NotFound →
  run s = (Ok PATTERN_NOT_FOUND, say notfound s).
Proof.
  intros Hf Hr. unfold apply_patch, bind, exists_, get, ret, read_text, is_file.
  simpl. rewrite Hf. rewrite bool_decide_true by done. simpl.
  unfold bind, get. rewrite Hf. simpl. by rewrite Hr.
Qed.

Lemma apply_patch_patched s content t :
  files s !! file = Some content → rewrite content = Patched t →
  run s = if is_dir s file || bool_decide (file ∈ locked s)
          then (Raise OSError, s)
          else (Ok APPLIED, patched_state file applied tag t s).
Proof.
  intros Hf Hr.
  unfold apply_patch, bind, exists_, get, ret, read_text, write_text, is_file.
  simpl. rewrite Hf. rewrite bool_decide_true by done. simpl.
  unfold bind, get. rewrite Hf. simpl. rewrite Hr.
  by destruct (is_dir s file || bool_decide (file ∈ locked s)).
Qed.

(** What a run that reports [APPLIED] has done. *)
Lemma apply_patch_applied_inv s s' :
  run s = (Ok APPLIED, s') →
  ∃ content t, files s !! file = Some content ∧ rewrite content = Patched t
    ∧ s' = patched_state file applied tag t s.
Proof.
  intros H. destruct (files s !! file) as [content|] eqn:Hf.
  - destruct (rewrite content) as [| |t] eqn:Hr.
    + rewrite (apply_patch_already s content) in H by done. discriminate.
    + rewrite (apply_patch_notfound s content) in H by done. discriminate.
    + rewrite (apply_patch_patched s content t) in H by done.
      destruct (is_dir s file || bool_decide (file ∈ locked s)); [discriminate|].
      injection H as <-. by exists content, t.
  - revert H. unfold apply_patch, bind, exists_, get, ret, read_text, is_file.
    simpl. rewrite Hf. rewrite bool_decide_false by (by intros [? ?]). simpl.
    destruct (is_dir s file); simpl; [unfold bind, get; rewrite Hf|]; discriminate.
Qed.
End ApplyPatch.

Lemma patch_of_apply T root s :
  pyhula_path s = Some root →
  ∃ missing already applied notfound tag,
    patch_of T s = apply_patch (target_file root T) (rewrite_of T)
                     missing already applied notfound tag s.
Proof.
  intros H. destruct T; do 5 eexists; simpl;
    [unfold patch_mavlink_header | unfold patch_udp_binding
     | unfold patch_userapi_connection];
    unfold bind at 1, get_pyhula_path, bind, get; rewrite H; reflexivity.
Qed.

(** ** The rewrites, once more on their result *)

Lemma userapi_pattern_no_newline : newline ∉ Userapi.connect_pattern.
Proof. refine (bool_decide_unpack _ _). vm_compute. exact I. Qed.

Lemma userapi_marker_emitted d :
  ∃ l, l ∈ Userapi.emit d ∧ contains Userapi.marker l = true.
Proof.
  exists (spaces d ++ lit "        # PYHULA_USERAPI_PATCH_APPLIED"). split.
  - unfold Userapi.emit. apply list_elem_of_fmap.
    exists (lit "        # PYHULA_USERAPI_PATCH_APPLIED"). split; [done|].
    refine (bool_decide_unpack _ _). vm_compute. exact I.
  - apply contains_app_r. vm_compute. reflexivity.
Qed.

Lemma positive_occurrences p s : 0 < occurrences p s → contains p s = true.
Proof.
  intros H. destruct (contains p s) eqn:E; [done|].
  apply occurrences_zero in E. lia.
Qed.

Lemma mavlink_patched_marker content :
  contains Mavlink.marker content = false →
  contains Mavlink.original_pack_pattern content = true →
  contains Mavlink.marker
    (join [newline] (scan Mavlink.opens Mavlink.emit Mavlink.ends (split newline content)))
  = true.
Proof.
  intros Hm Hp. apply positive_occurrences.
  rewrite mavlink_marker_count by done.
  destruct (mavlink_pattern_opens content Hp) as (l & Hl & Ho).
  assert (l ∈ filter (λ l, Mavlink.opens l = true) (split newline content)) as Hin
    by (by apply list_elem_of_filter).
  destruct (filter _ _); [by apply elem_of_nil in Hin | simpl; lia].
Qed.

Lemma udp_patched_marker content t :
  contains Udp.marker content = false →
  Udp.try_patterns Udp.udp_bind_patterns content = Some t →
  contains Udp.marker t = true.
Proof.
  intros Hm Ht.
  destruct (try_patterns_some _ _ _ Ht) as (pre & P & post & Hl & Hpre & HP).
  destruct (udp_rewrite_segments content pre P post Hm Hl Hpre HP)
    as (segs & Hlen & _ & _ & Hr & _ & Hocc).
  unfold Udp.rewrite in Hr. rewrite Hm, Ht in Hr. injection Hr as ->.
  apply positive_occurrences. lia.
Qed.

Lemma userapi_patched_marker content :
  contains Userapi.connect_pattern content = true →
  contains Userapi.marker
    (join [newline] (scan Userapi.opens Userapi.emit Userapi.ends (split newline content)))
  = true.
Proof.
  intros Hp.
  destruct (contains_some_line _ newline content userapi_pattern_no_newline Hp)
    as (o & Ho & Hopen).
  destruct (scan_emits Userapi.opens Userapi.emit Userapi.ends scan_init _ o Ho Hopen)
    as (a & b & Hout).
  destruct (userapi_marker_emitted (indent o)) as (l & Hl & Hml).
  unfold scan. rewrite Hout.
  apply (contains_join Userapi.marker [newline] l); [|done].
  apply elem_of_app. right. apply elem_of_app. by left.
Qed.

Lemma rewrite_already T content :
  contains (marker_of T) content = true → rewrite_of T content = Already.
Proof.
  intros Hm. destruct T; simpl in *;
    [unfold Mavlink.rewrite | unfold Udp.rewrite | unfold Userapi.rewrite];
    by rewrite Hm.
Qed.

(** The text a rewrite hands back has the marker: the rewrite of that
    text answers [Already]. *)
Lemma rewrite_marks T content t :
  rewrite_of T content = Patched t → rewrite_of T t = Already.
Proof.
  intros H. apply rewrite_already. revert H. destruct T; simpl.
  - unfold Mavlink.rewrite.
    destruct (contains Mavlink.marker content) eqn:Hm; [done|].
    destruct (contains Mavlink.original_pack_pattern content) eqn:Hp; [|done].
    intros [= <-]. by apply mavlink_patched_marker.
  - unfold Udp.rewrite.
    destruct (contains Udp.marker content) eqn:Hm; [done|].
    destruct (Udp.try_patterns Udp.udp_bind_patterns content) as [t'|] eqn:Ht;
      [|done].
    intros [= <-]. by apply (udp_patched_marker content).
  - unfold Userapi.rewrite.
    destruct (contains Userapi.marker content) eqn:Hm; [done|].
    destruct (contains Userapi.connect_pattern content) eqn:Hp; [|done].
    intros [= <-]. by apply userapi_patched_marker.
Qed.

Lemma rewrite_not_found T content :
  contains (marker_of T) content = false → pattern_absent T content →
  rewrite_of T content = NotFound.
Proof.
  intros Hm Hp. destruct T; simpl in *.
  - unfold Mavlink.rewrite. rewrite Hm.
    by rewrite (contains_false_mono _ _ _ mavlink_signature_in_pattern Hp).
  - unfold Udp.rewrite. by rewrite Hm, try_patterns_none.
  - unfold Userapi.rewrite. by rewrite Hm, Hp.
Qed.

Lemma rewrite_already_inv T content :
  rewrite_of T content = Already → contains (marker_of T) content = true.
Proof.
  destruct T; simpl;
    [unfold Mavlink.rewrite | unfold Udp.rewrite | unfold Userapi.rewrite];
    destruct (contains _ content); try done.
  - by destruct (contains Mavlink.original_pack_pattern content).
  - by destruct (Udp.try_patterns _ _).
  - by destruct (contains Userapi.connect_pattern content).
Qed.

(** C5.  An existing target file that has neither the marker nor the
    signature (for the UDP patch: none of the bind variants): the patch
    method reports that the pattern was not found, and the state after the
    call is the state before it with one more line on the console. *)
Theorem pattern_miss_no_write (T : TargetId) (root : path) (s : State) (content : text) :
  pyhula_path s = Some root →
  files s !! target_file root T = Some content →
  contains (marker_of T) content = false →
  pattern_absent T content →
  ∃ line, patch_of T s = (Ok PATTERN_NOT_FOUND, say line s)
          ∧ files (say line s) = files s.
Proof.
  intros Hroot Hf Hm Hp.
  destruct (patch_of_apply T root s Hroot)
    as (missing & already & applied & notfound & tag & ->).
  exists notfound. split; [|done].
  apply (apply_patch_notfound _ _ _ _ _ _ _ _ content); [done|].
  by apply rewrite_not_found.
Qed.

(** C5 at the task controller of the demo installation, which binds no
    socket. *)
Lemma pattern_miss_no_write_witness :
  ∃ line, patch_of UdpBinding demo_found = (Ok PATTERN_NOT_FOUND, say line demo_found)
          ∧ files (say line demo_found) = files demo_found.
Proof.
  refine (pattern_miss_no_write UdpBinding demo_root demo_found (lit "import socket")
            _ _ _ _).
  - reflexivity.
  - vm_compute. reflexivity.
  - vm_compute. reflexivity.
  - repeat constructor.
Defined.

(** * The programs as state transformers *)

Section Evolution.
Variable root : path.
Variables (Pe : Event → Prop) (Pf Pn : path → Prop).

Lemma evolves_refl s : evolves Pe Pf Pn s s.
Proof.
  split; try done; [|by left].
  exists []. rewrite app_nil_r. split; [done|]. split; [done|].
  intros p t H. by apply elem_of_nil in H.
Qed.

Lemma evolves_trans s1 s2 s3 :
  evolves Pe Pf Pn s1 s2 → evolves Pe Pf Pn s2 s3 → evolves Pe Pf Pn s1 s3.
Proof.
  intros [(e1 & Ht1 & Hp1 & Hw1) Hf1 Hn1 Hk1 Hd1 Hl1 Hi1 Hr1 Hy1]
         [(e2 & Ht2 & Hp2 & Hw2) Hf2 Hn2 Hk2 Hd2 Hl2 Hi2 Hr2 Hy2].
  split; [| | | | | by rewrite Hl2 | by rewrite Hi2 | by rewrite Hr2
          | by rewrite Hy2].
  - exists (e1 ++ e2). rewrite Ht2, Ht1, app_assoc. split; [done|].
    split; [by apply Forall_app|].
    intros p t H. apply elem_of_app in H as [H | H]; eauto.
  - intros p Hp. by rewrite Hf2, Hf1.
  - intros p H. destruct (Hn2 p H) as [H' | H']; [by apply Hn1 | by right].
  - eauto.
  - by trans (dirs s2).
Qed.

(** A step that adds one event which is no write. *)
Lemma evolves_emit s e :
  Pe e → (∀ p t, e ≠ Write p t) → evolves Pe Pf Pn s (set_trace (trace s ++ [e]) s).
Proof.
  intros H Hw. split; try done; [|by left].
  exists [e]. split; [done|]. split; [by constructor|].
  intros p t Hin. apply list_elem_of_singleton in Hin. by destruct (Hw p t).
Qed.

Lemma keeps_ret {A} (a : A) : keeps root Pe Pf Pn (ret a).
Proof. intros s _. apply evolves_refl. Qed.

Lemma keeps_raise {A} e : keeps root Pe Pf Pn (@raise A e).
Proof. intros s _. apply evolves_refl. Qed.

Lemma keeps_bind {A B} (m : M A) (k : A → M B) :
  keeps root Pe Pf Pn m → (∀ a, keeps root Pe Pf Pn (k a)) →
  keeps root Pe Pf Pn (bind m k).
Proof.
  intros Hm Hk s Hs. unfold bind. specialize (Hm s Hs).
  destruct (m s) as [[a|e] s1]; simpl in *; [|done].
  eapply evolves_trans; [done|]. apply Hk. by rewrite (ev_path _ _ _ _ _ Hm).
Qed.

(** A program that looks at the state first. *)
Lemma keeps_get {A} (k : State → M A) :
  (∀ s0, pyhula_path s0 = Some root → keeps root Pe Pf Pn (k s0)) →
  keeps root Pe Pf Pn (bind get k).
Proof. intros H s Hs. unfold bind, get. by apply H. Qed.

Lemma keeps_emit e :
  Pe e → (∀ p t, e ≠ Write p t) → keeps root Pe Pf Pn (emit e).
Proof. intros H Hw s _. by apply evolves_emit. Qed.

Lemma keeps_print line : Pe (Print line) → keeps root Pe Pf Pn (print line).
Proof. intros H. by apply keeps_emit. Qed.

Lemma keeps_for_each {A} (l : list A) (body : A → M unit) :
  (∀ x, keeps root Pe Pf Pn (body x)) → keeps root Pe Pf Pn (for_each l body).
Proof.
  intros H. induction l as [|x l IH]; simpl; [apply keeps_ret|].
  apply keeps_bind; [apply H | done].
Qed.

Lemma keeps_exists p : keeps root Pe Pf Pn (exists_ p).
Proof. apply keeps_get. intros s _. apply keeps_ret. Qed.

Lemma keeps_read p : keeps root Pe Pf Pn (read_text p).
Proof.
  apply keeps_get. intros s _.
  destruct (files s !! p); [apply keeps_ret | apply keeps_raise].
Qed.

Lemma keeps_add_dir q : Pe (Mkdir q) → keeps root Pe Pf Pn (add_dir q).
Proof.
  intros H. apply keeps_bind; [|intros _; by apply keeps_emit].
  intros s _. split; try done; [| by left | simpl; set_solver].
  exists []. rewrite app_nil_r. split; [done|]. split; [done|].
  intros p t Hin. by apply elem_of_nil in Hin.
Qed.

Lemma keeps_os_mkdir p : Pe (Mkdir p) → keeps root Pe Pf Pn (os_mkdir p).
Proof.
  intros H. apply keeps_get. intros s _.
  destruct (is_file s p || is_dir s p); [apply keeps_raise|].
  destruct (negb (bool_decide (parent p = []) || is_dir s (parent p)));
  [apply keeps_raise|].
  destruct (bool_decide (p ∈ locked s)); [apply keeps_raise|].
  by apply keeps_add_dir.
Qed.

Lemma keeps_makedirs n rest p :
  (∀ q, Pe (Mkdir q)) → keeps root Pe Pf Pn (makedirs_from n rest p).
Proof.
  intros H. revert n. induction rest as [|c rest IH]; intros n; simpl.
  - apply keeps_ret.
  - apply keeps_get. intros s _. apply keeps_bind; [|done].
    destruct (is_dir s (take (S n) p)); [apply keeps_ret|].
    destruct (is_file s (take (S n) p)); [apply keeps_raise|].
    destruct (bool_decide (take (S n) p ∈ locked s)); [apply keeps_raise|].
    by apply keeps_add_dir.
Qed.

(** A file put at [p]: [p] may change and may be new. *)
Lemma keeps_put_file p t : Pf p → Pn p → keeps root Pe Pf Pn (put_file p t).
Proof.
  intros Hf Hn s _. split; try done.
  - exists []. rewrite app_nil_r. split; [done|]. split; [done|].
    intros q u Hin. by apply elem_of_nil in Hin.
  - intros q Hq. simpl. apply lookup_insert_ne. by intros ->.
  - intros q. simpl. destruct (decide (p = q)) as [<- | Hne];
      [by right | rewrite lookup_insert_ne by done; by left].
  - intros q Hq. simpl. destruct (decide (p = q)) as [<- | Hne];
      [by rewrite lookup_insert_eq | by rewrite lookup_insert_ne].
Qed.

Lemma keeps_copy2 src dst :
  (∀ d, d = dst ∨ d = dst ++ [name src] → Pe (Copy src d) ∧ Pf d ∧ Pn d) →
  keeps root Pe Pf Pn (copy2 src dst).
Proof.
  intros H. apply keeps_get. intros s _.
  destruct (files s !! src) as [t|]; [|apply keeps_raise].
  set (d := if is_dir s dst then dst ++ [name src] else dst).
  assert (d = dst ∨ d = dst ++ [name src]) as Hd
    by (unfold d; destruct (is_dir s dst); auto).
  destruct (H _ Hd) as (He & Hf & Hn). cbv zeta.
  destruct (bool_decide (src = d)); [apply keeps_raise|].
  destruct (is_dir s d || bool_decide (d ∈ locked s)); [apply keeps_raise|].
  apply keeps_bind; [by apply keeps_put_file | intros _; by apply keeps_emit].
Qed.

(** The attributes [backup_dir] and [patches_applied] do not count. *)
Lemma evolves_attributes s s' :
  files s' = files s → dirs s' = dirs s → trace s' = trace s →
  locked s' = locked s → installed s' = installed s →
  reload_error s' = reload_error s → pyhula_path s' = pyhula_path s →
  evolves Pe Pf Pn s s'.
Proof.
  intros Hf Hd Ht Hl Hi Hr Hy. split; try done.
  - exists []. rewrite app_nil_r. split; [done|]. split; [done|].
    intros p t Hin. by apply elem_of_nil in Hin.
  - intros p _. by rewrite Hf.
  - intros p. rewrite Hf. by left.
  - intros p. by rewrite Hf.
  - by rewrite Hd.
Qed.

Lemma keeps_set_backup_dir d :
  keeps root Pe Pf Pn (modify (set_backup_dir d)).
Proof. intros s _. by apply evolves_attributes. Qed.

Lemma keeps_add_patch tag :
  keeps root Pe Pf Pn
    (modify (λ s, set_patches_applied (patches_applied s ++ [tag]) s)).
Proof. intros s _. by apply evolves_attributes. Qed.
End Evolution.

(** * The orchestration *)

Lemma apply_all_found root s :
  installed s = Some root →
  apply_all_patches s = backup_and_patch (found_state root s).
Proof.
  intros H. unfold apply_all_patches, find_pyhula_installation, bind, print, emit,
    modify, get, ret. simpl. rewrite H. reflexivity.
Qed.


Lemma bind_inv {A B} (m : M A) (k : A → M B) s r s' :
  bind m k s = (r, s') →
  (∃ a s1, m s = (Ok a, s1) ∧ k a s1 = (r, s'))
  ∨ (∃ e, m s = (Raise e, s') ∧ r = Raise e).
Proof.
  unfold bind. destruct (m s) as [[a|e] s1].
  - intros H. left. by exists a, s1.
  - intros [= <- <-]. right. by exists e.
Qed.

Lemma bind_inv_ok {A B} (m : M A) (k : A → M B) s b s' :
  bind m k s = (Ok b, s') →
  ∃ a s1, m s = (Ok a, s1) ∧ k a s1 = (Ok b, s').
Proof.
  intros H. apply bind_inv in H as [H | (e & _ & H)]; [done | discriminate].
Qed.

Lemma run_pair {A} (m : M A) s r : (m s).1 = r → m s = (r, (m s).2).
Proof. intros <-. by destruct (m s). Qed.

(** ** Where the files are *)

Lemma target_file_parts root T :
  target_file root T =
  root ++ match T with
          | MavlinkHeader => ["pypack"; "fylo"; "mavlink.py"]
          | UdpBinding => ["pypack"; "system"; "taskcontroller.py"]
          | UserapiConnection => ["userapi.py"]
          end.
Proof. destruct T; unfold target_file, pjoin; simpl; by rewrite <- ?app_assoc. Qed.


(** No target lies in the backup tree. *)
Lemma target_not_below_backup root T : ¬ below (backup_root root) (target_file root T).
Proof.
  unfold below, backup_root, pjoin. rewrite target_file_parts. simpl.
  intros H. apply prefix_app_inv in H. destruct T; by apply prefix_cons_inv_1 in H.
Qed.

Lemma target_file_inj root T T' :
  target_file root T = target_file root T' → T = T'.
Proof.
  rewrite !target_file_parts. intros H. apply app_inv_head in H.
  by destruct T, T'.
Qed.

(** ** The backup step *)

Lemma below_backup_dest root f n d :
  d = backup_root root // f ∨ d = backup_root root // f ++ [n] →
  below (backup_root root) d.
Proof.
  intros [-> | ->]; unfold below, pjoin.
  - by apply prefix_app_r.
  - rewrite <- app_assoc. by apply prefix_app_r.
Qed.

Lemma backup_one_keeps root f :
  keeps root (backup_event root) (below (backup_root root)) (below (backup_root root))
    (backup_one root (backup_root root) f).
Proof.
  unfold backup_one. apply keeps_bind; [apply keeps_exists|].
  intros [|]; [|apply keeps_ret].
  apply keeps_bind; [by apply keeps_makedirs|]. intros _.
  apply keeps_bind; [|intros _; by apply keeps_print].
  apply keeps_copy2. intros d Hd.
  assert (below (backup_root root) d) as Hb
    by (by eapply below_backup_dest).
  done.
Qed.

Lemma create_backup_keeps root :
  keeps root (backup_event root) (below (backup_root root)) (below (backup_root root))
    create_backup.
Proof.
  unfold create_backup. apply keeps_get. intros s0 H0. rewrite H0.
  apply keeps_bind; [apply keeps_set_backup_dir|]. intros _.
  apply keeps_bind; [apply keeps_exists|]. intros ex.
  apply keeps_bind.
  - destruct ex; [apply keeps_ret|].
    apply keeps_bind; [by apply keeps_os_mkdir | intros _; by apply keeps_print].
  - intros _. apply keeps_bind; [|intros _; apply keeps_ret].
    apply keeps_for_each. intros f. apply backup_one_keeps.
Qed.

Lemma copy2_ok src dst s s' :
  copy2 src dst s = (Ok tt, s') →
  ∃ t d, files s !! src = Some t
    ∧ (d = dst ∨ d = dst ++ [name src])
    ∧ (dst ∉ dirs s → d = dst)
    ∧ s' = set_trace (trace s ++ [Copy src d]) (set_files (<[d := t]> (files s)) s).
Proof.
  unfold copy2, bind, get. simpl.
  destruct (files s !! src) as [t|]; [|discriminate].
  set (d := if is_dir s dst then dst ++ [name src] else dst).
  destruct (bool_decide (src = d)); [discriminate|].
  destruct (is_dir s d || bool_decide (d ∈ locked s)); [discriminate|].
  intros [= <-]. exists t, d. split; [done|]. split; [|split; [|done]].
  - unfold d. destruct (is_dir s dst); auto.
  - intros Hd. unfold d, is_dir. by rewrite bool_decide_false.
Qed.

Lemma exists_run p s : exists_ p s = (Ok (is_file s p || is_dir s p), s).
Proof. done. Qed.

Lemma print_run line s : print line s = (Ok tt, say line s).
Proof. done. Qed.





(** ** The patch steps *)

Lemma evolves_weaken (Pe Pe' : Event → Prop) (Pf Pf' Pn Pn' : path → Prop) s s' :
  (∀ e, Pe e → Pe' e) → (∀ p, Pf p → Pf' p) → (∀ p, Pn p → Pn' p) →
  evolves Pe Pf Pn s s' → evolves Pe' Pf' Pn' s s'.
Proof.
  intros He Hf Hn [(evs & Ht & Hp & Hw) Hfr Hnew Hk Hd Hl Hi Hr Hy].
  split; try done.
  - exists evs. split; [done|]. split; [|done].
    eapply Forall_impl; [exact Hp | done].
  - intros p Hp'. apply Hfr. intros H. by apply Hp', Hf.
  - intros p H. destruct (Hnew p H) as [H' | H']; [by left | right; by apply Hn].
Qed.

Lemma evolves_say Pe Pf Pn s line :
  Pe (Print line) → evolves Pe Pf Pn s (say line s).
Proof. intros H. by apply evolves_emit. Qed.

Section ApplyPatchEvolves.
Variables (file : path) (rewrite : text → Rewrite).
Variables (missing already applied notfound tag : string).
Variable Pe : Event → Prop.
Hypothesis Pe_print : ∀ line, Pe (Print line).
Hypothesis Pe_write : ∀ t, Pe (Write file t).

(** A patch method prints, and writes at most its own file, which was
    there before. *)
Lemma apply_patch_evolves s :
  evolves Pe (λ p, p = file) (λ _, False) s
    (apply_patch file rewrite missing already applied notfound tag s).2.
Proof.
  destruct (files s !! file) as [content|] eqn:Hf.
  - destruct (rewrite content) as [| |t] eqn:Hr.
    + rewrite (apply_patch_already _ _ _ _ _ _ _ s content) by done.
      by apply evolves_say.
    + rewrite (apply_patch_notfound _ _ _ _ _ _ _ s content) by done.
      by apply evolves_say.
    + rewrite (apply_patch_patched _ _ _ _ _ _ _ s content t) by done.
      destruct (is_dir s file || bool_decide (file ∈ locked s));
        [apply evolves_refl|].
      simpl. split; try done.
      * exists [Write file t; Print applied]. split; [|split].
        -- simpl. by rewrite <- app_assoc.
        -- repeat constructor; done.
        -- intros p u Hin. apply elem_of_cons in Hin as [[= -> ->] | Hin].
           ++ simpl. by rewrite lookup_insert_eq.
           ++ apply list_elem_of_singleton in Hin. discriminate.
      * intros p Hp. simpl. by rewrite lookup_insert_ne.
      * intros p. simpl. destruct (decide (file = p)) as [<- | Hne].
        -- intros _. left. by rewrite Hf.
        -- rewrite lookup_insert_ne by done. by left.
      * intros p. simpl. destruct (decide (file = p)) as [<- | Hne].
        -- by rewrite lookup_insert_eq.
        -- by rewrite lookup_insert_ne.
  - unfold apply_patch, bind, exists_, get, ret, read_text, is_file.
    simpl. rewrite Hf. rewrite bool_decide_false by (by intros [? ?]). simpl.
    destruct (is_dir s file); simpl.
    + unfold bind, get. rewrite Hf. apply evolves_refl.
    + by apply evolves_say.
Qed.
End ApplyPatchEvolves.

Lemma patch_keeps root T :
  keeps root (patch_event root) (is_target root) (λ _, False) (patch_of T).
Proof.
  intros s Hroot.
  destruct (patch_of_apply T root s Hroot)
    as (missing & already & applied & notfound & tag & ->).
  eapply evolves_weaken; [| | |apply apply_patch_evolves]; simpl.
  - intros e He. exact He.
  - intros p ->. by exists T.
  - done.
  - done.
  - intros t. by exists T.
Qed.

Lemma run_patches_keeps root Pe Pf Pn ps n :
  (∀ line, Pe (Print line)) →
  Forall (λ nf, keeps root Pe Pf Pn nf.2) ps →
  keeps root Pe Pf Pn (run_patches ps n).
Proof.
  intros Hprint Hps. revert n. induction Hps as [|[name f] ps Hf _ IH]; intros n.
  - apply keeps_ret.
  - simpl. apply keeps_bind; [by apply keeps_print|]. intros _.
    apply keeps_bind; [done|]. intros r.
    destruct (succeeded r); [done|].
    apply keeps_bind; [by apply keeps_print | done].
Qed.

Lemma verify_patches_keeps root Pe Pf Pn :
  (∀ line, Pe (Print line)) → keeps root Pe Pf Pn verify_patches.
Proof.
  intros Hprint. unfold verify_patches.
  apply keeps_bind; [by apply keeps_print|]. intros _.
  apply keeps_get. intros s _.
  destruct (reload_error s);
    (apply keeps_bind; [by apply keeps_print | intros _; apply keeps_ret]).
Qed.

Lemma patches_keep root :
  Forall (λ nf : string * M Reason,
            keeps root (patch_event root) (is_target root) (λ _, False) nf.2)
         patches.
Proof.
  unfold patches.
  apply Forall_cons_2; [apply (patch_keeps root MavlinkHeader)|].
  apply Forall_cons_2; [apply (patch_keeps root UdpBinding)|].
  apply Forall_cons_2; [apply (patch_keeps root UserapiConnection)|].
  apply Forall_nil_2.
Qed.

Lemma report_keeps root Pe Pf Pn n :
  (∀ line, Pe (Print line)) → keeps root Pe Pf Pn (report n).
Proof.
  intros Hprint. unfold report. apply keeps_bind.
  { destruct (0 <? n)%nat; [|apply keeps_ret].
    apply keeps_bind; [by apply verify_patches_keeps | intros _; apply keeps_ret]. }
  intros _. apply keeps_bind; [by apply keeps_print|]. intros _.
  apply keeps_get. intros s0 _.
  apply keeps_bind; [by apply keeps_print|]. intros _.
  apply keeps_bind; [by apply keeps_print|]. intros _.
  apply keeps_bind.
  { destruct (n =? length patches)%nat; [|by apply keeps_print].
    apply keeps_bind; [by apply keeps_print | intros _; by apply keeps_print]. }
  intros _. apply keeps_bind; [by apply keeps_print|]. intros _.
  apply keeps_bind; [by apply keeps_print|]. intros _. apply keeps_ret.
Qed.

Lemma patch_and_report_keeps root :
  keeps root (patch_event root) (is_target root) (λ _, False) patch_and_report.
Proof.
  assert (∀ line, patch_event root (Print line)) as Hprint by done.
  unfold patch_and_report.
  apply keeps_bind; [apply run_patches_keeps; [done | apply patches_keep]|].
  intros n. by apply report_keeps.
Qed.







(** At the installation of the fixture the MAVLink file is copied into
    the backup tree and then written. *)
Example demo_world_backup_then_write :
  let evs := trace (apply_all_patches demo_world).2 in
  copied evs = [target_file demo_root MavlinkHeader; target_file demo_root UdpBinding]
  ∧ written evs = [target_file demo_root MavlinkHeader].
Proof. split; vm_compute; reflexivity. Qed.

(** ** The loop over the patches *)

Lemma run_patches_attempts ps n s m s' :
  run_patches ps n s = (Ok m, s') ↔
  ∃ rs, attempts ps s rs s' ∧ m = n + successes rs.
Proof.
  revert n s. induction ps as [|[name f] ps IH]; intros n s.
  - simpl. split.
    + intros [= <- <-]. exists []. split; [constructor | unfold successes; simpl; lia].
    + intros (rs & Ha & ->). inversion Ha; subst.
      unfold successes, ret. simpl. do 2 f_equal. lia.
  - simpl. split.
    + intros H. apply bind_inv_ok in H as ([] & s0 & H0 & H).
      rewrite print_run in H0. injection H0 as <-.
      apply bind_inv_ok in H as (r & s1 & H1 & H).
      destruct (succeeded r) eqn:Hr.
      * apply IH in H as (rs & Ha & ->). exists (r :: rs). split.
        -- econstructor; [done|]. by rewrite Hr.
        -- unfold successes. rewrite filter_cons, decide_True by done.
           simpl. lia.
      * apply bind_inv_ok in H as ([] & s2 & H2 & H).
        rewrite print_run in H2. injection H2 as <-.
        apply IH in H as (rs & Ha & ->). exists (r :: rs). split.
        -- econstructor; [done|]. by rewrite Hr.
        -- unfold successes. rewrite filter_cons, decide_False by (by rewrite Hr).
           done.
    + intros (rs & Ha & ->). inversion Ha as [|? ? ? ? r s1 rs' ? H1 Hrest]; subst.
      unfold bind at 1. rewrite print_run. unfold bind at 1. rewrite H1.
      destruct (succeeded r) eqn:Hr.
      * apply IH. exists rs'. split; [done|].
        unfold successes. rewrite filter_cons, decide_True by done. simpl. lia.
      * unfold bind at 1. rewrite print_run. apply IH. exists rs'. split; [done|].
        unfold successes. by rewrite filter_cons, decide_False by (by rewrite Hr).
Qed.


Lemma create_backup_true root s b s' :
  pyhula_path s = Some root → create_backup s = (Ok b, s') → b = true.
Proof.
  intros Hroot H. unfold create_backup in H.
  unfold bind at 1, get in H. rewrite Hroot in H.
  apply bind_inv_ok in H as (? & ? & _ & H).
  apply bind_inv_ok in H as (? & ? & _ & H).
  apply bind_inv_ok in H as (? & ? & _ & H).
  apply bind_inv_ok in H as (? & ? & _ & H).
  by injection H as <-.
Qed.

Lemma report_result n s b s' : report n s = (Ok b, s') → b = (0 <? n).
Proof.
  intros H. unfold report in H.
  do 8 (apply bind_inv_ok in H as (? & ? & _ & H)).
  by injection H as <-.
Qed.





Example demo_world2_outcomes :
  let s2 := (create_backup (found_state demo_root demo_world2)).2 in
  let a1 := patch_mavlink_header (say (nl +:+ "Applying MAVLink Header Fix...") s2) in
  let a2 := patch_udp_binding
              (say (nl +:+ "Applying UDP Binding Fix...")
                 (say "✗ Failed to apply MAVLink Header Fix" a1.2)) in
  let a3 := patch_userapi_connection
              (say (nl +:+ "Applying UserApi Connection Fix...")
                 (say "✗ Failed to apply UDP Binding Fix" a2.2)) in
  (a1.1, a2.1, a3.1) = (Ok FILE_MISSING, Ok PATTERN_NOT_FOUND, Ok APPLIED)
  ∧ (apply_all_patches demo_world2).1 = Ok true.
Proof. split; vm_compute; reflexivity. Qed.

(** * A patched file stays as it is *)

Section Patched.
Variables (root : path) (T : TargetId) (c : text).
Hypothesis marked : contains (marker_of T) c = true.

Local Abbreviation J := (holds root T c).

Lemma holds_say s line : J s → J (say line s).
Proof. done. Qed.

Lemma holds_evolves Pe Pf Pn s s' :
  ¬ Pf (target_file root T) → evolves Pe Pf Pn s s' → J s → J s'.
Proof.
  intros Hf Hev (H1 & H2 & H3). split; [|split].
  - by rewrite (ev_path _ _ _ _ _ Hev).
  - by rewrite (ev_installed _ _ _ _ _ Hev).
  - by rewrite (ev_frame _ _ _ _ _ Hev).
Qed.

Lemma patch_of_holds T' s : J s → J (patch_of T' s).2.
Proof.
  intros Hs. pose proof Hs as (Hroot & Hinst & Hfile).
  destruct (patch_of_apply T' root s Hroot)
    as (missing & already & applied & notfound & tag & ->).
  destruct (decide (T' = T)) as [-> | Hne].
  - rewrite (apply_patch_already _ _ _ _ _ _ _ s c);
      [done | done | by apply rewrite_already].
  - eapply (holds_evolves (λ _, True) (λ p, p = target_file root T'));
      [|by apply apply_patch_evolves|done].
    intros H. by apply target_file_inj in H.
Qed.

Lemma run_patches_holds ps n s :
  Forall (λ nf : string * M Reason, ∀ s, J s → J (nf.2 s).2) ps →
  J s → J (run_patches ps n s).2.
Proof.
  intros Hps. revert n s. induction Hps as [|[name f] ps Hf _ IH]; intros n s Hs.
  - done.
  - simpl. unfold bind at 1. rewrite print_run. unfold bind at 1.
    pose proof (Hf _ (holds_say s (nl +:+ "Applying " +:+ name +:+ "...") Hs)) as H1.
    simpl in H1.
    destruct (f (say (nl +:+ "Applying " +:+ name +:+ "...") s)) as [[r|e] s1];
      [|done].
    simpl in H1. destruct (succeeded r); [by apply IH|].
    unfold bind at 1. rewrite print_run. by apply IH, holds_say.
Qed.

Lemma patches_hold :
  Forall (λ nf : string * M Reason, ∀ s, J s → J (nf.2 s).2) patches.
Proof.
  unfold patches.
  apply Forall_cons_2; [apply (patch_of_holds MavlinkHeader)|].
  apply Forall_cons_2; [apply (patch_of_holds UdpBinding)|].
  apply Forall_cons_2; [apply (patch_of_holds UserapiConnection)|].
  apply Forall_nil_2.
Qed.

(** A whole pass leaves the file as it is, whatever the pass returns. *)
Lemma apply_all_holds s :
  installed s = Some root → files s !! target_file root T = Some c →
  J (apply_all_patches s).2.
Proof.
  intros Hinst Hfile. rewrite (apply_all_found root) by done.
  assert (J (found_state root s)) as H1 by done.
  pose proof (create_backup_keeps root _ (proj1 H1)) as HevB.
  unfold backup_and_patch, bind at 1.
  destruct (create_backup (found_state root s)) as [[backed_up|e] s2].
  - simpl in HevB.
    assert (J s2) as H2.
    { eapply holds_evolves; [|exact HevB|exact H1].
      apply target_not_below_backup. }
    destruct backed_up; cbn [negb].
    + unfold patch_and_report, bind at 1.
      pose proof (run_patches_holds patches 0 s2 patches_hold H2) as H3.
      destruct (run_patches patches 0 s2) as [[n|e] s3]; [|done].
      simpl in H3.
      eapply (holds_evolves (λ _, True) (λ _, False) (λ _, False));
        [|apply (report_keeps root); [done | apply H3]|done].
      tauto.
    + unfold bind. rewrite print_run. by apply holds_say.
  - simpl in HevB. eapply holds_evolves; [|exact HevB|exact H1].
    apply target_not_below_backup.
Qed.

Lemma rerun_holds n s :
  installed s = Some root → files s !! target_file root T = Some c →
  files (rerun n s) !! target_file root T = Some c.
Proof.
  revert s. induction n as [|n IH]; intros s Hinst Hfile; [done|].
  simpl. destruct (apply_all_holds s Hinst Hfile) as (_ & H2 & H3).
  by apply IH.
Qed.
End Patched.

(** Idempotence for a run given with its final state. *)
Lemma apply_twice_run (T : TargetId) (root : path) (s s' : State) :
  pyhula_path s = Some root →
  patch_of T s = (Ok APPLIED, s') →
  (∃ line, patch_of T s' = (Ok ALREADY_APPLIED, say line s'))
  ∧ (installed s' = Some root →
     ∀ n, files (rerun n s') !! target_file root T = files s' !! target_file root T).
Proof.
  intros Hroot Hrun.
  destruct (patch_of_apply T root s Hroot)
    as (missing & already & applied & notfound & tag & Heq).
  rewrite Heq in Hrun.
  apply apply_patch_applied_inv in Hrun as (content & t & Hf & Hr & ->).
  assert (pyhula_path (patched_state (target_file root T) applied tag t s) = Some root)
    as Hroot' by done.
  assert (files (patched_state (target_file root T) applied tag t s)
            !! target_file root T = Some t) as Hf'
    by (simpl; by rewrite lookup_insert_eq).
  pose proof (rewrite_marks T content t Hr) as Hal.
  split.
  - destruct (patch_of_apply T root _ Hroot')
      as (missing' & already' & applied' & notfound' & tag' & ->).
    exists already'. by apply (apply_patch_already _ _ _ _ _ _ _ _ t).
  - intros Hinst n. rewrite Hf'.
    apply rerun_holds; [by apply rewrite_already_inv | done | done].
Qed.

(** C2.  When a patch method has applied its patch, the same method run
    again on the state it has left reports that the patch is already
    applied and changes nothing but the console; and however many times the
    whole patch pass is run after that, the file keeps the text that was
    written. *)
Theorem apply_twice_idempotent (T : TargetId) (root : path) (s : State) :
  pyhula_path s = Some root →
  (patch_of T s).1 = Ok APPLIED →
  let s' := (patch_of T s).2 in
  (∃ line, patch_of T s' = (Ok ALREADY_APPLIED, say line s'))
  ∧ (installed s' = Some root →
     ∀ n, files (rerun n s') !! target_file root T = files s' !! target_file root T).
Proof.
  intros Hroot Hrun s'. apply (apply_twice_run T root s s' Hroot).
  by apply run_pair.
Qed.

(** C2 at the MAVLink file of the demo installation. *)
Lemma apply_twice_idempotent_witness :
  let s' := (patch_of MavlinkHeader demo_found).2 in
  (∃ line, patch_of MavlinkHeader s' = (Ok ALREADY_APPLIED, say line s'))
  ∧ (installed s' = Some demo_root →
     ∀ n, files (rerun n s') !! target_file demo_root MavlinkHeader
          = files s' !! target_file demo_root MavlinkHeader).
Proof.
  refine (apply_twice_idempotent MavlinkHeader demo_root demo_found _ _).
  - reflexivity.
  - vm_compute. reflexivity.
Defined.

(** * The restore mode *)

(** C9.  [restore_backup] on a patcher whose [backup_dir] is still [None]
    prints that no backup directory was found and returns [False], and
    nothing but the console has changed, whatever the file system holds.
    That is the case in the restore mode of the command line, where the
    patcher is new and only looks for the installation before it
    restores. *)
Theorem restore_mode_restores_nothing (s : State) (verify : bool) :
  (backup_dir s = None →
   restore_backup s = (Ok false, say "No backup directory found" s))
  ∧ ∃ s1 lines,
      (new_patcher ;; find_pyhula_installation)%prog s
        = (Ok (bool_decide (is_Some (installed s))), s1)
      ∧ backup_dir s1 = None
      ∧ main true verify s = (Ok tt, say "No backup directory found" s1)
      ∧ files s1 = files s
      ∧ dirs s1 = dirs s
      ∧ trace s1 = trace s ++ (Print <$> lines).
Proof.
  split.
  - intros H. unfold restore_backup, bind, get, print, emit, modify, ret.
    simpl. by rewrite H.
  - unfold main, new_patcher, find_pyhula_installation, restore_backup,
      bind, modify, get, print, emit, ret. simpl.
    destruct (installed s) as [root|] eqn:Hinst; simpl; rewrite ?Hinst.
    + eexists _, ["Found PyHula at: " +:+ str_of_path root]. by repeat split.
    + eexists _, ["PyHula not found. Please install PyHula first."].
      by repeat split.
Qed.

(** C9 at a new patcher beside a backup tree that is on the disk. *)
Lemma restore_mode_restores_nothing_witness :
  restore_backup (set_backup_dir None notes_world)
  = (Ok false, say "No backup directory found" (set_backup_dir None notes_world)).
Proof.
  refine (proj1 (restore_mode_restores_nothing
                   (set_backup_dir None notes_world) false) _).
  reflexivity.
Defined.

(** * Restoring from the backup *)

Lemma add_dir_run q s :
  add_dir q s = (Ok tt, set_trace (trace s ++ [Mkdir q]) (set_dirs ({[q]} ∪ dirs s) s)).
Proof. done. Qed.

(** [mkdir(parents=True, exist_ok=True)], when it returns, has made the
    directory. *)
Lemma makedirs_from_made n rest p s s' :
  makedirs_from n rest p s = (Ok tt, s') →
  length p = n + length rest → rest ≠ [] →
  p ∈ dirs s'.
Proof.
  revert n s. induction rest as [|c rest IH]; intros n s Hrun Hlen Hne; [done|].
  simpl in Hrun. unfold bind at 1, get in Hrun.
  apply bind_inv_ok in Hrun as ([] & s1 & H1 & Hrun).
  destruct rest as [|c' rest].
  - simpl in Hrun. injection Hrun as <-.
    assert (take (S n) p = p) as Hp by (apply take_ge; simpl in Hlen; lia).
    rewrite Hp in H1.
    destruct (is_dir s p) eqn:Hd.
    + injection H1 as <-. unfold is_dir in Hd. by apply bool_decide_eq_true in Hd.
    + destruct (is_file s p); [discriminate|].
      destruct (bool_decide (p ∈ locked s)); [discriminate|].
      rewrite add_dir_run in H1. injection H1 as <-. simpl. set_solver.
  - apply (IH (S n) s1); [done | simpl in *; lia | done].
Qed.

Lemma mkdir_parents_made p s s' :
  mkdir_parents p s = (Ok tt, s') → p ≠ [] → p ∈ dirs s'.
Proof.
  intros H Hne. by apply (makedirs_from_made 0 p p s s').
Qed.

(** Directories are made and nothing else. *)
Lemma mkdir_parents_keeps root p :
  keeps root (λ e, ∃ q, e = Mkdir q) (λ _, False) (λ _, False) (mkdir_parents p).
Proof. apply keeps_makedirs. intros q. by exists q. Qed.

Lemma copied_mkdirs evs : Forall (λ e, ∃ q, e = Mkdir q) evs → copied evs = [].
Proof. induction 1 as [|e evs [q ->] _ IH]; [done | by simpl]. Qed.

Lemma copied_app e1 e2 : copied (e1 ++ e2) = copied e1 ++ copied e2.
Proof.
  induction e1 as [|e e1 IH]; [done|]. destruct e; simpl; by rewrite ?IH.
Qed.

(** One turn of the loop of [restore_backup], when it returns. *)
Lemma restore_one_ok root bdir b s s' :
  pyhula_path s = Some root →
  restore_one bdir b s = (Ok tt, s') →
  ∃ t d evs,
    files s !! b = Some t
    ∧ (d = restore_target root bdir b
       ∨ d = restore_target root bdir b ++ [name b])
    ∧ (restore_target root bdir b ∉ dirs s' → d = restore_target root bdir b)
    ∧ files s' = <[d := t]> (files s)
    ∧ dirs s ⊆ dirs s'
    ∧ (parent (restore_target root bdir b) ≠ [] →
       parent (restore_target root bdir b) ∈ dirs s')
    ∧ pyhula_path s' = Some root
    ∧ trace s' = trace s ++ evs
    ∧ copied evs = [b].
Proof.
  intros Hroot Hrun. unfold restore_one in Hrun.
  unfold bind at 1, get_pyhula_path, bind at 1, get in Hrun.
  rewrite Hroot in Hrun. simpl in Hrun.
  fold (restore_target root bdir b) in Hrun.
  apply bind_inv_ok in Hrun as ([] & s1 & H1 & Hrun).
  apply bind_inv_ok in Hrun as ([] & s2 & H2 & Hrun).
  rewrite print_run in Hrun. injection Hrun as <-.
  pose proof (mkdir_parents_keeps root (parent (restore_target root bdir b)) s Hroot)
    as Hev.
  rewrite H1 in Hev. simpl in Hev.
  destruct (ev_events _ _ _ _ _ Hev) as (e1 & He1 & Hp1 & _).
  assert (files s1 = files s) as Hfiles.
  { apply map_eq. intros p. apply (ev_frame _ _ _ _ _ Hev). tauto. }
  apply copy2_ok in H2 as (t & d & Ht & Hd & Hdir & ->).
  exists t, d, (e1 ++ [Copy b d; Print ("Restored: " +:+
                                         String.concat "/" (drop (length bdir) b))]).
  simpl. rewrite Hfiles in *.
  split; [done|]. split; [done|]. split.
  { intros Hn. apply Hdir. done. }
  split; [done|]. split; [apply (ev_dirs _ _ _ _ _ Hev)|]. split.
  { intros Hne. by eapply mkdir_parents_made. }
  split; [by rewrite (ev_path _ _ _ _ _ Hev)|]. split.
  { rewrite He1. by rewrite <- !app_assoc. }
  rewrite copied_app, copied_mkdirs by done. done.
Qed.

Lemma below_split bdir b : below bdir b → b = bdir ++ drop (length bdir) b.
Proof. intros [k ->]. by rewrite drop_app_length. Qed.

Lemma restore_target_inj root bdir b b' :
  below bdir b → below bdir b' →
  restore_target root bdir b = restore_target root bdir b' → b = b'.
Proof.
  intros Hb Hb' H. unfold restore_target in H. apply app_inv_head in H.
  rewrite (below_split bdir b Hb), (below_split bdir b' Hb'). by rewrite H.
Qed.

(** A copy leaves what is at the place of a directory. *)
Lemma copy2_at_dir src dst s s' p :
  copy2 src dst s = (Ok tt, s') → p ∈ dirs s → files s' !! p = files s !! p.
Proof.
  unfold copy2, bind, get. simpl.
  destruct (files s !! src) as [t|]; [|discriminate].
  set (d := if is_dir s dst then dst ++ [name src] else dst).
  destruct (bool_decide (src = d)); [discriminate|].
  destruct (is_dir s d) eqn:Hd; [discriminate|].
  destruct (bool_decide (d ∈ locked s)); [discriminate|].
  intros [= <-] Hp. simpl. apply lookup_insert_ne. intros ->.
  unfold is_dir in Hd. by apply bool_decide_eq_false in Hd.
Qed.

Lemma restore_one_at_dir root bdir b s s' p :
  pyhula_path s = Some root →
  restore_one bdir b s = (Ok tt, s') →
  p ∈ dirs s → files s' !! p = files s !! p.
Proof.
  intros Hroot Hrun Hp. unfold restore_one in Hrun.
  unfold bind at 1, get_pyhula_path, bind at 1, get in Hrun.
  rewrite Hroot in Hrun. simpl in Hrun.
  apply bind_inv_ok in Hrun as ([] & s1 & H1 & Hrun).
  apply bind_inv_ok in Hrun as ([] & s2 & H2 & Hrun).
  rewrite print_run in Hrun. injection Hrun as <-.
  pose proof (mkdir_parents_keeps root (parent (root ++ drop (length bdir) b)) s Hroot)
    as Hev.
  rewrite H1 in Hev. simpl in Hev.
  change (files (say _ s2)) with (files s2).
  rewrite (copy2_at_dir _ _ _ _ p H2) by (by apply (ev_dirs _ _ _ _ _ Hev)).
  apply (ev_frame _ _ _ _ _ Hev). tauto.
Qed.

(** The loop of [restore_backup], when it returns. *)
Lemma restore_loop root bdir L s s' :
  pyhula_path s = Some root →
  for_each L (restore_one bdir) s = (Ok tt, s') →
  dirs s ⊆ dirs s'
  ∧ pyhula_path s' = Some root
  ∧ (∃ evs, trace s' = trace s ++ evs ∧ copied evs = L)
  ∧ (∀ b, b ∈ L → is_Some (files s !! b) ∨ b ∈ dirs s → is_Some (files s !! b))
  ∧ (∀ b, b ∈ L → parent (restore_target root bdir b) ≠ [] →
       parent (restore_target root bdir b) ∈ dirs s')
  ∧ (NoDup L → Forall (below bdir) L →
     (∀ b, b ∈ L → ¬ below bdir (restore_target root bdir b)
                   ∧ restore_target root bdir b ∉ dirs s') →
     (∀ p, (∀ b, b ∈ L → p ≠ restore_target root bdir b) →
        files s' !! p = files s !! p)
     ∧ ∀ b, b ∈ L → is_Some (files s !! b)
                    ∧ files s' !! restore_target root bdir b = files s !! b).
Proof.
  revert s. induction L as [|b L IH]; intros s Hroot Hrun.
  - injection Hrun as <-. split; [done|]. split; [done|]. split.
    { exists []. by rewrite app_nil_r. }
    split; [intros b Hb; by apply elem_of_nil in Hb|].
    split; [intros b Hb; by apply elem_of_nil in Hb|].
    intros _ _ _. split; [done|]. intros b Hb. by apply elem_of_nil in Hb.
  - simpl in Hrun. apply bind_inv_ok in Hrun as ([] & s1 & H1 & Hrun).
    destruct (restore_one_ok root bdir b s s1 Hroot H1)
      as (t & d & e1 & Ht & Hd & Hdir & Hfiles & Hdirs & Hpar & Hroot1 & Htr & Hcp).
    destruct (IH s1 Hroot1 Hrun)
      as (Hdirs' & Hroot' & (e2 & Htr' & Hcp') & Hsrc' & Hpar' & Hcond).
    split; [by trans (dirs s1)|]. split; [done|]. split.
    { exists (e1 ++ e2). rewrite Htr', Htr, app_assoc. split; [done|].
      by rewrite copied_app, Hcp, Hcp'. }
    split.
    { intros x Hx [Hsome | Hdir']; [done|].
      apply elem_of_cons in Hx as [-> | Hx]; [by rewrite Ht|].
      rewrite <- (restore_one_at_dir root bdir b s s1 x Hroot H1 Hdir').
      apply Hsrc'; [done|]. right. by apply Hdirs. }
    split.
    { intros x Hx Hne. apply elem_of_cons in Hx as [-> | Hx].
      - by apply Hdirs', Hpar.
      - by apply Hpar'. }
    intros Hnd Hbelow Hout.
    apply NoDup_cons in Hnd as [Hnotin Hnd].
    apply Forall_cons in Hbelow as [Hb Hbelow].
    destruct (Hcond Hnd Hbelow) as [Hframe Hcont].
    { intros x Hx. apply Hout. by right. }
    assert (d = restore_target root bdir b) as ->.
    { apply Hdir. intros Hin. apply (proj2 (Hout b ltac:(by left))).
      by apply Hdirs'. }
    split.
    + intros p Hp. rewrite Hframe by (intros x Hx; apply Hp; by right).
      rewrite Hfiles. apply lookup_insert_ne. intros Heq. by apply (Hp b); [left|].
    + intros x Hx. apply elem_of_cons in Hx as [-> | Hx].
      * split; [by rewrite Ht|]. rewrite Hframe.
        -- by rewrite Hfiles, lookup_insert_eq.
        -- intros x Hx Heq. apply restore_target_inj in Heq; [|done|].
           ++ by subst x.
           ++ by apply (proj1 (Forall_forall _ _) Hbelow).
      * destruct (Hcont x Hx) as [Hsome Heq].
        assert (files s1 !! x = files s !! x) as Hsame.
        { rewrite Hfiles. apply lookup_insert_ne. intros <-.
          apply (proj1 (Hout b ltac:(by left))).
          by apply (proj1 (Forall_forall _ _) Hbelow). }
        rewrite Hsame in *. done.
Qed.

Lemma list_by_rank_perm rank x l : list_by_rank rank x l ≡ₚ x :: l.
Proof.
  induction l as [|y l IH]; [done|]. simpl.
  destruct (rank x <=? rank y)%nat; [done|]. rewrite IH. apply Permutation_swap.
Qed.

Lemma sorted_by_rank_perm rank l : foldr (list_by_rank rank) [] l ≡ₚ l.
Proof.
  induction l as [|x l IH]; [done|]. simpl.
  by rewrite list_by_rank_perm, IH.
Qed.

(** The walk finds the entries with a name in [.py] below the directory,
    whatever the order of the listing. *)
Lemma elem_of_rglob_py s bdir b : b ∈ rglob_py s bdir ↔ py_entry s bdir b.
Proof.
  unfold rglob_py, py_entry, below.
  rewrite sorted_by_rank_perm, list_elem_of_filter, elem_of_elements,
    elem_of_union, elem_of_dom.
  split.
  - intros [(H1 & H2 & H3) H4]. apply Is_true_true in H3. done.
  - intros (H1 & H2 & H3 & H4). apply Is_true_true in H3. done.
Qed.

Lemma rglob_py_below s bdir : Forall (below bdir) (rglob_py s bdir).
Proof.
  apply Forall_forall. intros q Hq. by apply elem_of_rglob_py in Hq as [H _].
Qed.

Lemma rglob_py_nodup s bdir : NoDup (rglob_py s bdir).
Proof.
  unfold rglob_py. rewrite sorted_by_rank_perm.
  apply NoDup_filter, NoDup_elements.
Qed.

(** The restore for a run given with its final state. *)
Lemma restore_copies_back_run (s : State) (root bdir : path) :
  backup_dir s = Some bdir →
  pyhula_path s = Some root →
  (is_file s bdir || is_dir s bdir = false →
     restore_backup s = (Ok false, say "No backup directory found" s))
  ∧ (is_file s bdir || is_dir s bdir = true → ∀ r s',
     restore_backup s = (Ok r, s') →
     r = true
     ∧ (∃ evs, trace s' = trace s ++ evs
               ∧ NoDup (copied evs)
               ∧ (∀ b, py_entry s bdir b → b ∈ copied evs)
               ∧ (∀ b, b ∈ copied evs →
                    below bdir b ∧ bdir ≠ b ∧ is_py (name b) = true))
     ∧ (∀ b, py_entry s bdir b →
          is_Some (files s !! b)
          ∧ (parent (restore_target root bdir b) ≠ [] →
             parent (restore_target root bdir b) ∈ dirs s'))
     ∧ ((∀ b, py_entry s bdir b →
            ¬ below bdir (restore_target root bdir b)
            ∧ restore_target root bdir b ∉ dirs s') →
        ∀ b, py_entry s bdir b →
          files s' !! restore_target root bdir b = files s !! b)).
Proof.
  intros Hb Hroot. split.
  - intros Hex. unfold restore_backup, bind at 1, get. rewrite Hb.
    unfold bind at 1. rewrite exists_run, Hex. done.
  - intros Hex r s' Hrun. unfold restore_backup, bind at 1, get in Hrun.
    rewrite Hb in Hrun. unfold bind at 1 in Hrun.
    rewrite exists_run, Hex in Hrun. cbn [negb] in Hrun.
    unfold bind at 1 in Hrun. rewrite print_run in Hrun.
    apply bind_inv_ok in Hrun as ([] & s1 & Hloop & Hrun).
    unfold bind in Hrun. rewrite print_run in Hrun. injection Hrun as <- <-.
    set (s0 := say "Restoring original PyHula files..." s) in *.
    destruct (restore_loop root bdir _ s0 s1 Hroot Hloop)
      as (_ & _ & (evs & Htr & Hcp) & Hsrc & Hpar & Hcond).
    split; [done|]. split; [|split].
    + exists (Print "Restoring original PyHula files..." :: evs
              ++ [Print "✓ Original files restored"]).
      assert (copied (Print "Restoring original PyHula files..." :: evs
                      ++ [Print "✓ Original files restored"])
              = rglob_py s bdir) as ->.
      { simpl. rewrite copied_app, Hcp. simpl. by rewrite app_nil_r. }
      split; [|split; [|split]].
      * simpl. rewrite Htr. simpl. by rewrite <- !app_assoc.
      * apply rglob_py_nodup.
      * intros b. apply elem_of_rglob_py.
      * intros b Hin. apply elem_of_rglob_py in Hin as (H1 & H2 & H3 & _). done.
    + intros b Hin. pose proof Hin as (_ & _ & _ & Hor).
      apply elem_of_rglob_py in Hin. split.
      * by apply (Hsrc b).
      * intros Hne. by apply Hpar.
    + intros Hout b Hin. apply elem_of_rglob_py in Hin.
      destruct Hcond as [_ Hcont];
        [apply rglob_py_nodup | apply rglob_py_below | |].
      { intros b0 Hb0. by apply Hout, elem_of_rglob_py. }
      by apply Hcont.
Qed.

(** C6, as the code has it.  On a patcher that has made its backup,
    [restore_backup] returns [False], with a line on the console, only
    when the backup directory is not there.  Otherwise, when it returns,
    it returns [True] and has copied, each once and whatever the order in
    which the file system lists them, every entry that was below the backup
    directory with a name that ends in [.py], and nothing that is not below
    the backup directory or has another name; each of these entries is a
    file, and the parent directory of the place it is restored to is
    there.
    Where the places restored to lie outside the backup tree and are no
    directories, each holds what its backup file held, whatever it held
    before. *)
Theorem restore_copies_back (s : State) (root bdir : path) :
  backup_dir s = Some bdir →
  pyhula_path s = Some root →
  let s' := (restore_backup s).2 in
  (is_file s bdir || is_dir s bdir = false →
     restore_backup s = (Ok false, say "No backup directory found" s))
  ∧ (is_file s bdir || is_dir s bdir = true → ∀ r,
     (restore_backup s).1 = Ok r →
     r = true
     ∧ (∃ evs, trace s' = trace s ++ evs
               ∧ NoDup (copied evs)
               ∧ (∀ b, py_entry s bdir b → b ∈ copied evs)
               ∧ (∀ b, b ∈ copied evs →
                    below bdir b ∧ bdir ≠ b ∧ is_py (name b) = true))
     ∧ (∀ b, py_entry s bdir b →
          is_Some (files s !! b)
          ∧ (parent (restore_target root bdir b) ≠ [] →
             parent (restore_target root bdir b) ∈ dirs s'))
     ∧ ((∀ b, py_entry s bdir b →
            ¬ below bdir (restore_target root bdir b)
            ∧ restore_target root bdir b ∉ dirs s') →
        ∀ b, py_entry s bdir b →
          files s' !! restore_target root bdir b = files s !! b)).
Proof.
  intros Hb Hroot s'.
  destruct (restore_copies_back_run s root bdir Hb Hroot) as [H1 H2].
  split; [done|]. intros Hex r Hr. apply (H2 Hex r s'). by apply run_pair.
Qed.

(** C6 at a backup tree with two Python files, which the file system lists
    with the deeper one first, and a file of notes: the two Python files
    are copied over the files of the installation. *)
Lemma restore_copies_back_witness :
  let bdir := demo_root ++ ["original_backup"] in
  let s' := (restore_backup listed_world).2 in
  (copied (trace s')
   = [bdir ++ ["pypack"; "fylo"; "mavlink.py"]; bdir ++ ["userapi.py"]]
   ∧ files s' !! (demo_root ++ ["userapi.py"]) = Some (lit "original")
   ∧ files s' !! (demo_root ++ ["pypack"; "fylo"; "mavlink.py"])
     = Some (lit "header"))
  ∧ true = true
  ∧ (∃ evs, trace s' = trace listed_world ++ evs
            ∧ NoDup (copied evs)
            ∧ (∀ b, py_entry listed_world bdir b → b ∈ copied evs)
            ∧ (∀ b, b ∈ copied evs →
                 below bdir b ∧ bdir ≠ b ∧ is_py (name b) = true))
  ∧ (∀ b, py_entry listed_world bdir b →
       is_Some (files listed_world !! b)
       ∧ (parent (restore_target demo_root bdir b) ≠ [] →
          parent (restore_target demo_root bdir b) ∈ dirs s'))
  ∧ ((∀ b, py_entry listed_world bdir b →
         ¬ below bdir (restore_target demo_root bdir b)
         ∧ restore_target demo_root bdir b ∉ dirs s') →
     ∀ b, py_entry listed_world bdir b →
       files s' !! restore_target demo_root bdir b = files listed_world !! b).
Proof.
  split; [repeat split; vm_compute; reflexivity|].
  refine (proj2 (restore_copies_back listed_world demo_root
                   (demo_root ++ ["original_backup"]) _ _) _ true _).
  - reflexivity.
  - reflexivity.
  - vm_compute. reflexivity.
  - vm_compute. reflexivity.
Defined.

(** C6 as the specification words it fails: a file of the backup tree
    whose name does not end in [.py] is not walked.  The restore returns
    [True], has put back the Python file, and has left the other file
    where it was. *)
Lemma restore_skips_other_files_counterexample :
  let bdir := demo_root ++ ["original_backup"] in
  let s' := (restore_backup notes_world).2 in
  files notes_world !! (bdir ++ ["notes.txt"]) = Some (lit "keep me")
  ∧ below bdir (bdir ++ ["notes.txt"])
  ∧ is_py (name (bdir ++ ["notes.txt"])) = false
  ∧ (restore_backup notes_world).1 = Ok true
  ∧ copied (trace s') = [bdir ++ ["userapi.py"]]
  ∧ files s' !! (demo_root ++ ["userapi.py"]) = Some (lit "original")
  ∧ files s' !! (demo_root ++ ["notes.txt"]) = None.
Proof.
  intros bdir s'.
  split; [vm_compute; reflexivity|].
  split; [by exists ["notes.txt"]|].
  split; [vm_compute; reflexivity|].
  split; [vm_compute; reflexivity|]. split; [vm_compute; reflexivity|].
  split; vm_compute; reflexivity.
Qed.

(** * Directories and the backup reference *)

Section Tidy.
Variable Pd : path → Prop.

Lemma settled_refl s : settled Pd s s.
Proof. split; [by left | done]. Qed.

Lemma settled_trans s1 s2 s3 :
  settled Pd s1 s2 → settled Pd s2 s3 → settled Pd s1 s3.
Proof.
  intros [Hd1 Hb1] [Hd2 Hb2]. split; [|by rewrite Hb2].
  intros q Hq. destruct (Hd2 q Hq) as [H | H]; [by apply Hd1 | by right].
Qed.

(** A step that leaves the directories and [backup_dir] as they are. *)
Lemma settled_same s s' :
  dirs s' = dirs s → backup_dir s' = backup_dir s → settled Pd s s'.
Proof. intros Hd Hb. split; [|done]. intros q. rewrite Hd. by left. Qed.

Lemma tidy_ret {A} (a : A) : tidy Pd (ret a).
Proof. intros s. apply settled_refl. Qed.

Lemma tidy_raise {A} e : tidy Pd (@raise A e).
Proof. intros s. apply settled_refl. Qed.

Lemma tidy_bind {A B} (m : M A) (k : A → M B) :
  tidy Pd m → (∀ a, tidy Pd (k a)) → tidy Pd (bind m k).
Proof.
  intros Hm Hk s. unfold bind. specialize (Hm s).
  destruct (m s) as [[a|e] s1]; simpl in *; [|done].
  eapply settled_trans; [done | apply Hk].
Qed.

Lemma tidy_get {A} (k : State → M A) :
  (∀ s0, tidy Pd (k s0)) → tidy Pd (bind get k).
Proof. intros H s. unfold bind, get. apply H. Qed.

Lemma tidy_emit e : tidy Pd (emit e).
Proof. intros s. by apply settled_same. Qed.

Lemma tidy_print line : tidy Pd (print line).
Proof. apply tidy_emit. Qed.

Lemma tidy_for_each {A} (l : list A) (body : A → M unit) :
  Forall (λ x, tidy Pd (body x)) l → tidy Pd (for_each l body).
Proof.
  induction 1 as [|x l Hx _ IH]; simpl; [apply tidy_ret|].
  apply tidy_bind; [apply Hx | done].
Qed.

Lemma tidy_exists p : tidy Pd (exists_ p).
Proof. apply tidy_get. intros s. apply tidy_ret. Qed.

Lemma tidy_read p : tidy Pd (read_text p).
Proof.
  apply tidy_get. intros s.
  destruct (files s !! p); [apply tidy_ret | apply tidy_raise].
Qed.

Lemma tidy_put_file p t : tidy Pd (put_file p t).
Proof. intros s. by apply settled_same. Qed.

Lemma tidy_write p t : tidy Pd (write_text p t).
Proof.
  apply tidy_get. intros s.
  destruct (is_dir s p || bool_decide (p ∈ locked s)); [apply tidy_raise|].
  apply tidy_bind; [apply tidy_put_file | intros _; apply tidy_emit].
Qed.

Lemma tidy_add_dir q : Pd q → tidy Pd (add_dir q).
Proof.
  intros H. apply tidy_bind; [|intros _; apply tidy_emit].
  intros s. split; [|done]. simpl. intros p Hp.
  apply elem_of_union in Hp as [Hp | Hp]; [|by left].
  apply elem_of_singleton in Hp as ->. by right.
Qed.

Lemma tidy_os_mkdir p : Pd p → tidy Pd (os_mkdir p).
Proof.
  intros H. apply tidy_get. intros s.
  destruct (is_file s p || is_dir s p); [apply tidy_raise|].
  destruct (negb (bool_decide (parent p = []) || is_dir s (parent p)));
    [apply tidy_raise|].
  destruct (bool_decide (p ∈ locked s)); [apply tidy_raise|].
  by apply tidy_add_dir.
Qed.

Lemma tidy_makedirs n rest p :
  (∀ q, q `prefix_of` p → Pd q) → tidy Pd (makedirs_from n rest p).
Proof.
  intros H. revert n. induction rest as [|c rest IH]; intros n; simpl.
  - apply tidy_ret.
  - apply tidy_get. intros s. apply tidy_bind; [|done].
    destruct (is_dir s (take (S n) p)); [apply tidy_ret|].
    destruct (is_file s (take (S n) p)); [apply tidy_raise|].
    destruct (bool_decide (take (S n) p ∈ locked s)); [apply tidy_raise|].
    apply tidy_add_dir, H. apply prefix_take.
Qed.

Lemma tidy_copy2 src dst : tidy Pd (copy2 src dst).
Proof.
  apply tidy_get. intros s.
  destruct (files s !! src) as [t|]; [|apply tidy_raise]. cbv zeta.
  destruct (bool_decide (src = _)); [apply tidy_raise|].
  destruct (is_dir s _ || bool_decide (_ ∈ locked s)); [apply tidy_raise|].
  apply tidy_bind; [apply tidy_put_file | intros _; apply tidy_emit].
Qed.

Lemma tidy_modify_patches f :
  tidy Pd (modify (λ s, set_patches_applied (f s) s)).
Proof. intros s. by apply settled_same. Qed.

Lemma tidy_modify_path p : tidy Pd (modify (set_pyhula_path p)).
Proof. intros s. by apply settled_same. Qed.

Lemma tidy_get_pyhula_path : tidy Pd get_pyhula_path.
Proof.
  apply tidy_get. intros s.
  destruct (pyhula_path s); [apply tidy_ret | apply tidy_raise].
Qed.

Lemma tidy_apply_patch file rewrite missing already applied notfound tag :
  tidy Pd (apply_patch file rewrite missing already applied notfound tag).
Proof.
  unfold apply_patch. apply tidy_bind; [apply tidy_exists|]. intros ex.
  destruct (negb ex).
  { apply tidy_bind; [apply tidy_print | intros _; apply tidy_ret]. }
  apply tidy_bind; [apply tidy_read|]. intros content.
  destruct (rewrite content) as [| |t].
  - apply tidy_bind; [apply tidy_print | intros _; apply tidy_ret].
  - apply tidy_bind; [apply tidy_print | intros _; apply tidy_ret].
  - apply tidy_bind; [apply tidy_write|]. intros _.
    apply tidy_bind; [apply tidy_print|]. intros _.
    apply tidy_bind; [apply tidy_modify_patches | intros _; apply tidy_ret].
Qed.

Lemma tidy_patch_of T : tidy Pd (patch_of T).
Proof.
  destruct T; simpl;
    [unfold patch_mavlink_header | unfold patch_udp_binding
     | unfold patch_userapi_connection];
    (apply tidy_bind; [apply tidy_get_pyhula_path|]);
    intros root; apply tidy_apply_patch.
Qed.

Lemma tidy_run_patches ps n :
  Forall (λ nf : string * M Reason, tidy Pd nf.2) ps → tidy Pd (run_patches ps n).
Proof.
  intros Hps. revert n. induction Hps as [|[name f] ps Hf _ IH]; intros n.
  - apply tidy_ret.
  - simpl. apply tidy_bind; [apply tidy_print|]. intros _.
    apply tidy_bind; [done|]. intros r.
    destruct (succeeded r); [done|].
    apply tidy_bind; [apply tidy_print | done].
Qed.

Lemma tidy_verify_patches : tidy Pd verify_patches.
Proof.
  unfold verify_patches. apply tidy_bind; [apply tidy_print|]. intros _.
  apply tidy_get. intros s.
  destruct (reload_error s);
    (apply tidy_bind; [apply tidy_print | intros _; apply tidy_ret]).
Qed.

Lemma tidy_report n : tidy Pd (report n).
Proof.
  unfold report. apply tidy_bind.
  { destruct (0 <? n)%nat; [|apply tidy_ret].
    apply tidy_bind; [apply tidy_verify_patches | intros _; apply tidy_ret]. }
  intros _. apply tidy_bind; [apply tidy_print|]. intros _.
  apply tidy_get. intros s0.
  apply tidy_bind; [apply tidy_print|]. intros _.
  apply tidy_bind; [apply tidy_print|]. intros _.
  apply tidy_bind.
  { destruct (n =? length patches)%nat; [|apply tidy_print].
    apply tidy_bind; [apply tidy_print | intros _; apply tidy_print]. }
  intros _. apply tidy_bind; [apply tidy_print|]. intros _.
  apply tidy_bind; [apply tidy_print|]. intros _. apply tidy_ret.
Qed.

Lemma tidy_patch_and_report : tidy Pd patch_and_report.
Proof.
  unfold patch_and_report. apply tidy_bind; [|intros n; apply tidy_report].
  apply tidy_run_patches. unfold patches.
  apply Forall_cons_2; [apply (tidy_patch_of MavlinkHeader)|].
  apply Forall_cons_2; [apply (tidy_patch_of UdpBinding)|].
  apply Forall_cons_2; [apply (tidy_patch_of UserapiConnection)|].
  apply Forall_nil_2.
Qed.
End Tidy.

(** * Where the backup files are *)

Lemma target_file_app root T : target_file root T = root ++ target_parts T.
Proof. rewrite target_file_parts. by destruct T. Qed.

Lemma backup_root_app root : backup_root root = root ++ ["original_backup"].
Proof. done. Qed.

Lemma backup_file_app root T :
  backup_file root T = root ++ "original_backup" :: target_parts T.
Proof.
  unfold backup_file. rewrite target_file_app, backup_root_app.
  by rewrite <- app_assoc.
Qed.

Lemma parent_snoc (l : path) x : parent (l ++ [x]) = l.
Proof.
  unfold parent. rewrite length_app. simpl.
  replace (length l + 1 - 1) with (length l) by lia.
  by rewrite take_app_length.
Qed.

Lemma parent_backup_file root T :
  parent (backup_file root T)
  = root ++ "original_backup" :: parent (target_parts T).
Proof.
  rewrite backup_file_app.
  destruct T; simpl;
    [ change (root ++ ["original_backup"; "pypack"; "fylo"; "mavlink.py"])
        with (root ++ ["original_backup"; "pypack"; "fylo"] ++ ["mavlink.py"])
    | change (root ++ ["original_backup"; "pypack"; "system"; "taskcontroller.py"])
        with (root ++ ["original_backup"; "pypack"; "system"] ++ ["taskcontroller.py"])
    | change (root ++ ["original_backup"; "userapi.py"])
        with (root ++ ["original_backup"] ++ ["userapi.py"]) ];
    by rewrite app_assoc, parent_snoc.
Qed.

Lemma parent_target_file root T :
  parent (target_file root T) = root ++ parent (target_parts T).
Proof.
  rewrite target_file_app.
  destruct T; simpl;
    [ change (root ++ ["pypack"; "fylo"; "mavlink.py"])
        with (root ++ ["pypack"; "fylo"] ++ ["mavlink.py"])
    | change (root ++ ["pypack"; "system"; "taskcontroller.py"])
        with (root ++ ["pypack"; "system"] ++ ["taskcontroller.py"])
    | change (root ++ ["userapi.py"]) with (root ++ [] ++ ["userapi.py"]) ];
    by rewrite app_assoc, parent_snoc, ?app_nil_r.
Qed.

(** The files of the backup list, as targets and as backup files. *)
Lemma files_to_backup_places root f :
  f ∈ files_to_backup →
  ∃ T, root // f = target_file root T
       ∧ backup_root root // f = backup_file root T.
Proof.
  unfold files_to_backup. intros Hf.
  apply elem_of_cons in Hf as [-> | Hf]; [exists MavlinkHeader|].
  2: apply elem_of_cons in Hf as [-> | Hf]; [exists UdpBinding|].
  3: apply elem_of_cons in Hf as [-> | Hf]; [exists UserapiConnection|].
  4: by apply elem_of_nil in Hf.
  all: rewrite target_file_app, backup_file_app, backup_root_app;
    unfold pjoin; simpl; by rewrite <- ?app_assoc.
Qed.

Lemma target_in_backup_list root T :
  ∃ f, f ∈ files_to_backup ∧ root // f = target_file root T
       ∧ backup_root root // f = backup_file root T.
Proof.
  destruct T; [exists "pypack/fylo/mavlink.py"
              | exists "pypack/system/taskcontroller.py"
              | exists "userapi.py"];
    (split; [unfold files_to_backup; set_solver|]);
    rewrite target_file_app, backup_file_app, backup_root_app;
    unfold pjoin; simpl; by rewrite <- ?app_assoc.
Qed.

Lemma backup_file_below root T : below (backup_root root) (backup_file root T).
Proof.
  unfold below. rewrite backup_file_app, backup_root_app.
  exists (target_parts T). by rewrite <- app_assoc.
Qed.

Lemma backup_file_inj root T T' :
  backup_file root T = backup_file root T' → T = T'.
Proof.
  rewrite !backup_file_app. intros H. apply app_inv_head in H.
  by destruct T, T'.
Qed.

Lemma backup_file_not_root root T : backup_file root T ≠ backup_root root.
Proof.
  rewrite backup_file_app, backup_root_app. intros H.
  apply app_inv_head in H. by destruct T.
Qed.

Lemma backup_file_not_target root T T' : backup_file root T ≠ target_file root T'.
Proof.
  rewrite backup_file_app, target_file_app. intros H.
  apply app_inv_head in H. by destruct T, T'.
Qed.

Lemma backup_file_is_py root T : is_py (name (backup_file root T)) = true.
Proof.
  rewrite backup_file_app. unfold name.
  destruct T; simpl;
    [ change (root ++ ["original_backup"; "pypack"; "fylo"; "mavlink.py"])
        with (root ++ ["original_backup"; "pypack"; "fylo"] ++ ["mavlink.py"])
    | change (root ++ ["original_backup"; "pypack"; "system"; "taskcontroller.py"])
        with (root ++ ["original_backup"; "pypack"; "system"] ++ ["taskcontroller.py"])
    | change (root ++ ["original_backup"; "userapi.py"])
        with (root ++ ["original_backup"] ++ ["userapi.py"]) ];
    rewrite app_assoc, last_snoc; vm_compute; reflexivity.
Qed.

(** [restore_backup] puts the backup file of a target at the target. *)
Lemma restore_target_backup_file root T :
  restore_target root (backup_root root) (backup_file root T) = target_file root T.
Proof.
  unfold restore_target. rewrite backup_file_app, backup_root_app, target_file_app.
  rewrite length_app. simpl.
  change (root ++ "original_backup" :: target_parts T)
    with (root ++ ["original_backup"] ++ target_parts T).
  rewrite app_assoc.
  replace (length root + 1) with (length (root ++ ["original_backup"]))
    by (rewrite length_app; done).
  by rewrite drop_app_length.
Qed.

(** A list that is a prefix of a list given by its members. *)
Ltac prefix_cases H :=
  repeat match type of H with
  | _ `prefix_of` (_ ++ _) => apply prefix_app_inv in H
  | (_ :: _) `prefix_of` [] => by apply prefix_nil_not in H
  | (?a :: _) `prefix_of` (?b :: _) =>
      let E := fresh in
      pose proof (prefix_cons_inv_1 _ _ _ _ H) as E;
      apply prefix_cons_inv_2 in H;
      try discriminate E
  end.

Lemma made_by_backup_not_backup_file root q T :
  made_by_backup root q → q ≠ backup_file root T.
Proof.
  intros [T' H] ->. rewrite parent_backup_file, backup_file_app in H.
  destruct T, T'; unfold parent in H; simpl in H; prefix_cases H.
Qed.

Lemma made_by_backup_not_target root q T :
  made_by_backup root q → q ≠ target_file root T.
Proof.
  intros [T' H] ->. rewrite parent_backup_file, target_file_app in H.
  destruct T, T'; unfold parent in H; simpl in H; prefix_cases H.
Qed.

Lemma made_by_restore_not_target root q T :
  made_by_restore root q → q ≠ target_file root T.
Proof.
  intros [T' H] ->. rewrite parent_target_file, target_file_app in H.
  destruct T, T'; unfold parent in H; simpl in H; prefix_cases H.
Qed.

(** A directory that the backup step makes below the backup directory has
    no name that ends in [.py]. *)
Lemma made_by_backup_not_py root q :
  made_by_backup root q → below (backup_root root) q → q ≠ backup_root root →
  is_py (name q) = false.
Proof.
  intros [T H] [k ->] Hne. rewrite parent_backup_file, backup_root_app in H.
  rewrite <- app_assoc in H. apply prefix_app_inv in H. simpl in H.
  apply prefix_cons_inv_2 in H.
  assert (k ≠ []) as Hk by (intros ->; by rewrite app_nil_r in Hne).
  unfold name. rewrite backup_root_app.
  destruct H as [k' Hk'].
  destruct T; unfold parent in Hk'; simpl in Hk';
    repeat (destruct k as [|? k]; simplify_eq/=; try done);
    rewrite <- app_assoc; simpl;
    repeat match goal with
    | |- context [last (?l ++ [?a; ?b])] =>
        change (l ++ [a; b]) with (l ++ [a] ++ [b]); rewrite app_assoc
    | |- context [last (?l ++ [?a; ?b; ?c])] =>
        change (l ++ [a; b; c]) with (l ++ [a; b] ++ [c]); rewrite app_assoc
    end; rewrite last_snoc; vm_compute; reflexivity.
Qed.

(** * The backup step on the files *)

Lemma makedirs_from_files n rest p s : files (makedirs_from n rest p s).2 = files s.
Proof.
  revert n s. induction rest as [|c rest IH]; intros n s; [done|].
  simpl. unfold bind at 1, get. unfold bind.
  destruct (is_dir s (take (S n) p)); [apply IH|].
  destruct (is_file s (take (S n) p)); [done|].
  destruct (bool_decide (take (S n) p ∈ locked s)); [done|].
  rewrite add_dir_run. by rewrite IH.
Qed.

Lemma os_mkdir_ok p s s' :
  os_mkdir p s = (Ok tt, s') →
  s' = set_trace (trace s ++ [Mkdir p]) (set_dirs ({[p]} ∪ dirs s) s).
Proof.
  unfold os_mkdir, bind, get.
  destruct (is_file s p || is_dir s p); [discriminate|].
  destruct (negb (bool_decide (parent p = []) || is_dir s (parent p)));
    [discriminate|].
  destruct (bool_decide (p ∈ locked s)); [discriminate|].
  rewrite add_dir_run. by intros [= <-].
Qed.

Lemma backup_rel_refl root s : backup_rel root s s.
Proof. split; [done | by left]. Qed.

Lemma backup_rel_trans root s1 s2 s3 :
  backup_rel root s1 s2 → backup_rel root s2 s3 → backup_rel root s1 s3.
Proof.
  intros [Ho1 Hi1] [Ho2 Hi2]. split.
  - intros p Hp. by rewrite Ho2, Ho1.
  - intros p Hp. destruct (Hi2 p Hp) as [H | (T & -> & Hs & H)].
    + rewrite H. by apply Hi1.
    + right. exists T. split; [done|].
      rewrite (Ho1 _ (target_not_below_backup root T)) in Hs, H. done.
Qed.

(** The same files: nothing of the backup has happened. *)
Lemma backup_rel_same root s s' : files s' = files s → backup_rel root s s'.
Proof. intros H. split; intros p _; [|left]; by rewrite H. Qed.

(** One turn of the loop of [create_backup], when it returns. *)
Lemma backup_one_rel root T f s s' :
  root // f = target_file root T →
  backup_root root // f = backup_file root T →
  backup_file root T ∉ dirs s' →
  backup_one root (backup_root root) f s = (Ok tt, s') →
  backup_rel root s s'
  ∧ (is_Some (files s !! target_file root T) →
     files s' !! backup_file root T = files s !! target_file root T).
Proof.
  intros Hsrc Hdst Hnd Hrun. unfold backup_one in Hrun.
  rewrite Hsrc, Hdst in Hrun.
  apply bind_inv_ok in Hrun as (ex & s0 & H0 & Hrun).
  rewrite exists_run in H0. injection H0 as <- <-.
  destruct (is_file s (target_file root T) || is_dir s (target_file root T)) eqn:Hex.
  - apply bind_inv_ok in Hrun as ([] & s1 & H1 & Hrun).
    apply bind_inv_ok in Hrun as ([] & s2 & H2 & Hrun).
    rewrite print_run in Hrun. injection Hrun as <-.
    assert (files s1 = files s) as Hf1.
    { unfold mkdir_parents in H1.
      pose proof (makedirs_from_files 0 (parent (backup_file root T))
                    (parent (backup_file root T)) s) as H.
      by rewrite H1 in H. }
    apply copy2_ok in H2 as (t & d & Ht & _ & Hd & ->).
    simpl in Hnd. specialize (Hd Hnd). subst d. rewrite Hf1 in Ht.
    set (sf := say _ _) in *.
    assert (files sf = <[backup_file root T := t]> (files s)) as Hfs
      by (unfold sf; simpl; by rewrite Hf1).
    clearbody sf. split; [split|].
    + intros p Hp. rewrite Hfs. apply lookup_insert_ne. intros <-.
      apply Hp, backup_file_below.
    + intros p Hp. rewrite Hfs.
      destruct (decide (backup_file root T = p)) as [<- | Hne].
      * right. exists T. rewrite Ht, lookup_insert_eq. done.
      * left. by apply lookup_insert_ne.
    + intros _. by rewrite Hfs, lookup_insert_eq.
  - injection Hrun as <-. split; [apply backup_rel_refl|].
    intros [t Ht]. unfold is_file in Hex. rewrite Ht in Hex.
    rewrite bool_decide_true in Hex by done. discriminate.
Qed.

Lemma tidy_backup_one root f :
  f ∈ files_to_backup →
  tidy (made_by_backup root) (backup_one root (backup_root root) f).
Proof.
  intros Hf. destruct (files_to_backup_places root f Hf) as (T & Hsrc & Hdst).
  unfold backup_one. rewrite Hdst.
  apply tidy_bind; [apply tidy_exists|]. intros [|]; [|apply tidy_ret].
  apply tidy_bind; [|intros _].
  - apply tidy_makedirs. intros q Hq. by exists T.
  - apply tidy_bind; [apply tidy_copy2 | intros _; apply tidy_print].
Qed.

Lemma tidy_backup_loop root :
  tidy (made_by_backup root)
    (for_each files_to_backup (backup_one root (backup_root root))).
Proof.
  apply tidy_for_each, Forall_forall. intros f Hf. by apply tidy_backup_one.
Qed.

Lemma backup_root_made root : made_by_backup root (backup_root root).
Proof. exists UserapiConnection. by rewrite parent_backup_file. Qed.

(** What follows the assignment of [backup_dir] in [create_backup]. *)
Lemma tidy_create_backup_rest root :
  tidy (made_by_backup root)
    (bind (exists_ (backup_root root)) (λ ex,
       bind (if ex then ret tt
             else bind (mkdir (backup_root root)) (λ _,
                    print ("Created backup directory: " +:+
                           str_of_path (backup_root root))))
            (λ _, bind (for_each files_to_backup
                          (backup_one root (backup_root root)))
                       (λ _, ret true)))).
Proof.
  apply tidy_bind; [apply tidy_exists|]. intros ex.
  apply tidy_bind.
  - destruct ex; [apply tidy_ret|].
    apply tidy_bind; [|intros _; apply tidy_print].
    apply tidy_os_mkdir, backup_root_made.
  - intros _. apply tidy_bind; [apply tidy_backup_loop | intros _; apply tidy_ret].
Qed.

(** The directories after the backup step, whatever it returns or
    raises: those that were there and those on the way to a backup file. *)
Lemma create_backup_dirs root s q :
  pyhula_path s = Some root →
  q ∈ dirs (create_backup s).2 → q ∈ dirs s ∨ made_by_backup root q.
Proof.
  intros Hroot. unfold create_backup, bind at 1, get. rewrite Hroot.
  unfold bind at 1, modify.
  apply (st_dirs _ _ _ (tidy_create_backup_rest root
                          (set_backup_dir (Some (backup_root root)) s))).
Qed.

Lemma create_backup_backup_dir root s :
  pyhula_path s = Some root →
  backup_dir (create_backup s).2 = Some (backup_root root).
Proof.
  intros Hroot. unfold create_backup, bind at 1, get. rewrite Hroot.
  unfold bind at 1, modify.
  apply (st_backup_dir _ _ _ (tidy_create_backup_rest root
                                (set_backup_dir (Some (backup_root root)) s))).
Qed.

(** The loop of [create_backup], when it returns. *)
Lemma backup_loop_rel root l s s' :
  l ⊆ files_to_backup →
  pyhula_path s = Some root →
  (∀ T, backup_file root T ∉ dirs s') →
  for_each l (backup_one root (backup_root root)) s = (Ok tt, s') →
  backup_rel root s s'
  ∧ ∀ f T, f ∈ l → root // f = target_file root T →
      is_Some (files s !! target_file root T) →
      files s' !! backup_file root T = files s !! target_file root T.
Proof.
  intros Hl. revert s. induction l as [|f l IH]; intros s Hroot Hnd Hrun.
  - injection Hrun as <-. split; [apply backup_rel_refl|].
    intros f T Hf. by apply elem_of_nil in Hf.
  - simpl in Hrun. apply bind_inv_ok in Hrun as ([] & s1 & H1 & Hrun).
    assert (f ∈ files_to_backup) as Hf by (apply Hl; by left).
    destruct (files_to_backup_places root f Hf) as (T & Hsrc & Hdst).
    pose proof (backup_one_keeps root f s Hroot) as Hev1.
    rewrite H1 in Hev1. simpl in Hev1.
    assert (pyhula_path s1 = Some root) as Hroot1
      by (by rewrite (ev_path _ _ _ _ _ Hev1)).
    assert (dirs s1 ⊆ dirs s') as Hd1.
    { pose proof (keeps_for_each root _ _ _ l _ (backup_one_keeps root) s1 Hroot1)
        as Hev. rewrite Hrun in Hev. apply (ev_dirs _ _ _ _ _ Hev). }
    destruct (backup_one_rel root T f s s1 Hsrc Hdst) as [Hrel1 Hc1]; [|done|].
    { intros Hin. by apply (Hnd T), Hd1. }
    assert (l ⊆ files_to_backup) as Hl' by (intros x Hx; apply Hl; by right).
    destruct (IH Hl' s1 Hroot1 Hnd Hrun) as [Hrel Hc].
    split; [by eapply backup_rel_trans|].
    intros g U Hg HgU Hsome.
    assert (files s1 !! target_file root U = files s !! target_file root U) as Hsame
      by (apply (proj1 Hrel1), target_not_below_backup).
    apply elem_of_cons in Hg as [-> | Hg].
    + assert (U = T) as -> by (apply (target_file_inj root); congruence).
      destruct (proj2 Hrel _ (backup_file_below root T)) as [H | (V & HV & _ & H)].
      * rewrite H. by apply Hc1.
      * apply backup_file_inj in HV as <-. by rewrite H.
    + rewrite <- Hsame. apply (Hc g); [done | done | by rewrite Hsame].
Qed.

Lemma evolves_exists Pe Pf Pn s s' p :
  evolves Pe Pf Pn s s' →
  is_file s p || is_dir s p = true → is_file s' p || is_dir s' p = true.
Proof.
  intros Hev H. apply orb_true_iff in H as [H | H]; apply orb_true_iff.
  - left. unfold is_file in *. apply bool_decide_eq_true in H.
    apply bool_decide_eq_true. by apply (ev_kept _ _ _ _ _ Hev).
  - right. unfold is_dir in *. apply bool_decide_eq_true in H.
    apply bool_decide_eq_true. by apply (ev_dirs _ _ _ _ _ Hev).
Qed.

(** The backup step, when it returns: the files outside the backup tree
    are as they were, the backup file of every target that is there holds
    what the target holds, and the backup directory is there. *)
Lemma create_backup_rel root s s' :
  pyhula_path s = Some root →
  (∀ T, backup_file root T ∉ dirs s') →
  create_backup s = (Ok true, s') →
  backup_rel root s s'
  ∧ (∀ T, is_Some (files s !! target_file root T) →
       files s' !! backup_file root T = files s !! target_file root T)
  ∧ is_file s' (backup_root root) || is_dir s' (backup_root root) = true.
Proof.
  intros Hroot Hnd Hrun. unfold create_backup in Hrun.
  unfold bind at 1, get in Hrun. rewrite Hroot in Hrun.
  apply bind_inv_ok in Hrun as ([] & s1 & H1 & Hrun). injection H1 as <-.
  fold (backup_root root) in Hrun.
  set (sa := set_backup_dir (Some (backup_root root)) s) in *.
  assert (pyhula_path sa = Some root) as Hroota by done.
  apply bind_inv_ok in Hrun as (ex & s2 & H2 & Hrun).
  rewrite exists_run in H2. injection H2 as <- <-.
  apply bind_inv_ok in Hrun as ([] & s3 & H3 & Hrun).
  apply bind_inv_ok in Hrun as ([] & s4 & H4 & Hrun).
  injection Hrun as <-.
  assert (files s3 = files s ∧ pyhula_path s3 = Some root
          ∧ is_file s3 (backup_root root) || is_dir s3 (backup_root root) = true)
    as (Hf3 & Hroot3 & Hex3).
  { destruct (is_file sa _ || is_dir sa _) eqn:Hex.
    - injection H3 as <-. done.
    - apply bind_inv_ok in H3 as ([] & s5 & H5 & H3).
      rewrite print_run in H3. injection H3 as <-.
      apply os_mkdir_ok in H5 as ->.
      split; [done|]. split; [done|].
      apply orb_true_iff. right. unfold is_dir. apply bool_decide_eq_true.
      simpl. set_solver. }
  pose proof (keeps_for_each root _ _ _ files_to_backup _ (backup_one_keeps root)
                s3 Hroot3) as Hev.
  rewrite H4 in Hev. simpl in Hev.
  destruct (backup_loop_rel root files_to_backup s3 s4) as [Hrel Hc];
    [done | done | done | done |].
  split; [|split].
  - destruct Hrel as [Ho Hi]. split.
    + intros p Hp. by rewrite Ho, Hf3.
    + intros p Hp. rewrite <- Hf3. by apply Hi.
  - intros T Hsome. rewrite <- Hf3 in *.
    destruct (target_in_backup_list root T) as (f & Hf & Hsrc & _).
    by apply (Hc f).
  - by eapply evolves_exists.
Qed.

(** * A pass of the patches and the restore that follows it *)

(** A run of [apply_all_patches] that returns, on an installation that is
    found: the backup step has returned [True] and the patch steps have
    followed. *)
Lemma apply_all_run root s b s' :
  installed s = Some root →
  apply_all_patches s = (Ok b, s') →
  ∃ sB, create_backup (found_state root s) = (Ok true, sB)
        ∧ patch_and_report sB = (Ok b, s').
Proof.
  intros Hinst Hrun. rewrite (apply_all_found root) in Hrun by done.
  unfold backup_and_patch in Hrun.
  apply bind_inv_ok in Hrun as (backed_up & sB & HB & Hrun).
  assert (backed_up = true) as ->
    by (eapply (create_backup_true root); [|exact HB]; reflexivity).
  by exists sB.
Qed.

(** A run of [restore_backup] that returns, when the backup directory is
    there. *)
Lemma restore_backup_run s bdir r s' :
  backup_dir s = Some bdir →
  is_file s bdir || is_dir s bdir = true →
  restore_backup s = (Ok r, s') →
  r = true
  ∧ ∃ s1, for_each (rglob_py s bdir) (restore_one bdir)
            (say "Restoring original PyHula files..." s) = (Ok tt, s1)
          ∧ s' = say "✓ Original files restored" s1.
Proof.
  intros Hb Hex Hrun. unfold restore_backup, bind at 1, get in Hrun.
  rewrite Hb in Hrun. unfold bind at 1 in Hrun.
  rewrite exists_run, Hex in Hrun. cbn [negb] in Hrun.
  unfold bind at 1 in Hrun. rewrite print_run in Hrun.
  apply bind_inv_ok in Hrun as ([] & s1 & Hloop & Hrun).
  unfold bind in Hrun. rewrite print_run in Hrun. injection Hrun as <- <-.
  split; [done|]. by exists s1.
Qed.

(** The directories after one turn of the loop of [restore_backup]. *)
Lemma restore_one_dirs root bdir b s q :
  pyhula_path s = Some root →
  q ∈ dirs (restore_one bdir b s).2 →
  q ∈ dirs s ∨ q `prefix_of` parent (restore_target root bdir b).
Proof.
  intros Hroot. unfold restore_one, bind at 1, get_pyhula_path, bind at 1, get.
  rewrite Hroot. simpl. fold (restore_target root bdir b).
  apply (st_dirs (λ q, q `prefix_of` parent (restore_target root bdir b))).
  apply tidy_bind; [by apply tidy_makedirs|]. intros _.
  apply tidy_bind; [apply tidy_copy2 | intros _; apply tidy_print].
Qed.

Lemma restore_loop_dirs root bdir L s s' q :
  pyhula_path s = Some root →
  for_each L (restore_one bdir) s = (Ok tt, s') →
  q ∈ dirs s' →
  q ∈ dirs s ∨ ∃ b, b ∈ L ∧ q `prefix_of` parent (restore_target root bdir b).
Proof.
  revert s. induction L as [|b L IH]; intros s Hroot Hrun Hq.
  - injection Hrun as <-. by left.
  - simpl in Hrun. apply bind_inv_ok in Hrun as ([] & s1 & H1 & Hrun).
    destruct (restore_one_ok root bdir b s s1 Hroot H1)
      as (t & d & evs & _ & _ & _ & _ & _ & _ & Hroot1 & _).
    destruct (IH s1 Hroot1 Hrun Hq) as [H | (b' & Hb' & H)].
    + pose proof (restore_one_dirs root bdir b s q Hroot) as Hd.
      rewrite H1 in Hd. destruct (Hd H) as [Hd' | Hd']; [by left|].
      right. exists b. split; [by left | done].
    + right. exists b'. split; [by right | done].
Qed.

Lemma all_targets_all T : T ∈ all_targets.
Proof. destruct T; unfold all_targets; rewrite !elem_of_cons; auto. Qed.

(** The round trip, for runs given with their final states. *)
Lemma round_trip_run root s b s1 r s2 :
  installed s = Some root →
  (∀ p, below (backup_root root) p → files s !! p = None ∧ p ∉ dirs s) →
  (∀ T, target_file root T ∉ dirs s) →
  apply_all_patches s = (Ok b, s1) →
  restore_backup s1 = (Ok r, s2) →
  r = true
  ∧ ∀ p, ¬ below (backup_root root) p → files s2 !! p = files s !! p.
Proof.
  intros Hinst Hclean Hnd Hrun1 Hrun2.
  destruct (apply_all_run root s b s1 Hinst Hrun1) as (sB & HB & HP).
  set (sF := found_state root s) in *.
  assert (pyhula_path sF = Some root) as HrootF by done.
  assert (files sF = files s) as HfF by done.
  assert (∀ q, q ∈ dirs sB → q ∈ dirs s ∨ made_by_backup root q) as HdB.
  { intros q Hq. pose proof (create_backup_dirs root sF q HrootF) as H.
    rewrite HB in H. by apply H. }
  assert (∀ T, backup_file root T ∉ dirs sB) as HndB.
  { intros T Hin. destruct (HdB _ Hin) as [H | H].
    - by apply (proj2 (Hclean _ (backup_file_below root T))).
    - by apply (made_by_backup_not_backup_file root _ T H). }
  destruct (create_backup_rel root sF sB HrootF HndB HB) as ([Ho Hi] & Hc & HexB).
  assert (backup_dir sB = Some (backup_root root)) as HbdB.
  { pose proof (create_backup_backup_dir root sF HrootF) as H. by rewrite HB in H. }
  pose proof (create_backup_keeps root sF HrootF) as HevB.
  rewrite HB in HevB. simpl in HevB.
  assert (pyhula_path sB = Some root) as HrootB
    by (by rewrite (ev_path _ _ _ _ _ HevB)).
  pose proof (patch_and_report_keeps root sB HrootB) as HevP.
  rewrite HP in HevP. simpl in HevP.
  pose proof (tidy_patch_and_report (λ _, False) sB) as HtP.
  rewrite HP in HtP. simpl in HtP.
  assert (pyhula_path s1 = Some root) as Hroot1
    by (by rewrite (ev_path _ _ _ _ _ HevP)).
  assert (backup_dir s1 = Some (backup_root root)) as Hbd1
    by (by rewrite (st_backup_dir _ _ _ HtP)).
  assert (∀ q, q ∈ dirs s1 → q ∈ dirs s ∨ made_by_backup root q) as Hd1.
  { intros q Hq. destruct (st_dirs _ _ _ HtP _ Hq) as [H | []]. by apply HdB. }
  assert (∀ p, ¬ is_target root p → files s1 !! p = files sB !! p) as HfP
    by apply (ev_frame _ _ _ _ _ HevP).
  assert (∀ T, files s1 !! backup_file root T = files sB !! backup_file root T)
    as HfPb.
  { intros T. apply HfP. intros [T' H]. by apply backup_file_not_target in H. }
  assert (∀ b0, b0 ∈ rglob_py s1 (backup_root root) →
            ∃ T, b0 = backup_file root T
                 ∧ files s1 !! b0 = files s !! target_file root T) as HL.
  { intros b0 Hb0.
    apply elem_of_rglob_py in Hb0 as (Hbel & Hne & Hpy & [Hel | Hel]).
    - assert (¬ is_target root b0) as Hnt.
      { intros [T ->]. by apply (target_not_below_backup root T). }
      rewrite (HfP _ Hnt) in Hel |- *.
      destruct (Hi b0 Hbel) as [H | (T & -> & _ & H)].
      + rewrite H, HfF, (proj1 (Hclean b0 Hbel)) in Hel. by destruct Hel.
      + exists T. by rewrite H, HfF.
    - exfalso. destruct (Hd1 _ Hel) as [H | H].
      + by apply (proj2 (Hclean _ Hbel)).
      + rewrite (made_by_backup_not_py root b0 H Hbel) in Hpy; [done|].
        by intros ->. }
  destruct (restore_backup_run s1 (backup_root root) r s2 Hbd1) as (-> & s3 & Hloop & ->);
    [by eapply evolves_exists | done |].
  split; [done|].
  set (s0 := say "Restoring original PyHula files..." s1) in *.
  assert (rglob_py s0 (backup_root root) = rglob_py s1 (backup_root root)) as HL0
    by done.
  destruct (restore_loop root (backup_root root) _ s0 s3 Hroot1 Hloop)
    as (_ & _ & _ & _ & _ & Hcond).
  destruct Hcond as [Hframe Hcont];
    [apply rglob_py_nodup | apply rglob_py_below | |].
  { intros b0 Hb0. destruct (HL b0 Hb0) as (T & -> & _).
    rewrite restore_target_backup_file. split; [apply target_not_below_backup|].
    intros Hin.
    destruct (restore_loop_dirs root _ _ s0 s3 _ Hroot1 Hloop Hin)
      as [Hq | (b1 & Hb1 & Hq)].
    - destruct (Hd1 _ Hq) as [H | H]; [by apply (Hnd T)|].
      by apply (made_by_backup_not_target root _ T H).
    - destruct (HL b1 Hb1) as (T' & -> & _).
      rewrite restore_target_backup_file in Hq.
      apply (made_by_restore_not_target root (target_file root T) T); [|done].
      by exists T'. }
  intros p Hp. change (files (say "✓ Original files restored" s3)) with (files s3).
  destruct (decide (Exists (λ b0, p = restore_target root (backup_root root) b0)
                      (rglob_py s1 (backup_root root)))) as [Hex | Hnex].
  - apply Exists_exists in Hex as (b0 & Hb0 & ->).
    destruct (Hcont b0 Hb0) as [_ Heq]. rewrite Heq.
    change (files s0) with (files s1).
    destruct (HL b0 Hb0) as (T & -> & H).
    by rewrite restore_target_backup_file.
  - rewrite Hframe.
    2:{ intros b0 Hb0 ->. apply Hnex, Exists_exists. by exists b0. }
    change (files s0) with (files s1).
    destruct (decide (Exists (λ T, p = target_file root T) all_targets))
      as [HT | HnT].
    + apply Exists_exists in HT as (T & _ & ->).
      destruct (files s !! target_file root T) as [c|] eqn:Hc0.
      * exfalso. apply Hnex, Exists_exists. exists (backup_file root T).
        split; [|by rewrite restore_target_backup_file].
        apply elem_of_rglob_py.
        split; [apply backup_file_below|]. split.
        { intros H. by apply (backup_file_not_root root T). }
        split; [apply backup_file_is_py|]. left.
        rewrite HfPb, Hc by (by rewrite HfF, Hc0). by rewrite HfF, Hc0.
      * destruct (files s1 !! target_file root T) as [c|] eqn:Hc1; [|done].
        destruct (ev_new _ _ _ _ _ HevP (target_file root T)) as [H | []];
          [by rewrite Hc1|].
        rewrite Ho, HfF, Hc0 in H by done. by destruct H.
    + rewrite HfP, Ho, HfF; [done | done |].
      intros [T ->]. apply HnT, Exists_exists. exists T. split; [|done].
      apply all_targets_all.
Qed.

(** Nothing of the file system lies below [d]. *)
Lemma nothing_below s d :
  set_Forall (λ q, ¬ d `prefix_of` q) (dom (files s) ∪ dirs s) →
  ∀ p, below d p → files s !! p = None ∧ p ∉ dirs s.
Proof.
  intros H p Hp. split.
  - destruct (files s !! p) as [t|] eqn:E; [|done].
    destruct (H p); [|done]. apply elem_of_union. left.
    apply elem_of_dom. by rewrite E.
  - intros Hd. destruct (H p); [|done]. apply elem_of_union. by right.
Qed.

(** The backup files after a pass that returns. *)
Lemma apply_all_backup root s b s' :
  installed s = Some root →
  (∀ T, backup_file root T ∉ dirs s) →
  apply_all_patches s = (Ok b, s') →
  ∀ T, is_Some (files s !! target_file root T) →
    files s' !! backup_file root T = files s !! target_file root T.
Proof.
  intros Hinst Hnd Hrun T Hsome.
  destruct (apply_all_run root s b s' Hinst Hrun) as (sB & HB & HP).
  set (sF := found_state root s) in *.
  assert (pyhula_path sF = Some root) as HrootF by done.
  assert (∀ T, backup_file root T ∉ dirs sB) as HndB.
  { intros U Hin.
    pose proof (create_backup_dirs root sF (backup_file root U) HrootF) as H.
    rewrite HB in H. destruct (H Hin) as [H' | H'].
    - by apply (Hnd U).
    - by apply (made_by_backup_not_backup_file root _ U H'). }
  destruct (create_backup_rel root sF sB HrootF HndB HB) as (_ & Hc & _).
  pose proof (create_backup_keeps root sF HrootF) as HevB.
  rewrite HB in HevB. simpl in HevB.
  assert (pyhula_path sB = Some root) as HrootB
    by (by rewrite (ev_path _ _ _ _ _ HevB)).
  pose proof (patch_and_report_keeps root sB HrootB) as HevP.
  rewrite HP in HevP. simpl in HevP.
  rewrite (ev_frame _ _ _ _ _ HevP).
  - by apply Hc.
  - intros [U H]. by apply backup_file_not_target in H.
Qed.

(** X1.  An installation that has no backup tree yet and whose target
    paths are no directories: when a pass of the patches has returned and
    the restore that follows on the same patcher returns, it returns
    [True], and every file outside the backup tree, the targets among them,
    holds what it held before the pass (a target that was not there is not
    there). *)
Theorem backup_restore_round_trip (s : State) (root : path) (b r : bool) :
  installed s = Some root →
  (∀ p, below (backup_root root) p → files s !! p = None ∧ p ∉ dirs s) →
  (∀ T, target_file root T ∉ dirs s) →
  (apply_all_patches s).1 = Ok b →
  (restore_backup (apply_all_patches s).2).1 = Ok r →
  let s2 := (restore_backup (apply_all_patches s).2).2 in
  r = true
  ∧ ∀ p, ¬ below (backup_root root) p → files s2 !! p = files s !! p.
Proof.
  intros Hinst Hclean Hnd Hrun1 Hrun2 s2.
  apply run_pair in Hrun1, Hrun2.
  by apply (round_trip_run root s b (apply_all_patches s).2 r s2).
Qed.

(** X1 at the demo installation: the pass patches the MAVLink file, and
    the restore puts the text of the fixture back. *)
Lemma backup_restore_round_trip_witness :
  let s1 := (apply_all_patches demo_world).2 in
  let s2 := (restore_backup s1).2 in
  (files s1 !! target_file demo_root MavlinkHeader = Some pack_fixture_patched
   ∧ files s2 !! target_file demo_root MavlinkHeader = Some pack_fixture)
  ∧ true = true
  ∧ ∀ p, ¬ below (backup_root demo_root) p → files s2 !! p = files demo_world !! p.
Proof.
  split; [split; vm_compute; reflexivity|].
  refine (backup_restore_round_trip demo_world demo_root true true _ _ _ _ _).
  - reflexivity.
  - apply nothing_below. refine (bool_decide_unpack _ _). vm_compute. exact I.
  - intros T. refine (bool_decide_unpack _ _). destruct T; vm_compute; exact I.
  - vm_compute. reflexivity.
  - vm_compute. reflexivity.
Defined.

(** X2.  A pass that returns leaves, as the backup file of every target
    that is there, the text that the target had when the pass started,
    whatever backup was there before (the places of the backup files being
    no directories).  So on a target that is patched already, which the
    pass leaves as it is, the backup after the pass is the patched text. *)
Theorem backup_holds_run_start
    (s : State) (root : path) (T : TargetId) (c : text) (b : bool) :
  installed s = Some root →
  files s !! target_file root T = Some c →
  (∀ T', backup_file root T' ∉ dirs s) →
  (apply_all_patches s).1 = Ok b →
  let s' := (apply_all_patches s).2 in
  files s' !! backup_file root T = Some c
  ∧ (contains (marker_of T) c = true → files s' !! target_file root T = Some c).
Proof.
  intros Hinst Hfile Hnd Hrun s'. apply run_pair in Hrun. split.
  - rewrite <- Hfile. by apply (apply_all_backup root s b s').
  - intros Hm. by destruct (apply_all_holds root T c Hm s Hinst Hfile) as (_ & _ & H).
Qed.

(** X2 at the demo installation after its first pass: the second pass
    puts the patched MAVLink file where the backup of the first pass had
    the text of the fixture. *)
Lemma backup_holds_run_start_witness :
  let s' := (apply_all_patches demo_patched).2 in
  files demo_patched !! backup_file demo_root MavlinkHeader = Some pack_fixture
  ∧ files s' !! backup_file demo_root MavlinkHeader = Some pack_fixture_patched
  ∧ (contains (marker_of MavlinkHeader) pack_fixture_patched = true →
     files s' !! target_file demo_root MavlinkHeader = Some pack_fixture_patched).
Proof.
  split; [vm_compute; reflexivity|].
  refine (backup_holds_run_start demo_patched demo_root MavlinkHeader
            pack_fixture_patched true _ _ _ _).
  - vm_compute. reflexivity.
  - vm_compute. reflexivity.
  - intros T. refine (bool_decide_unpack _ _). destruct T; vm_compute; exact I.
  - vm_compute. reflexivity.
Defined.

(** * The outcomes of a patch method *)

Section ApplyPatchCases.
Variables (file : path) (rewrite : text → Rewrite).
Variables (missing already applied notfound tag : string).

Local Abbreviation run := (apply_patch file rewrite missing already applied notfound tag).

(** The five ways a patch method can go, by what is at the place of its
    file. *)
Lemma apply_patch_cases s :
  (files s !! file = None ∧ (file ∉ dirs s)
   ∧ run s = (Ok FILE_MISSING, say (missing +:+ str_of_path file) s))
  ∨ (files s !! file = None ∧ file ∈ dirs s ∧ run s = (Raise OSError, s))
  ∨ (∃ content, files s !! file = Some content ∧ rewrite content = Already
       ∧ run s = (Ok ALREADY_APPLIED, say already s))
  ∨ (∃ content, files s !! file = Some content ∧ rewrite content = NotFound
       ∧ run s = (Ok PATTERN_NOT_FOUND, say notfound s))
  ∨ (∃ content t, files s !! file = Some content ∧ rewrite content = Patched t
       ∧ run s = if is_dir s file || bool_decide (file ∈ locked s)
                 then (Raise OSError, s)
                 else (Ok APPLIED, patched_state file applied tag t s)).
Proof.
  destruct (files s !! file) as [content|] eqn:Hf.
  - destruct (rewrite content) as [| |t] eqn:Hr.
    + right; right; left. exists content.
      split; [done|]. split; [done|]. by apply apply_patch_already with content.
    + right; right; right; left. exists content.
      split; [done|]. split; [done|]. by apply apply_patch_notfound with content.
    + right; right; right; right. exists content, t.
      split; [done|]. split; [done|]. by apply apply_patch_patched with content.
  - destruct (decide (file ∈ dirs s)) as [Hd | Hd].
    + right; left. split; [done|]. split; [done|].
      unfold apply_patch, bind, exists_, get, ret, read_text, is_file, is_dir.
      simpl. rewrite Hf. rewrite bool_decide_false by (by intros [? ?]).
      rewrite bool_decide_true by done. simpl. unfold bind, get. by rewrite Hf.
    + left. split; [done|]. split; [done|]. by apply apply_patch_missing.
Qed.
End ApplyPatchCases.

(** The patch method of [T] on a patcher that has found [root], with the
    entry it makes in [patches_applied]. *)
Lemma patch_of_apply_tag T root s :
  pyhula_path s = Some root →
  ∃ missing already applied notfound,
    patch_of T s = apply_patch (target_file root T) (rewrite_of T)
                     missing already applied notfound (tag_of T) s.
Proof.
  intros H. destruct T; do 4 eexists; simpl;
    [unfold patch_mavlink_header | unfold patch_udp_binding
     | unfold patch_userapi_connection];
    unfold bind at 1, get_pyhula_path, bind, get; rewrite H; reflexivity.
Qed.

Lemma patch_of_no_path T s :
  pyhula_path s = None → patch_of T s = (Raise TypeError, s).
Proof.
  intros H. destruct T; simpl;
    [unfold patch_mavlink_header | unfold patch_udp_binding
     | unfold patch_userapi_connection];
    unfold bind at 1, get_pyhula_path, bind, get; by rewrite H.
Qed.

(** The outcomes of the patch method of [T] on a patcher that has found
    [root]. *)
Lemma patch_of_cases T root s :
  pyhula_path s = Some root →
  (files s !! target_file root T = None ∧ (target_file root T ∉ dirs s)
   ∧ ∃ line, patch_of T s = (Ok FILE_MISSING, say line s))
  ∨ (files s !! target_file root T = None ∧ target_file root T ∈ dirs s
     ∧ patch_of T s = (Raise OSError, s))
  ∨ (∃ content r line,
       files s !! target_file root T = Some content
       ∧ (r = ALREADY_APPLIED ∨ r = PATTERN_NOT_FOUND)
       ∧ patch_of T s = (Ok r, say line s))
  ∨ (∃ content, files s !! target_file root T = Some content
       ∧ patch_of T s = (Raise OSError, s))
  ∨ (∃ content t applied,
       files s !! target_file root T = Some content
       ∧ rewrite_of T content = Patched t
       ∧ patch_of T s
         = (Ok APPLIED, patched_state (target_file root T) applied (tag_of T) t s)).
Proof.
  intros Hroot.
  destruct (patch_of_apply_tag T root s Hroot)
    as (missing & already & applied & notfound & ->).
  destruct (apply_patch_cases (target_file root T) (rewrite_of T)
              missing already applied notfound (tag_of T) s)
    as [(Hf & Hd & H) | [(Hf & Hd & H) | [(c & Hf & Hr & H)
        | [(c & Hf & Hr & H) | (c & t & Hf & Hr & H)]]]].
  - left. split; [done|]. split; [done|]. by eexists.
  - right; left. done.
  - right; right; left. exists c, ALREADY_APPLIED, already. auto.
  - right; right; left. exists c, PATTERN_NOT_FOUND, notfound. auto.
  - destruct (is_dir s _ || bool_decide _).
    + right; right; right; left. by exists c.
    + right; right; right; right. by exists c, t, applied.
Qed.

(** X3.  [create_backup] returns [False] exactly on a patcher that has
    not found the installation, and then it leaves everything, the
    attribute [backup_dir] too, as it was.  What the file system refuses
    is raised, never returned as [False]: in [apply_all_patches], where
    the installation has been found, the backup step does not return
    [False]. *)
Theorem create_backup_false_iff (s : State) :
  ((create_backup s).1 = Ok false ↔ pyhula_path s = None)
  ∧ (pyhula_path s = None → (create_backup s).2 = s)
  ∧ (∀ root, (create_backup (found_state root s)).1 ≠ Ok false).
Proof.
  assert (∀ s0, (create_backup s0).1 = Ok false → pyhula_path s0 = None) as Hfalse.
  { intros s0 H. destruct (pyhula_path s0) as [root|] eqn:Hroot; [|done].
    apply run_pair in H. by apply (create_backup_true root) in H. }
  split; [split|split].
  - apply Hfalse.
  - intros H. unfold create_backup, bind, get. by rewrite H.
  - intros H. unfold create_backup, bind, get. by rewrite H.
  - intros root H. by apply Hfalse in H.
Qed.

(** X4.  A patch method raises a [TypeError] exactly when it is called
    on a patcher that has not found the installation; nothing has changed
    then, and no line has been printed. *)
Theorem patch_before_find_raises (T : TargetId) (s : State) :
  ((patch_of T s).1 = Raise TypeError ↔ pyhula_path s = None)
  ∧ (pyhula_path s = None → patch_of T s = (Raise TypeError, s)).
Proof.
  split; [split|]; [|intros H; by rewrite patch_of_no_path|apply patch_of_no_path].
  intros H. destruct (pyhula_path s) as [root|] eqn:Hroot; [|done].
  destruct (patch_of_cases T root s Hroot)
    as [(_ & _ & l & E) | [(_ & _ & E) | [(c & r & l & _ & _ & E)
        | [(c & _ & E) | (c & t & a & _ & _ & E)]]]];
    rewrite E in H; discriminate.
Qed.

(** X5.  The outcomes of a patch method on a patcher that has found the
    installation.  It reports a missing file exactly when nothing, neither
    file nor directory, is at the place of its file; a directory there
    makes it raise an [OSError] before anything is printed or written.
    Whenever it returns without having applied its patch, one line has
    been printed and nothing else has changed; and when it has applied its
    patch, the file holds the text of the rewrite and everything else on
    the file system is as it was. *)
Theorem patch_outcomes (T : TargetId) (root : path) (s : State) :
  pyhula_path s = Some root →
  let file := target_file root T in
  let s' := (patch_of T s).2 in
  ((patch_of T s).1 = Ok FILE_MISSING ↔ files s !! file = None ∧ file ∉ dirs s)
  ∧ (files s !! file = None → file ∈ dirs s → patch_of T s = (Raise OSError, s))
  ∧ (∀ r, (patch_of T s).1 = Ok r → r ≠ APPLIED → ∃ line, s' = say line s)
  ∧ ((patch_of T s).1 = Ok APPLIED →
     ∃ content t, files s !! file = Some content
       ∧ rewrite_of T content = Patched t
       ∧ files s' = <[file := t]> (files s)
       ∧ dirs s' = dirs s).
Proof.
  intros Hroot file s'. unfold s'.
  destruct (patch_of_cases T root s Hroot)
    as [(Hf & Hd & l & E) | [(Hf & Hd & E) | [(c & r & l & Hf & Hr & E)
        | [(c & Hf & E) | (c & t & a & Hf & Hr & E)]]]];
    rewrite E; simpl; fold file in Hf |- *.
  - split; [split; [intros _; by split | done]|].
    split; [intros _ Hin; by destruct Hd|].
    split; [intros r _ _; by exists l|]. intros [=].
  - split; [split; [intros [=] | intros [_ Hn]; by destruct Hn]|].
    split; [done|]. split; [intros r [=]|]. intros [=].
  - split.
    { split; [intros [= ->]; by destruct Hr | rewrite Hf; by intros [[=] _]]. }
    split; [rewrite Hf; intros [=]|].
    split; [intros r0 _ _; by exists l|].
    intros [= ->]. by destruct Hr.
  - split; [split; [intros [=] | rewrite Hf; by intros [[=] _]]|].
    split; [rewrite Hf; intros [=]|]. split; [intros r [=]|]. intros [=].
  - split; [split; [intros [=] | rewrite Hf; by intros [[=] _]]|].
    split; [rewrite Hf; intros [=]|].
    split; [intros r [= <-] Hne; by destruct Hne|].
    intros _. by exists c, t.
Qed.

(** X5 at the demo installation without its MAVLink file. *)
Lemma patch_outcomes_witness :
  let s := set_pyhula_path (Some demo_root) demo_world2 in
  let file := target_file demo_root MavlinkHeader in
  let s' := (patch_of MavlinkHeader s).2 in
  ((patch_of MavlinkHeader s).1 = Ok FILE_MISSING
   ↔ files s !! file = None ∧ file ∉ dirs s)
  ∧ (files s !! file = None → file ∈ dirs s
     → patch_of MavlinkHeader s = (Raise OSError, s))
  ∧ (∀ r, (patch_of MavlinkHeader s).1 = Ok r → r ≠ APPLIED → ∃ line, s' = say line s)
  ∧ ((patch_of MavlinkHeader s).1 = Ok APPLIED →
     ∃ content t, files s !! file = Some content
       ∧ rewrite_of MavlinkHeader content = Patched t
       ∧ files s' = <[file := t]> (files s)
       ∧ dirs s' = dirs s).
Proof.
  refine (patch_outcomes MavlinkHeader demo_root
            (set_pyhula_path (Some demo_root) demo_world2) _).
  reflexivity.
Defined.

(** * What a program leaves alone *)

Section Unchanged.
Context {B : Type} (f : State → B).
Hypothesis f_trace : ∀ t s, f (set_trace t s) = f s.
Hypothesis f_files : ∀ m s, f (set_files m s) = f s.
Hypothesis f_dirs : ∀ d s, f (set_dirs d s) = f s.

Lemma unchanged_ret {A} (a : A) : unchanged f (ret a).
Proof. done. Qed.

Lemma unchanged_raise {A} e : unchanged f (@raise A e).
Proof. done. Qed.

Lemma unchanged_bind {A C} (m : M A) (k : A → M C) :
  unchanged f m → (∀ a, unchanged f (k a)) → unchanged f (bind m k).
Proof.
  intros Hm Hk s. unfold bind. specialize (Hm s).
  destruct (m s) as [[a|e] s1]; simpl in *; [|done].
  by rewrite Hk.
Qed.

Lemma unchanged_get {A} (k : State → M A) :
  (∀ s0, unchanged f (k s0)) → unchanged f (bind get k).
Proof. intros H s. unfold bind, get. apply H. Qed.

Lemma unchanged_emit e : unchanged f (emit e).
Proof. intros s. apply f_trace. Qed.

Lemma unchanged_print line : unchanged f (print line).
Proof. apply unchanged_emit. Qed.

Lemma unchanged_for_each {A} (l : list A) (body : A → M unit) :
  (∀ x, unchanged f (body x)) → unchanged f (for_each l body).
Proof.
  intros H. induction l as [|x l IH]; simpl; [apply unchanged_ret|].
  apply unchanged_bind; [apply H | done].
Qed.

Lemma unchanged_exists p : unchanged f (exists_ p).
Proof. apply unchanged_get. intros s. apply unchanged_ret. Qed.

Lemma unchanged_put_file p t : unchanged f (put_file p t).
Proof. intros s. apply f_files. Qed.

Lemma unchanged_add_dir q : unchanged f (add_dir q).
Proof.
  apply unchanged_bind; [|intros _; apply unchanged_emit].
  intros s. apply f_dirs.
Qed.

Lemma unchanged_os_mkdir p : unchanged f (os_mkdir p).
Proof.
  apply unchanged_get. intros s.
  destruct (is_file s p || is_dir s p); [apply unchanged_raise|].
  destruct (negb (bool_decide (parent p = []) || is_dir s (parent p)));
    [apply unchanged_raise|].
  destruct (bool_decide (p ∈ locked s)); [apply unchanged_raise|].
  apply unchanged_add_dir.
Qed.

Lemma unchanged_makedirs n rest p : unchanged f (makedirs_from n rest p).
Proof.
  revert n. induction rest as [|c rest IH]; intros n; simpl.
  - apply unchanged_ret.
  - apply unchanged_get. intros s. apply unchanged_bind; [|done].
    destruct (is_dir s (take (S n) p)); [apply unchanged_ret|].
    destruct (is_file s (take (S n) p)); [apply unchanged_raise|].
    destruct (bool_decide (take (S n) p ∈ locked s)); [apply unchanged_raise|].
    apply unchanged_add_dir.
Qed.

Lemma unchanged_copy2 src dst : unchanged f (copy2 src dst).
Proof.
  apply unchanged_get. intros s.
  destruct (files s !! src) as [t|]; [|apply unchanged_raise]. cbv zeta.
  destruct (bool_decide (src = _)); [apply unchanged_raise|].
  destruct (is_dir s _ || bool_decide (_ ∈ locked s)); [apply unchanged_raise|].
  apply unchanged_bind; [apply unchanged_put_file | intros _; apply unchanged_emit].
Qed.

Lemma unchanged_backup_one root bdir file_path :
  unchanged f (backup_one root bdir file_path).
Proof.
  unfold backup_one. apply unchanged_bind; [apply unchanged_exists|].
  intros [|]; [|apply unchanged_ret].
  apply unchanged_bind; [apply unchanged_makedirs|]. intros _.
  apply unchanged_bind; [apply unchanged_copy2 | intros _; apply unchanged_print].
Qed.

Lemma unchanged_create_backup :
  (∀ d s, f (set_backup_dir d s) = f s) → unchanged f create_backup.
Proof.
  intros f_backup. unfold create_backup. apply unchanged_get. intros s.
  destruct (pyhula_path s) as [root|]; [|apply unchanged_ret].
  apply unchanged_bind; [intros s0; apply f_backup|]. intros _.
  apply unchanged_bind; [apply unchanged_exists|]. intros ex.
  apply unchanged_bind.
  - destruct ex; [apply unchanged_ret|].
    apply unchanged_bind; [apply unchanged_os_mkdir | intros _; apply unchanged_print].
  - intros _. apply unchanged_bind; [|intros _; apply unchanged_ret].
    apply unchanged_for_each. intros x. apply unchanged_backup_one.
Qed.

Lemma unchanged_verify_patches : unchanged f verify_patches.
Proof.
  unfold verify_patches. apply unchanged_bind; [apply unchanged_print|]. intros _.
  apply unchanged_get. intros s.
  destruct (reload_error s);
    (apply unchanged_bind; [apply unchanged_print | intros _; apply unchanged_ret]).
Qed.

Lemma unchanged_report n : unchanged f (report n).
Proof.
  unfold report. apply unchanged_bind.
  { destruct (0 <? n)%nat; [|apply unchanged_ret].
    apply unchanged_bind; [apply unchanged_verify_patches|].
    intros _. apply unchanged_ret. }
  intros _. apply unchanged_bind; [apply unchanged_print|]. intros _.
  apply unchanged_get. intros s0.
  apply unchanged_bind; [apply unchanged_print|]. intros _.
  apply unchanged_bind; [apply unchanged_print|]. intros _.
  apply unchanged_bind.
  { destruct (n =? length patches)%nat; [|apply unchanged_print].
    apply unchanged_bind; [apply unchanged_print | intros _; apply unchanged_print]. }
  intros _. apply unchanged_bind; [apply unchanged_print|]. intros _.
  apply unchanged_bind; [apply unchanged_print|]. intros _. apply unchanged_ret.
Qed.
End Unchanged.

(** * The list of the applied patches *)

(** The patch methods of [Ts], run one after the other as the loop of
    [apply_all_patches] runs them, add to [patches_applied] the entries of
    those that applied their patch. *)
Lemma attempts_applied root ps Ts s rs s' :
  Forall2 (λ (nf : string * M Reason) T, nf.2 = patch_of T) ps Ts →
  pyhula_path s = Some root →
  attempts ps s rs s' →
  patches_applied s' = patches_applied s ++ applied_tags Ts rs
  ∧ length (applied_tags Ts rs) ≤ successes rs.
Proof.
  intros HT Hroot Ha. revert Ts HT Hroot.
  induction Ha as [s | name g ps s r s1 rs s' Hg Ha IH]; intros Ts HT Hroot.
  - destruct Ts; simpl; rewrite ?app_nil_r; split; (done || lia).
  - apply Forall2_cons_inv_l in HT as (T & Ts' & HgT & HT & ->).
    simpl in HgT. subst g.
    set (s0 := say (nl +:+ "Applying " +:+ name +:+ "...") s) in *.
    assert (pyhula_path s0 = Some root) as Hroot0 by done.
    assert (patches_applied s1
            = patches_applied s ++ match r with APPLIED => [tag_of T] | _ => [] end
            ∧ pyhula_path s1 = Some root) as [Happ Hroot1].
    { destruct (patch_of_cases T root s0 Hroot0)
        as [(_ & _ & l & E) | [(_ & _ & E) | [(c & r' & l & _ & Hr & E)
            | [(c & _ & E) | (c & t & a & _ & _ & E)]]]];
        rewrite E in Hg; simplify_eq/=; rewrite ?app_nil_r; try done.
      by destruct Hr as [-> | ->]; rewrite app_nil_r. }
    destruct (IH Ts' HT) as [Hrest Hlen].
    { by destruct (succeeded r). }
    assert (patches_applied (if succeeded r then s1
                             else say ("✗ Failed to apply " +:+ name) s1)
            = patches_applied s1) as Hsame by (by destruct (succeeded r)).
    rewrite Hrest, Hsame, Happ. unfold successes in *.
    rewrite filter_cons. destruct r; simpl.
    all: rewrite <- ?app_assoc, ?app_nil_r; simpl.
    all: split; [done|].
    all: lia.
Qed.

Lemma patches_are_targets :
  Forall2 (λ (nf : string * M Reason) T, nf.2 = patch_of T) patches all_targets.
Proof. unfold patches, all_targets. repeat constructor. Qed.

(** The lines of the summary. *)
Lemma report_lines n s :
  let s' := (report n s).2 in
  Print ("Patch Summary: " +:+ pretty n +:+ "/" +:+
         pretty (length patches) +:+ " patches applied") ∈ trace s'
  ∧ Print ("Applied patches: " +:+ String.concat ", " (patches_applied s))
      ∈ trace s'.
Proof.
  unfold report, verify_patches, bind, print, emit, modify, get, ret. simpl.
  destruct (0 <? n)%nat; [destruct (reload_error s)|];
    destruct (n =? 3)%nat; simpl; split;
    repeat (apply elem_of_app;
            first [right; apply list_elem_of_singleton; reflexivity | left]).
Qed.

(** The list of applied patches for a run given with its final state. *)
Lemma applied_list_run root s b s' :
  installed s = Some root →
  apply_all_patches s = (Ok b, s') →
  ∃ rs sB s3,
    create_backup (found_state root s) = (Ok true, sB)
    ∧ attempts patches sB rs s3
    ∧ b = (0 <? successes rs)
    ∧ patches_applied s' = patches_applied s ++ applied_tags all_targets rs
    ∧ length (applied_tags all_targets rs) ≤ successes rs
    ∧ Print ("Patch Summary: " +:+ pretty (successes rs) +:+ "/" +:+
             pretty (length patches) +:+ " patches applied") ∈ trace s'
    ∧ Print ("Applied patches: " +:+ String.concat ", " (patches_applied s'))
        ∈ trace s'.
Proof.
  intros Hinst Hrun.
  destruct (apply_all_run root s b s' Hinst Hrun) as (sB & HB & HP).
  unfold patch_and_report in HP.
  apply bind_inv_ok in HP as (n & s3 & Hn & HR).
  pose proof (report_result _ _ _ _ HR) as ->.
  apply run_patches_attempts in Hn as (rs & Ha & ->). simpl in *.
  exists rs, sB, s3. split; [done|]. split; [done|]. split; [done|].
  assert (patches_applied sB = patches_applied s) as HaB.
  { pose proof (unchanged_create_backup patches_applied
                  (λ _ _, eq_refl) (λ _ _, eq_refl) (λ _ _, eq_refl)
                  (λ _ _, eq_refl) (found_state root s)) as H.
    by rewrite HB in H. }
  assert (pyhula_path sB = Some root) as HrootB.
  { pose proof (create_backup_keeps root (found_state root s) eq_refl) as Hev.
    rewrite HB in Hev. simpl in Hev. by rewrite (ev_path _ _ _ _ _ Hev). }
  destruct (attempts_applied root patches all_targets sB rs s3
              patches_are_targets HrootB Ha) as [Happ Hlen].
  assert (patches_applied s' = patches_applied s3) as Ha'.
  { pose proof (unchanged_report patches_applied
                  (λ _ _, eq_refl) (successes rs) s3) as H.
    by rewrite HR in H. }
  split; [by rewrite Ha', Happ, HaB|]. split; [done|].
  pose proof (report_lines (successes rs) s3) as [H1 H2].
  rewrite HR in H1, H2. simpl in H1, H2. split; [done|]. by rewrite Ha'.
Qed.

(** X6.  A pass that returns on an installation that is found: the list
    [patches_applied] has grown by the entries of the patches that were
    applied in this pass, in the order of the patches, and by nothing for
    a patch that was applied already, though that patch counts as a
    success.  So the summary may count more patches than the line of the
    applied patches, which prints the list, names. *)
Theorem applied_list_records (s : State) (root : path) (b : bool) :
  installed s = Some root →
  (apply_all_patches s).1 = Ok b →
  let s' := (apply_all_patches s).2 in
  ∃ rs sB s3,
    create_backup (found_state root s) = (Ok true, sB)
    ∧ attempts patches sB rs s3
    ∧ b = (0 <? successes rs)
    ∧ patches_applied s' = patches_applied s ++ applied_tags all_targets rs
    ∧ length (applied_tags all_targets rs) ≤ successes rs
    ∧ Print ("Patch Summary: " +:+ pretty (successes rs) +:+ "/" +:+
             pretty (length patches) +:+ " patches applied") ∈ trace s'
    ∧ Print ("Applied patches: " +:+ String.concat ", " (patches_applied s'))
        ∈ trace s'.
Proof.
  intros Hinst Hrun s'. apply (applied_list_run root s b s' Hinst).
  by apply run_pair.
Qed.

(** X6 at the demo installation after its first pass: the second pass
    counts the MAVLink patch as a success and adds no entry. *)
Lemma applied_list_records_witness :
  let s' := (apply_all_patches demo_patched).2 in
  (patches_applied demo_patched = ["mavlink_header_fix"]
   ∧ patches_applied s' = ["mavlink_header_fix"]
   ∧ Print "Patch Summary: 1/3 patches applied" ∈ trace s')
  ∧ ∃ rs sB s3,
    create_backup (found_state demo_root demo_patched) = (Ok true, sB)
    ∧ attempts patches sB rs s3
    ∧ true = (0 <? successes rs)
    ∧ patches_applied s'
      = patches_applied demo_patched ++ applied_tags all_targets rs
    ∧ length (applied_tags all_targets rs) ≤ successes rs
    ∧ Print ("Patch Summary: " +:+ pretty (successes rs) +:+ "/" +:+
             pretty (length patches) +:+ " patches applied") ∈ trace s'
    ∧ Print ("Applied patches: " +:+ String.concat ", " (patches_applied s'))
        ∈ trace s'.
Proof.
  split.
  - split; [vm_compute; reflexivity|]. split; [vm_compute; reflexivity|].
    refine (bool_decide_unpack _ _). vm_compute. exact I.
  - refine (applied_list_records demo_patched demo_root true _ _).
    + vm_compute. reflexivity.
    + vm_compute. reflexivity.
Defined.

(** * What a pass of the patches leaves alone *)

Lemma keeps_weaken {A} root (Pe Pe' : Event → Prop) (Pf Pf' Pn Pn' : path → Prop)
    (m : M A) :
  (∀ e, Pe e → Pe' e) → (∀ p, Pf p → Pf' p) → (∀ p, Pn p → Pn' p) →
  keeps root Pe Pf Pn m → keeps root Pe' Pf' Pn' m.
Proof. intros He Hf Hn H s Hs. eapply evolves_weaken; eauto. Qed.

(** The pass from the backup on. *)
Lemma backup_and_patch_keeps root :
  keeps root (λ _, True)
    (λ p, is_target root p ∨ below (backup_root root) p)
    (below (backup_root root)) backup_and_patch.
Proof.
  unfold backup_and_patch. apply keeps_bind.
  - eapply keeps_weaken; [| | |apply create_backup_keeps]; auto.
  - intros [|]; simpl.
    + eapply keeps_weaken; [| | |apply patch_and_report_keeps]; simpl; auto.
      tauto.
    + apply keeps_bind; [by apply keeps_print | intros _; apply keeps_ret].
Qed.

Lemma backup_and_patch_dirs root s q :
  pyhula_path s = Some root →
  q ∈ dirs (backup_and_patch s).2 → q ∈ dirs s ∨ made_by_backup root q.
Proof.
  intros Hroot. unfold backup_and_patch, bind at 1.
  pose proof (create_backup_dirs root s q Hroot) as HB.
  destruct (create_backup s) as [[[|]|e] sB]; simpl in *; [| |done].
  - intros Hq. apply HB.
    by destruct (st_dirs _ _ _ (tidy_patch_and_report (λ _, False) sB) q Hq).
  - intros Hq. by apply HB.
Qed.

(** X8.  A pass of the patches on an installation that is found,
    whatever it returns or raises: a file that is no target and does not
    lie in the backup tree holds what it held; no file has gone, and a
    file that is new lies in the backup tree; no directory has gone, and a
    directory that is new is on the way to a backup file; and what the
    file system refuses is the same. *)
Theorem patch_pass_frame (s : State) (root : path) :
  installed s = Some root →
  let s' := (apply_all_patches s).2 in
  (∀ p, ¬ is_target root p → ¬ below (backup_root root) p →
     files s' !! p = files s !! p)
  ∧ (∀ p, is_Some (files s !! p) → is_Some (files s' !! p))
  ∧ (∀ p, is_Some (files s' !! p) →
       is_Some (files s !! p) ∨ below (backup_root root) p)
  ∧ dirs s ⊆ dirs s'
  ∧ (∀ q, q ∈ dirs s' → q ∈ dirs s ∨ made_by_backup root q)
  ∧ locked s' = locked s.
Proof.
  intros Hinst s'. unfold s'. rewrite (apply_all_found root) by done.
  pose proof (backup_and_patch_keeps root (found_state root s) eq_refl) as Hev.
  split; [|split; [|split; [|split; [|split]]]].
  - intros p Ht Hb. rewrite (ev_frame _ _ _ _ _ Hev); [done | tauto].
  - intros p. apply (ev_kept _ _ _ _ _ Hev).
  - intros p. apply (ev_new _ _ _ _ _ Hev).
  - apply (ev_dirs _ _ _ _ _ Hev).
  - intros q Hq.
    exact (backup_and_patch_dirs root (found_state root s) q eq_refl Hq).
  - apply (ev_locked _ _ _ _ _ Hev).
Qed.

(** X8 at the demo installation. *)
Lemma patch_pass_frame_witness :
  let s' := (apply_all_patches demo_world).2 in
  (∀ p, ¬ is_target demo_root p → ¬ below (backup_root demo_root) p →
     files s' !! p = files demo_world !! p)
  ∧ (∀ p, is_Some (files demo_world !! p) → is_Some (files s' !! p))
  ∧ (∀ p, is_Some (files s' !! p) →
       is_Some (files demo_world !! p) ∨ below (backup_root demo_root) p)
  ∧ dirs demo_world ⊆ dirs s'
  ∧ (∀ q, q ∈ dirs s' → q ∈ dirs demo_world ∨ made_by_backup demo_root q)
  ∧ locked s' = locked demo_world.
Proof. refine (patch_pass_frame demo_world demo_root _). reflexivity. Defined.

(** * The UserApi connect patch, end to end *)

Lemma userapi_marker_no_newline : newline ∉ Userapi.marker.
Proof. refine (bool_decide_unpack _ _). vm_compute. exact I. Qed.

(** Spaces before a text bring no occurrence of a text that does not
    start with a space. *)
Lemma occurrences_spaces m0 m' d l :
  m0 ≠ 32%N →
  occurrences (m0 :: m') (spaces d ++ l) = occurrences (m0 :: m') l.
Proof.
  intros Hm. induction d as [|d IH]; [done|].
  change (spaces (S d) ++ l) with (32%N :: (spaces d ++ l)).
  cbn [occurrences startswith]. rewrite IH.
  by rewrite (proj2 (N.eqb_neq m0 32) Hm).
Qed.

(** The marker in the lines that take the place of a connect method:
    once, at whatever depth. *)
Lemma userapi_marker_in_emit d :
  sum_list_with (occurrences Userapi.marker) (Userapi.emit d) = 1.
Proof.
  unfold Userapi.emit.
  trans (sum_list_with
           (λ l, if nonblank l then occurrences Userapi.marker l else 0)
           (split newline Userapi.robust_connect)); [|vm_compute; reflexivity].
  induction (split newline Userapi.robust_connect) as [|l ls IH]; [done|].
  simpl. rewrite IH. f_equal.
  destruct (nonblank l); [|done].
  by apply occurrences_spaces.
Qed.

(** The marker in the text the connect patch writes: once for each line
    that carries the signature. *)
Lemma userapi_marker_count content :
  contains Userapi.marker content = false →
  occurrences Userapi.marker
    (join [newline] (scan Userapi.opens Userapi.emit Userapi.ends (split newline content)))
  = length (filter (λ l, Userapi.opens l = true) (split newline content)).
Proof.
  intros Hm.
  rewrite occurrences_join by (apply userapi_marker_no_newline || done).
  unfold scan. rewrite (scan_sum _ _ _ _ 1).
  - simpl. lia.
  - apply Forall_forall. intros l Hl. apply occurrences_zero.
    by apply (contains_line_false _ newline content).
  - apply userapi_marker_in_emit.
Qed.

(** The lines of the new connect method are those of [robust_connect],
    each behind as many spaces as the old header had. *)
Lemma userapi_emit_indented d :
  Userapi.emit d = (λ l, spaces d ++ l) <$> split newline Userapi.robust_connect.
Proof.
  unfold Userapi.emit.
  assert (Forall (λ l, nonblank l = true) (split newline Userapi.robust_connect))
    as H by (refine (bool_decide_unpack _ _); vm_compute; exact I).
  induction H as [|l ls Hl _ IH]; [done|].
  simpl. by rewrite Hl, IH.
Qed.

(** X9.  On a file without the marker in which one line carries the
    signature of [connect], the connect patch writes the lines before that
    line, then the lines of the new method, each behind as many spaces as
    that line was indented, in place of that line and of the lines of its
    block, then the lines from the end of the block on.  The marker is in
    that text exactly once, and the patch finds it there when it is run
    again. *)
Theorem connect_patch_end_to_end
    (content : text) (pre : list text) (o : text) (body rest : list text) :
  contains Userapi.marker content = false →
  split newline content = pre ++ o :: body ++ rest →
  Forall (λ l, Userapi.opens l = false) pre →
  Userapi.opens o = true →
  Forall (λ l, Userapi.opens l = false ∧ Userapi.ends (indent o) l = false) body →
  Forall (λ l, Userapi.opens l = false) rest →
  match rest with [] => True | t :: _ => Userapi.ends (indent o) t = true end →
  ∃ patched,
    Userapi.rewrite content = Patched patched
    ∧ patched
      = join [newline]
          (pre ++ ((λ l, spaces (indent o) ++ l)
                     <$> split newline Userapi.robust_connect) ++ rest)
    ∧ occurrences Userapi.marker patched = 1
    ∧ Userapi.rewrite patched = Already.
Proof.
  intros Hm Hlines Hpre Ho Hbody Hrest Hend.
  set (patched := join [newline] (scan Userapi.opens Userapi.emit Userapi.ends
                                     (split newline content))).
  exists patched.
  assert (contains Userapi.connect_pattern content = true) as Hp.
  { rewrite <- (join_split newline content).
    apply (contains_join _ _ o); [|done].
    rewrite Hlines. apply elem_of_app. right. by left. }
  assert (occurrences Userapi.marker patched = 1) as Hone.
  { unfold patched. rewrite userapi_marker_count by done. rewrite Hlines.
    rewrite filter_app, filter_cons, filter_app, !length_app.
    rewrite decide_True by done. simpl.
    rewrite (filter_none _ pre), (filter_none _ rest), (filter_none _ body);
      [done | | done | done].
    eapply Forall_impl; [exact Hbody|]. by intros l [Hl _]. }
  split; [|split; [|split]].
  - unfold Userapi.rewrite. by rewrite Hm, Hp.
  - unfold patched. rewrite Hlines.
    by rewrite scan_single, userapi_emit_indented.
  - done.
  - unfold Userapi.rewrite.
    destruct (contains Userapi.marker patched) eqn:E; [done|].
    apply occurrences_zero in E. rewrite E in Hone. discriminate.
Qed.

(** X9 at the UserApi of the fixture: the method at depth 4 gives way to
    the new method at depth 4, the class line and the next method stay. *)
Lemma connect_patch_end_to_end_witness :
  ∃ patched,
    Userapi.rewrite userapi_fixture = Patched patched
    ∧ patched
      = join [newline]
          ([lit "class UserApi:"] ++
           ((λ l, spaces 4 ++ l) <$> split newline Userapi.robust_connect) ++
           [lit "    def land(self):"; lit "        pass"])
    ∧ occurrences Userapi.marker patched = 1
    ∧ Userapi.rewrite patched = Already.
Proof.
  refine (connect_patch_end_to_end userapi_fixture
            [lit "class UserApi:"]
            (lit "    " ++ Userapi.connect_pattern)
            [lit "        return self._control_server.connect(server_ip)"; []]
            [lit "    def land(self):"; lit "        pass"]
            _ _ _ _ _ _ _).
  - vm_compute. reflexivity.
  - vm_compute. reflexivity.
  - repeat constructor.
  - vm_compute. reflexivity.
  - refine (bool_decide_unpack _ _). vm_compute. exact I.
  - repeat constructor.
  - vm_compute. reflexivity.
Defined.

(** * The test scripts *)

Section ScriptFacts.
Import Script.

Lemma step_nil c : step c [] [] = c.
Proof. destruct c. unfold step. simpl. by rewrite !app_nil_r. Qed.

Lemma step_step c l1 f1 l2 f2 :
  step (step c l1 f1) l2 f2 = step c (l1 ++ l2) (f1 ++ f2).
Proof. unfold step. simpl. by rewrite !app_assoc. Qed.

Lemma script_print_run line c : print line c = (Returns tt, step c [line] []).
Proof. unfold print, step. by rewrite app_nil_r. Qed.

Lemma script_bind_run {A B} (m : P A) (k : A → P B) c a c' :
  m c = (Returns a, c') → bind m k c = k a c'.
Proof. intros H. unfold bind. by rewrite H. Qed.

Lemma script_bind_throw {A B} (m : P A) (k : A → P B) c e c' :
  m c = (Throws e, c') → bind m k c = (Throws e, c').
Proof. intros H. unfold bind. by rewrite H. Qed.

(** A loop of prints returns, and prints its lines. *)
Lemma for_each_print {A} (l : list A) (line : A → string) c :
  for_each l (λ x, print (line x)) c = (Returns tt, step c (line <$> l) []).
Proof.
  revert c. induction l as [|x l IH]; intros c.
  - simpl. by rewrite step_nil.
  - simpl. rewrite (script_bind_run _ _ _ _ _ (script_print_run _ c)).
    by rewrite IH, step_step.
Qed.

(** ** [test_patched_pyhula.py] *)

Lemma connection_robustness_run w api c :
  ∃ line, PatchedTest.test_connection_robustness w api c
          = (Returns true,
             step c [nl +:+ "Testing connection robustness..."; line] [])
          ∧ ((∃ r, line = "Connection result: " +:+ r)
             ∨ (∃ m, line = "Connection test result: " +:+ m)).
Proof.
  unfold PatchedTest.test_connection_robustness, PatchedTest.method,
    bind, catch, call, throw, print, ret, step. simpl.
  destruct api as [[]|]; [destruct (PatchedTest.connect w _) as [r|e]|];
    simpl; eexists; (split; [rewrite <- ?app_assoc, ?app_nil_r; reflexivity|]);
    eauto.
Qed.

Lemma command_robustness_run w api c :
  ∃ line, PatchedTest.test_command_robustness w api c
          = (Returns true,
             step c [nl +:+ "Testing command robustness..."; line] [])
          ∧ ((∃ r, line = "Takeoff command result: " +:+ r)
             ∨ (∃ m, line = "Command test error (expected without drone): " +:+ m)).
Proof.
  unfold PatchedTest.test_command_robustness, PatchedTest.method,
    bind, catch, call, throw, print, ret, step. simpl.
  destruct api as [[]|]; [destruct (PatchedTest.single_fly_takeoff w) as [r|e]|];
    simpl; eexists; (split; [rewrite <- ?app_assoc, ?app_nil_r; reflexivity|]);
    eauto.
Qed.


Lemma pyhula_basic_run w c :
  PatchedTest.test_pyhula_basic w c
  = match PatchedTest.import_pyhula w, PatchedTest.new_UserApi w with
    | Returns _, Returns api =>
        (Returns (true, Some api),
         step c ["✓ PyHula imported successfully";
                 "✓ UserApi created successfully"] [])
    | Returns _, Throws e =>
        (Returns (false, None),
         step c ["✓ PyHula imported successfully";
                 "✗ PyHula basic test failed: " +:+ str_of_exc e] [])
    | Throws e, _ =>
        (Returns (false, None),
         step c ["✗ PyHula basic test failed: " +:+ str_of_exc e] [])
    end.
Proof.
  unfold PatchedTest.test_pyhula_basic, bind, catch, call, print, ret, step.
  destruct (PatchedTest.import_pyhula w) as [[]|e1];
    [destruct (PatchedTest.new_UserApi w) as [[]|e2]|];
    simpl; by rewrite <- ?app_assoc, ?app_nil_r.
Qed.

(** One step of a program: a part that returns, and a line printed. *)
Ltac run_with H := erewrite script_bind_run by exact H.
Ltac run_print := erewrite script_bind_run by apply script_print_run.

(** A line that is none of the lines of a list given by its members. *)
Ltac not_a_line H :=
  repeat (apply elem_of_cons in H as [H | H]; [simpl in H; discriminate H|]);
  by apply elem_of_nil in H.

(** X10.  The two robustness tests of the patched installation return
    [True] whatever the drone answers, also when the call raises.  So
    [main] always returns, writes no file and never prints that some
    tests failed; and once [import pyhula] and [UserApi()] have gone
    through, its lines are the same whatever the drone does, but for the
    two lines that tell what the calls answered: both the connection and
    the command are reported as passed. *)
Theorem patched_test_cannot_fail (w : PatchedTest.Drone) (c : Console) :
  let r := PatchedTest.main w c in
  (∀ api, (PatchedTest.test_connection_robustness w api c).1 = Returns true
          ∧ (PatchedTest.test_command_robustness w api c).1 = Returns true)
  ∧ r.1 = Returns tt
  ∧ created r.2 = created c
  ∧ ∃ lines,
      printed r.2 = printed c ++ lines
      ∧ ((nl +:+ "⚠ Some tests failed. Patches may need adjustment.") ∉ lines)
      ∧ (returns (PatchedTest.import_pyhula w)
         && returns (PatchedTest.new_UserApi w) = true →
         ∃ l1 l2, lines = passed_lines l1 l2).
Proof.
  intros r. split.
  { intros api.
    destruct (connection_robustness_run w api c) as (l1 & -> & _).
    destruct (command_robustness_run w api c) as (l2 & -> & _). done. }
  unfold r, PatchedTest.main. run_print. run_print.
  match goal with |- context [bind (PatchedTest.test_pyhula_basic w) _ ?c0] =>
    pose proof (pyhula_basic_run w c0) as Hb end.
  destruct (PatchedTest.import_pyhula w) as [[]|e1];
    [destruct (PatchedTest.new_UserApi w) as [[]|e2]|];
    run_with Hb; cbn [fst snd negb].
  - rewrite !step_step.
    match goal with
    |- context [bind (PatchedTest.test_connection_robustness w _) _ ?c0] =>
      destruct (connection_robustness_run w (Some tt) c0) as (l1 & H1 & Hl1) end.
    run_with H1. rewrite step_step.
    match goal with
    |- context [bind (PatchedTest.test_command_robustness w _) _ ?c0] =>
      destruct (command_robustness_run w (Some tt) c0) as (l2 & H2 & Hl2) end.
    run_with H2. rewrite step_step.
    do 5 run_print. cbn [andb PatchedTest.verdict]. do 3 run_print.
    rewrite script_print_run, !step_step. simpl.
    split; [done|]. split; [by rewrite !app_nil_r|].
    exists (passed_lines l1 l2). split; [|split].
    + unfold passed_lines. by rewrite <- ?app_assoc.
    + intros H. unfold passed_lines in H.
      destruct Hl1 as [[x ->] | [x ->]], Hl2 as [[y ->] | [y ->]]; not_a_line H.
    + intros _. by exists l1, l2.
  - rewrite script_print_run, !step_step. simpl.
    split; [done|]. split; [by rewrite !app_nil_r|].
    eexists. split; [done|]. split; [|done].
    intros H. not_a_line H.
  - rewrite script_print_run, !step_step. simpl.
    split; [done|]. split; [by rewrite !app_nil_r|].
    eexists. split; [done|]. split; [|done].
    intros H. not_a_line H.
Qed.

(** X10 at a drone whose calls all raise. *)
Example dead_drone_passes :
  printed (PatchedTest.main dead_drone (mkConsole [] [])).2
  = passed_lines "Connection test result: timed out"
      "Command test error (expected without drone): not connected".
Proof. vm_compute. reflexivity. Qed.

(** ** [test_pyhula_installation.py] *)

Lemma print_header_run title c :
  InstallTest.print_header title c = (Returns tt, step c (header_lines title) []).
Proof.
  unfold InstallTest.print_header. do 2 run_print.
  by rewrite script_print_run, !step_step.
Qed.

Lemma python_version_run w :
  ∃ lines, ∀ c, InstallTest.test_python_version w c
                = (Returns (python_ok w), step c lines []).
Proof.
  unfold InstallTest.test_python_version, python_ok.
  destruct ((InstallTest.version_major w =? 3)%nat
            && (InstallTest.version_minor w =? 6)%nat).
  - eexists. intros c.
    erewrite script_bind_run by apply print_header_run. do 2 run_print.
    unfold ret. rewrite !step_step. reflexivity.
  - eexists. intros c.
    erewrite script_bind_run by apply print_header_run. do 3 run_print.
    unfold ret. rewrite !step_step. reflexivity.
Qed.

Lemma check_packages_run w ps all_good c :
  Forall (importable w) ps →
  InstallTest.check_packages w ps all_good c
  = (Returns (all_good
              && forallb (λ p : string * string,
                            returns (InstallTest.import_package w p.1)) ps),
     step c (package_line w <$> ps) []).
Proof.
  intros Hps. revert all_good c.
  induction Hps as [|[name descr] ps Hp _ IH]; intros all_good c.
  - simpl. unfold ret. by rewrite andb_true_r, step_nil.
  - cbn [InstallTest.check_packages]. unfold importable in Hp. simpl in Hp.
    unfold bind at 1, catch_import, catch, bind at 1, call.
    unfold package_line at 1. cbn [fmap list_fmap forallb fst snd].
    destruct (InstallTest.import_package w name) as [[]|[m|m]]; [| |done].
    + unfold bind. rewrite script_print_run. unfold ret.
      rewrite IH, step_step. simpl. done.
    + unfold bind. rewrite script_print_run. unfold ret.
      rewrite IH, step_step. simpl. by rewrite andb_false_r.
Qed.

Lemma check_packages_raises w pre name descr rest msg all_good c :
  Forall (importable w) pre →
  InstallTest.import_package w name = Throws (OtherError msg) →
  InstallTest.check_packages w (pre ++ (name, descr) :: rest) all_good c
  = (Throws (OtherError msg), step c (package_line w <$> pre) []).
Proof.
  intros Hpre Hp. revert all_good c.
  induction Hpre as [|[name' descr'] ps Hp' _ IH]; intros all_good c.
  - cbn [app InstallTest.check_packages].
    unfold bind at 1, catch_import, catch, bind at 1, call. rewrite Hp.
    unfold throw. simpl. by rewrite step_nil.
  - cbn [app InstallTest.check_packages]. unfold importable in Hp'. simpl in Hp'.
    unfold bind at 1, catch_import, catch, bind at 1, call.
    unfold package_line at 1. cbn [fmap list_fmap fst snd].
    destruct (InstallTest.import_package w name') as [[]|[m|m]]; [| |done].
    + unfold bind at 1. rewrite script_print_run. unfold ret.
      rewrite IH, step_step. done.
    + unfold bind at 1. rewrite script_print_run. unfold ret.
      rewrite IH, step_step. done.
Qed.

(** The header and the loop over the packages, when no import raises
    an exception of another class. *)
Lemma essential_packages_run w c :
  Forall (importable w) InstallTest.packages →
  InstallTest.test_essential_packages w c
  = (Returns (packages_ok w),
     step c (header_lines "Essential Packages Test"
             ++ (package_line w <$> InstallTest.packages)) []).
Proof.
  intros H. unfold InstallTest.test_essential_packages.
  erewrite script_bind_run by apply print_header_run.
  rewrite check_packages_run by done. by rewrite step_step.
Qed.

(** X11.  [test_essential_packages] asks for each of the four packages
    in turn, whatever the ones before have answered: when every import
    returns or raises an [ImportError], it prints its header and one line
    for each package, by the answer of that package alone, and returns
    whether all four imports have returned.  An exception of another
    class is not caught: it leaves the function at that package, after
    the lines of the packages before it. *)
Theorem essential_packages_result (w : InstallTest.Env) (c : Console) :
  (Forall (importable w) InstallTest.packages →
   InstallTest.test_essential_packages w c
   = (Returns (packages_ok w),
      step c (header_lines "Essential Packages Test"
              ++ (package_line w <$> InstallTest.packages)) []))
  ∧ (∀ pre name descr rest msg,
       InstallTest.packages = pre ++ (name, descr) :: rest →
       Forall (importable w) pre →
       InstallTest.import_package w name = Throws (OtherError msg) →
       InstallTest.test_essential_packages w c
       = (Throws (OtherError msg),
          step c (header_lines "Essential Packages Test"
                  ++ (package_line w <$> pre)) [])).
Proof.
  split.
  - apply essential_packages_run.
  - intros pre name descr rest msg Hps Hpre Hp.
    unfold InstallTest.test_essential_packages. rewrite Hps.
    erewrite script_bind_run by apply print_header_run.
    rewrite (check_packages_raises w pre name descr rest msg) by done.
    by rewrite step_step.
Qed.

(** X11 in an environment without [cython]: the line of every package
    is printed, and the test fails. *)
Lemma essential_packages_result_witness :
  InstallTest.test_essential_packages demo_env (mkConsole [] [])
  = (Returns false,
     step (mkConsole [] [])
       (header_lines "Essential Packages Test"
        ++ (package_line demo_env <$> InstallTest.packages)) []).
Proof.
  refine (proj1 (essential_packages_result demo_env (mkConsole [] [])) _).
  repeat constructor.
Defined.

Lemma script_catch_run {A} (m : P A) (h : Exc → P A) c a c' :
  m c = (Returns a, c') → catch m h c = (Returns a, c').
Proof. intros H. unfold catch. by rewrite H. Qed.

Lemma script_catch_throw {A} (m : P A) (h : Exc → P A) c e c' :
  m c = (Throws e, c') → catch m h c = h e c'.
Proof. intros H. unfold catch. by rewrite H. Qed.

Lemma script_call_run {A B} (a : Answer A) (x : A) (k : A → P B) c :
  a = Returns x → bind (call a) k c = k x c.
Proof. by intros ->. Qed.

Lemma script_call_throw {A B} (a : Answer A) e (k : A → P B) c :
  a = Throws e → bind (call a) k c = (Throws e, c).
Proof. by intros ->. Qed.

(** The line of the version in [test_pyhula_import]. *)
Lemma version_line_run w :
  ∃ line, ∀ c,
    catch (bind (call (InstallTest.get_version w))
             (λ version, print ("  Version: " +:+ version)))
          (λ e, print ("  Version: Could not retrieve (" +:+ str_of_exc e +:+ ")")) c
    = (Returns tt, step c [line] []).
Proof.
  destruct (InstallTest.get_version w) as [v|e] eqn:E.
  - eexists. intros c. apply script_catch_run.
    rewrite (script_call_run _ v) by done. apply script_print_run.
  - eexists. intros c.
    erewrite script_catch_throw by (by apply script_call_throw).
    apply script_print_run.
Qed.

(** The making of the [UserApi] in [test_pyhula_import]. *)
Lemma user_api_run w :
  ∃ lines, ∀ c,
    catch (bind (call (InstallTest.new_UserApi w)) (λ _,
             bind (print "✓ UserApi instance created successfully") (λ _,
               bind (print "  Ready for drone connection and control") (λ _,
                 ret true))))
          (λ e, bind (print ("✗ UserApi creation failed: " +:+ str_of_exc e))
                  (λ _, ret false)) c
    = (Returns (returns (InstallTest.new_UserApi w)), step c lines []).
Proof.
  destruct (InstallTest.new_UserApi w) as [[]|e] eqn:E.
  - eexists. intros c. apply script_catch_run.
    rewrite (script_call_run _ tt) by done. do 2 run_print.
    unfold ret. rewrite step_step. reflexivity.
  - eexists. intros c.
    erewrite script_catch_throw by (by apply script_call_throw).
    run_print. reflexivity.
Qed.

Lemma pyhula_import_run w :
  ∃ lines, ∀ c, InstallTest.test_pyhula_import w c
                = (Returns (pyhula_ok w), step c lines []).
Proof.
  unfold InstallTest.test_pyhula_import, pyhula_ok.
  destruct (version_line_run w) as (l1 & H1).
  destruct (user_api_run w) as (l2 & H2).
  destruct (InstallTest.import_pyhula w) as [[]|[m|m]] eqn:E; cbn [returns andb].
  - destruct (returns (InstallTest.new_UserApi w)).
    + destruct (filter (λ attr, InstallTest.is_private attr = false)
                  (InstallTest.dir_pyhula w)) as [|a l] eqn:Ef.
      * eexists. intros c.
        erewrite script_bind_run by apply print_header_run.
        apply script_catch_run.
        rewrite (script_call_run _ tt) by done. run_print.
        erewrite script_bind_run by apply H1.
        erewrite script_bind_run by apply H2. cbn [negb]. run_print.
        erewrite script_bind_run by reflexivity.
        unfold ret. rewrite !step_step. reflexivity.
      * eexists. intros c.
        erewrite script_bind_run by apply print_header_run.
        apply script_catch_run.
        rewrite (script_call_run _ tt) by done. run_print.
        erewrite script_bind_run by apply H1.
        erewrite script_bind_run by apply H2. cbn [negb]. run_print.
        erewrite script_bind_run.
        2:{ run_print. apply for_each_print. }
        unfold ret. rewrite !step_step. reflexivity.
    + eexists. intros c.
      erewrite script_bind_run by apply print_header_run.
      apply script_catch_run.
      rewrite (script_call_run _ tt) by done. run_print.
      erewrite script_bind_run by apply H1.
      erewrite script_bind_run by apply H2. cbn [negb].
      unfold ret. rewrite !step_step. reflexivity.
  - eexists. intros c.
    erewrite script_bind_run by apply print_header_run.
    erewrite script_catch_throw by (by apply script_call_throw).
    cbv iota. do 2 run_print. unfold ret. rewrite !step_step. reflexivity.
  - eexists. intros c.
    erewrite script_bind_run by apply print_header_run.
    erewrite script_catch_throw by (by apply script_call_throw).
    cbv iota. run_print. unfold ret. rewrite !step_step. reflexivity.
Qed.

(** X12.  [test_pyhula_import] returns whatever the package does: it
    returns [True] exactly when [import pyhula] and [pyhula.UserApi()]
    have both gone through, and [False] otherwise; what [get_version]
    answers and what [dir] lists change the lines only.  It writes no
    file. *)
Theorem pyhula_import_result (w : InstallTest.Env) (c : Console) :
  let r := InstallTest.test_pyhula_import w c in
  r.1 = Returns (pyhula_ok w)
  ∧ created r.2 = created c
  ∧ ∃ lines, printed r.2 = printed c ++ lines.
Proof.
  intros r. unfold r. destruct (pyhula_import_run w) as (lines & ->).
  simpl. split; [done|]. split; [by rewrite app_nil_r | by exists lines].
Qed.

Lemma environment_info_run w :
  ∃ lines, ∀ c,
    InstallTest.test_environment_info w c = (Returns tt, step c lines []).
Proof.
  unfold InstallTest.test_environment_info.
  destruct (InstallTest.real_prefix w || _);
    destruct (InstallTest.virtual_env w) as [v|];
    eexists; intros c;
    (erewrite script_bind_run by apply print_header_run); do 4 run_print.
  - erewrite script_bind_run.
    2:{ run_print. apply script_print_run. }
    rewrite script_print_run, !step_step. reflexivity.
  - erewrite script_bind_run.
    2:{ run_print. apply script_print_run. }
    unfold ret. rewrite !step_step. reflexivity.
  - run_print. rewrite script_print_run, !step_step. reflexivity.
  - run_print. unfold ret. rewrite !step_step. reflexivity.
Qed.

Lemma write_file_ok w name content c :
  InstallTest.write_error w name = None →
  InstallTest.write_file w name content c = (Returns tt, step c [] [(name, content)]).
Proof.
  intros H. unfold InstallTest.write_file, step. rewrite H. by rewrite app_nil_r.
Qed.

Lemma write_file_fails w name content c e :
  InstallTest.write_error w name = Some e →
  InstallTest.write_file w name content c = (Throws e, c).
Proof. intros H. unfold InstallTest.write_file. by rewrite H. Qed.

(** The three writes: the files up to the first that fails, and the
    exception of that one. *)
Lemma write_examples_run w t e n :
  let files := written_prefix w (example_files t e n) in
  ∃ err, (∀ c, InstallTest.write_examples w t e n c
               = (Returns (files.*1, err), step c [] files))
         ∧ (err = None ↔ length files = 3).
Proof.
  intros files. unfold files, InstallTest.write_examples, example_files.
  cbn [written_prefix].
  destruct (InstallTest.write_error w "pyhula_comprehensive_tutorial.py")
    as [e1|] eqn:E1.
  { exists (Some e1). split; [|done]. intros c.
    erewrite script_catch_throw.
    2:{ apply script_bind_throw. by apply write_file_fails. }
    unfold ret. by rewrite step_nil. }
  destruct (InstallTest.write_error w "pyhula_basic_examples.py")
    as [e2|] eqn:E2.
  { exists (Some e2). split; [|done]. intros c.
    apply script_catch_run.
    erewrite script_bind_run by (by apply write_file_ok).
    erewrite script_catch_throw.
    2:{ apply script_bind_throw. by apply write_file_fails. }
    done. }
  destruct (InstallTest.write_error w "network_setup_guide.md")
    as [e3|] eqn:E3.
  { exists (Some e3). split; [|done]. intros c.
    apply script_catch_run.
    erewrite script_bind_run by (by apply write_file_ok).
    apply script_catch_run.
    erewrite script_bind_run by (by apply write_file_ok).
    erewrite script_catch_throw.
    2:{ apply script_bind_throw. by apply write_file_fails. }
    unfold ret. by rewrite step_step. }
  exists None. split; [|done]. intros c.
  apply script_catch_run.
  erewrite script_bind_run by (by apply write_file_ok).
  apply script_catch_run.
  erewrite script_bind_run by (by apply write_file_ok).
  apply script_catch_run.
  erewrite script_bind_run by (by apply write_file_ok).
  unfold ret. by rewrite !step_step.
Qed.

(** The consoles of the two sides are the same lists. *)
Ltac console_eq :=
  unfold ret; rewrite ?step_step; cbn [app]; rewrite ?app_nil_r;
  try reflexivity.

(** [create_simple_test] for a run given with its console. *)
Lemma create_simple_test_run w t e n :
  let files := if returns (InstallTest.import_pyhula w)
               then written_prefix w (example_files t e n) else [] in
  ∃ lines,
    (∀ c, InstallTest.create_simple_test w t e n c
          = (Returns tt,
             step c (header_lines "Creating PyHula Example Files" ++ lines) files))
    ∧ (length files = 3 →
       head lines = Some "✓ Created comprehensive PyHula example files:")
    ∧ (0 < length files < 3 →
       last lines
       = Some ("  Successfully created: " +:+ String.concat ", " files.*1))
    ∧ (returns (InstallTest.import_pyhula w) = true → files = [] →
       ∃ msg, lines = ["✗ Could not create some files: " +:+ msg]).
Proof.
  intros files. unfold files, InstallTest.create_simple_test.
  destruct (InstallTest.import_pyhula w) as [[]|e0] eqn:E; cbn [returns].
  - destruct (write_examples_run w t e n) as (err & Hw & Herr).
    set (fs := written_prefix w (example_files t e n)) in *.
    destruct err as [e1|].
    + assert (length fs ≠ 3) as Hne by (intros H; by apply Herr in H).
      destruct (fs.*1) as [|name names] eqn:Hn.
      * exists ["✗ Could not create some files: " +:+ str_of_exc e1].
        split; [|split; [done|split]].
        -- intros c. erewrite script_bind_run by apply print_header_run.
           apply script_catch_run. rewrite (script_call_run _ tt) by done.
           erewrite script_bind_run by apply Hw. cbn [fst snd]. run_print.
           console_eq.
        -- intros H. destruct fs; simpl in *; [lia | done].
        -- intros _ _. by eexists.
      * exists ["✗ Could not create some files: " +:+ str_of_exc e1;
                "  Successfully created: " +:+ String.concat ", " (name :: names)].
        split; [|split; [done|split]].
        -- intros c. erewrite script_bind_run by apply print_header_run.
           apply script_catch_run. rewrite (script_call_run _ tt) by done.
           erewrite script_bind_run by apply Hw. cbn [fst snd]. run_print.
           rewrite script_print_run. console_eq.
        -- done.
        -- intros _ Hfs. rewrite Hfs in Hn. done.
    + assert (length fs = 3) as Hlen by (by apply Herr).
      exists ("✓ Created comprehensive PyHula example files:"
              :: ((λ file, "  - " +:+ file) <$> fs.*1)
              ++ ["\nFile descriptions:";
                  "  • pyhula_comprehensive_tutorial.py - Complete flight demonstration";
                  "  • pyhula_basic_examples.py - Individual feature examples";
                  "  • network_setup_guide.md - WiFi and connection setup guide"]).
      split; [|split; [|split]].
      * intros c. erewrite script_bind_run by apply print_header_run.
        apply script_catch_run. rewrite (script_call_run _ tt) by done.
        erewrite script_bind_run by apply Hw. cbn [fst snd]. run_print.
        erewrite script_bind_run by apply for_each_print.
        do 3 run_print. rewrite script_print_run. console_eq.
      * done.
      * lia.
      * intros _ Hfs. rewrite Hfs in Hlen. done.
  - exists ["✗ Could not create example files: " +:+ str_of_exc e0;
            "  PyHula may not be properly installed"].
    split; [|split; [done|split; [simpl; lia | done]]].
    intros c. erewrite script_bind_run by apply print_header_run.
    erewrite script_catch_throw by (by apply script_call_throw).
    run_print. rewrite script_print_run. console_eq.
Qed.

(** X13.  [create_simple_test] returns whatever happens, for every
    exception is caught.  It writes its three files in their order up to
    the first one that cannot be written, and none when [import pyhula]
    fails: the files written are that prefix.  When all three are written
    it says so; when a write has failed after at least one file, its last
    line names the files that were written; and when the first write has
    failed, it prints the line of the failure and nothing more. *)
Theorem create_simple_test_files
    (w : InstallTest.Env) (t e n : text) (c : Console) :
  let r := InstallTest.create_simple_test w t e n c in
  let files := if returns (InstallTest.import_pyhula w)
               then written_prefix w (example_files t e n) else [] in
  r.1 = Returns tt
  ∧ created r.2 = created c ++ files
  ∧ ∃ lines,
      printed r.2
      = printed c ++ header_lines "Creating PyHula Example Files" ++ lines
      ∧ (length files = 3 →
         head lines = Some "✓ Created comprehensive PyHula example files:")
      ∧ (0 < length files < 3 →
         last lines
         = Some ("  Successfully created: " +:+ String.concat ", " files.*1))
      ∧ (returns (InstallTest.import_pyhula w) = true → files = [] →
         ∃ msg, lines = ["✗ Could not create some files: " +:+ msg]).
Proof.
  intros r files.
  destruct (create_simple_test_run w t e n) as (lines & Hrun & H).
  unfold r. rewrite Hrun. split; [done|]. split; [done|]. by exists lines.
Qed.

(** X13 in an environment where the second file cannot be written: the
    first file is written and named in the last line. *)
Example demo_env_example_files :
  let r := InstallTest.create_simple_test demo_env (lit "a") (lit "b") (lit "c")
             (mkConsole [] []) in
  created r.2 = [("pyhula_comprehensive_tutorial.py", lit "a")]
  ∧ last (printed r.2)
    = Some "  Successfully created: pyhula_comprehensive_tutorial.py".
Proof. split; vm_compute; reflexivity. Qed.

Lemma summarize_run rs all_passed c :
  InstallTest.summarize rs all_passed c
  = (Returns (all_passed && forallb snd rs), step c (summary_line <$> rs) []).
Proof.
  revert all_passed c. induction rs as [|[name r] rs IH]; intros all_passed c.
  - simpl. unfold ret. by rewrite andb_true_r, step_nil.
  - cbn [InstallTest.summarize]. run_print. rewrite IH, step_step.
    unfold summary_line at 2. cbn [fmap list_fmap forallb fst snd].
    by destruct r, all_passed.
Qed.

(** The three tests in their order. *)
Lemma install_tests_run w :
  Forall (importable w) InstallTest.packages →
  ∃ lines, ∀ c,
    InstallTest.run_tests (InstallTest.tests w) [] c
    = (Returns (install_results w), step c lines []).
Proof.
  intros Hp.
  destruct (python_version_run w) as (l1 & H1).
  destruct (pyhula_import_run w) as (l3 & H3).
  eexists. intros c.
  unfold InstallTest.tests. cbn [InstallTest.run_tests].
  erewrite script_bind_run by apply H1.
  erewrite script_bind_run by (apply essential_packages_run, Hp).
  erewrite script_bind_run by apply H3.
  unfold ret. rewrite !step_step. reflexivity.
Qed.

(** [main] of the installation test for a run given with its console. *)
Lemma install_main_run w t e n c :
  Forall (importable w) InstallTest.packages →
  ∃ pre,
    InstallTest.main w t e n c
    = (Returns tt,
       step c
         (pre ++ header_lines "Test Summary"
              ++ (summary_line <$> install_results w)
              ++ [nl +:+ "Overall Result:"]
              ++ overall_lines (python_ok w && packages_ok w && pyhula_ok w))
         (if pyhula_ok w then written_prefix w (example_files t e n) else [])).
Proof.
  intros Hp.
  destruct (install_tests_run w Hp) as (l1 & H1).
  destruct (environment_info_run w) as (l2 & H2).
  assert (∃ l3, ∀ c0,
            (if pyhula_ok w then InstallTest.create_simple_test w t e n else ret tt) c0
            = (Returns tt,
               step c0 l3 (if pyhula_ok w
                           then written_prefix w (example_files t e n) else [])))
    as (l3 & H3).
  { destruct (pyhula_ok w) eqn:Hok.
    - unfold pyhula_ok in Hok. apply andb_true_iff in Hok as [Hok _].
      destruct (create_simple_test_run w t e n) as (l3 & H3 & _).
      rewrite Hok in H3. by eexists.
    - exists []. intros c0. unfold ret. by rewrite step_nil. }
  exists (["PyHula Installation Test"; "Test started at: " +:+ InstallTest.now w]
          ++ l1 ++ l2 ++ l3).
  unfold InstallTest.main. do 2 run_print.
  erewrite script_bind_run by apply H1.
  erewrite script_bind_run by apply H2.
  cbn [install_results lookup list_lookup].
  erewrite script_bind_run by reflexivity.
  erewrite script_bind_run by apply H3.
  erewrite script_bind_run by apply print_header_run.
  fold (install_results w).
  erewrite script_bind_run by apply summarize_run. run_print.
  assert (true && forallb snd (install_results w)
          = python_ok w && packages_ok w && pyhula_ok w) as ->.
  { simpl. by rewrite andb_true_r, andb_assoc. }
  destruct (python_ok w && packages_ok w && pyhula_ok w); cbn [overall_lines];
    do 4 run_print; rewrite script_print_run, !step_step;
    f_equal; unfold step; f_equal;
    [rewrite <- !app_assoc; reflexivity | by rewrite ?app_nil_r
    |rewrite <- !app_assoc; reflexivity | by rewrite ?app_nil_r].
Qed.

(** X14.  [main] of the installation test, when every import of a
    package returns or raises an [ImportError]: it returns; after the
    header of the summary it prints one line for each of the three tests
    and then, as the overall result, that all tests have passed exactly
    when Python is 3.6, the four packages can be imported, and [pyhula]
    can be imported and makes a [UserApi]; otherwise it prints that some
    tests have failed.  The example files are written when the test of
    [pyhula] has passed, whatever the two other tests have found, and
    they are the files up to the first that cannot be written. *)
Theorem install_main_verdict
    (w : InstallTest.Env) (t e n : text) (c : Console) :
  Forall (importable w) InstallTest.packages →
  let r := InstallTest.main w t e n c in
  r.1 = Returns tt
  ∧ created r.2
    = created c ++ (if pyhula_ok w
                    then written_prefix w (example_files t e n) else [])
  ∧ ∃ pre,
      printed r.2
      = printed c ++ pre ++ header_lines "Test Summary"
          ++ (summary_line <$> install_results w)
          ++ [nl +:+ "Overall Result:"]
          ++ overall_lines (python_ok w && packages_ok w && pyhula_ok w).
Proof.
  intros Hp r. destruct (install_main_run w t e n c Hp) as (pre & Hrun).
  unfold r. rewrite Hrun. split; [done|]. split; [done|]. by exists pre.
Qed.

(** X14 in an environment with Python 3.8 and without [cython], where
    [pyhula] works: the tests fail as a whole, and the example files are
    written all the same, up to the one that cannot be. *)
Lemma install_main_verdict_witness :
  let r := InstallTest.main demo_env (lit "a") (lit "b") (lit "c")
             (mkConsole [] []) in
  r.1 = Returns tt
  ∧ created r.2
    = [] ++ (if pyhula_ok demo_env
             then written_prefix demo_env
                    (example_files (lit "a") (lit "b") (lit "c"))
             else [])
  ∧ ∃ pre,
      printed r.2
      = [] ++ pre ++ header_lines "Test Summary"
          ++ (summary_line <$> install_results demo_env)
          ++ [nl +:+ "Overall Result:"]
          ++ overall_lines (python_ok demo_env && packages_ok demo_env
                            && pyhula_ok demo_env).
Proof.
  refine (install_main_verdict demo_env (lit "a") (lit "b") (lit "c")
            (mkConsole [] []) _).
  repeat constructor.
Defined.

Example demo_env_verdict :
  let r := InstallTest.main demo_env (lit "a") (lit "b") (lit "c")
             (mkConsole [] []) in
  created r.2 = [("pyhula_comprehensive_tutorial.py", lit "a")]
  ∧ last (printed r.2) = Some "3. Check the README.md for troubleshooting tips"
  ∧ install_results demo_env
    = [("Python Version", false); ("Essential Packages", false);
       ("PyHula Library", true)].
Proof. repeat split; vm_compute; reflexivity. Qed.
End ScriptFacts.
